(** * Validation models, endpoint helpers and HTTP middleware: a shallow embedding

    The development follows the three source files of the repository:

    - [backend/api-validation/resources/pydantic-models.py]
      (password and slug helpers, the user-name, password and slug patterns,
      the password-confirmation root validators, the paginated response
      wrapper, the validation-error formatter);
    - [backend/fastapi-guide/resources/middleware-examples.py]
      (rate limiting, authentication, security headers, maintenance mode,
      the order in which the middleware is registered, the validation
      exception handler);
    - [backend/fastapi-guide/resources/endpoint-examples.py]
      (the page count and the offset computed by [list_users], the user
      endpoints over the table of users, the routes of the router).

    Conventions.

    - A Python [int] is a [Z]; [//] is [Z.div] (both round towards minus
      infinity).
    - A Python [str] is a Rocq [string]; the regular-expression engine and the
      character-wise helpers work on its [list ascii].  The classes [\w], [\s],
      [\d] and [str.lower] are transcribed for 7-bit text, where their meaning
      does not depend on the Unicode database; statements about them carry the
      hypothesis that the text is 7-bit.
    - A [datetime] is the number of microseconds since the epoch, a [Z];
      [timedelta(minutes=1)] is [60_000_000].
    - A [dict] with string keys is a [gmap string _]; a [defaultdict(list)] is
      read through [getitem], which yields [[]] on an absent key.
    - Header collections compare names without regard to case: they are maps
      keyed by the lower-cased name.
    - A database session is the table of users it reads and writes, a
      [gmap Z User] from the primary key to the row. *)

From Stdlib Require Import ZArith String Ascii List Lia Bool.
From stdpp Require Import base gmap list strings pretty.

Set Warnings "-register-all".

Open Scope string_scope.
Open Scope list_scope.
Open Scope Z_scope.

(** ** Python string primitives *)

Module Py.

(** The text of a [str], character by character. *)
Definition chars (s : string) : list ascii := list_ascii_of_string s.
Definition of_chars (l : list ascii) : string := string_of_list_ascii l.

Definition code (c : ascii) : nat := nat_of_ascii c.

Definition in_range (lo hi : nat) (c : ascii) : bool :=
  (lo <=? code c)%nat && (code c <=? hi)%nat.

Definition is_ascii (c : ascii) : bool := (code c <? 128)%nat.
Definition is_lower (c : ascii) : bool := in_range 97 122 c.   (* a-z *)
Definition is_upper (c : ascii) : bool := in_range 65 90 c.    (* A-Z *)
Definition is_digit (c : ascii) : bool := in_range 48 57 c.    (* 0-9 *)

(** [str.isspace] on 7-bit text: TAB, LF, VT, FF, CR, the four separators
    FS, GS, RS, US, and the blank. *)
Definition is_space (c : ascii) : bool :=
  in_range 9 13 c || in_range 28 31 c || (code c =? 32)%nat.

(** [\w] on 7-bit text: letters, digits and the underscore. *)
Definition is_word (c : ascii) : bool :=
  is_lower c || is_upper c || is_digit c || (code c =? 95)%nat.

Definition lower_char (c : ascii) : ascii :=
  if is_upper c then ascii_of_nat (code c + 32) else c.

(** [s.lower()] *)
Definition lower (s : string) : string := of_chars (map lower_char (chars s)).

(** [s.startswith(p)] *)
Definition startswith (s p : string) : bool := String.prefix p s.

(** [s.split(sep)] for a one-character separator: cut at every occurrence. *)
Fixpoint split_chars (sep : ascii) (cur : list ascii) (l : list ascii)
  : list (list ascii) :=
  match l with
  | [] => [rev cur]
  | c :: l' =>
      if Ascii.eqb c sep then rev cur :: split_chars sep [] l'
      else split_chars sep (c :: cur) l'
  end.

Definition split (s : string) (sep : ascii) : list string :=
  map of_chars (split_chars sep [] (chars s)).

(** [sep.join(l)] *)
Definition join (sep : string) (l : list string) : string := String.concat sep l.

(** [s.strip(c)] for a one-character set: drop the leading and trailing
    occurrences of [c]. *)
Fixpoint lstrip_chars (c : ascii) (l : list ascii) : list ascii :=
  match l with
  | [] => []
  | x :: l' => if Ascii.eqb x c then lstrip_chars c l' else l
  end.

Definition strip_chars (c : ascii) (l : list ascii) : list ascii :=
  rev (lstrip_chars c (rev (lstrip_chars c l))).

Definition strip (s : string) (c : ascii) : string :=
  of_chars (strip_chars c (chars s)).

(** [str(n)] for an [int]. *)
Definition str_int (n : Z) : string := pretty n.

(** The values that occur as an element of an error location: a field name
    or a list index. *)
Inductive loc_item :=
| LocName (name : string)
| LocIndex (i : Z).

(** [str(loc)] *)
Definition str_loc (l : loc_item) : string :=
  match l with
  | LocName name => name
  | LocIndex i => str_int i
  end.

(** A raised exception: its class and its message. *)
Inductive exn :=
| ValueError (msg : string)
| Exception (msg : string).

(** The outcome of a call that may raise. *)
Inductive result (A : Type) :=
| Ok (a : A)
| Raise (e : exn).
Arguments Ok {A} a.
Arguments Raise {A} e.

End Py.

(** ** Regular expressions

    A backtracking matcher for the fragment of [re] the source uses: the
    anchors [^] and [$], character sets, sequencing, greedy bounded and
    unbounded repetition, and positive look-ahead.  A matcher state is the
    number of characters consumed so far and the text still to read; [rem r st]
    lists, in the order the engine tries them, the states in which [r] can
    finish when started in [st]. *)

Module Re.

Inductive regex :=
| Bol                                            (* ^ *)
| Eol                                            (* $ *)
| Cls (p : ascii -> bool)                        (* [...], \d, \w, \s, . *)
| Seq (r1 r2 : regex)                            (* r1 r2 *)
| Rep (r : regex) (lo : nat) (hi : option nat)   (* r{lo,hi}; r* is {0,}, r+ is {1,} *)
| Look (r : regex).                              (* (?=r) *)

Definition state : Type := nat * list ascii.

Definition newline : ascii := "010"%char.

(** [.]: any character except a newline. *)
Definition dot (c : ascii) : bool := negb (Ascii.eqb c newline).

Definition shorter (st st' : state) : bool :=
  (length (snd st') <? length (snd st))%nat.

(** Greedy repetition of [body]: one more round is tried first, stopping is
    tried last, and only once [lo] rounds are done.  A round has to consume
    something, so [fuel], the length of the text, bounds the rounds. *)
Fixpoint rep (body : state -> list state) (lo : nat) (hi : option nat)
    (fuel : nat) (st : state) : list state :=
  let stop := if (lo =? 0)%nat then [st] else [] in
  match fuel with
  | O => stop
  | S fuel' =>
      let more :=
        match hi with
        | Some O => []
        | _ =>
            flat_map (rep body (Nat.pred lo) (option_map Nat.pred hi) fuel')
                     (List.filter (shorter st) (body st))
        end in
      more ++ stop
  end.

Fixpoint rem (r : regex) (st : state) : list state :=
  match r with
  | Bol => if (fst st =? 0)%nat then [st] else []
  | Eol =>
      (* the end of the text, or just before a newline that ends it *)
      match snd st with
      | [] => [st]
      | [c] => if Ascii.eqb c newline then [st] else []
      | _ => []
      end
  | Cls p =>
      match snd st with
      | c :: rest => if p c then [(S (fst st), rest)] else []
      | [] => []
      end
  | Seq r1 r2 => flat_map (rem r2) (rem r1 st)
  | Rep r lo hi => rep (rem r) lo hi (length (snd st)) st
  | Look r =>
      match rem r st with
      | [] => []
      | _ :: _ => [st]
      end
  end.

(** [re.match(pattern, s)] is not [None]. *)
Definition re_match (pattern : regex) (s : string) : bool :=
  match rem pattern (O, Py.chars s) with
  | [] => false
  | _ :: _ => true
  end.

(** [re.sub]: scan the text from the left; where the pattern matches, put
    the replacement and go on after the match ([skip] counts the characters
    of the match still to pass over); elsewhere copy the character. *)
Fixpoint sub_from (pattern : regex) (repl : list ascii) (pos skip : nat)
    (s : list ascii) : list ascii :=
  match s with
  | [] =>
      match rem pattern (pos, []) with
      | [] => []
      | _ :: _ => repl
      end
  | c :: s' =>
      match skip with
      | S k => sub_from pattern repl (S pos) k s'
      | O =>
          match rem pattern (pos, s) with
          | [] => c :: sub_from pattern repl (S pos) O s'
          | (pos', _) :: _ =>
              if (pos' =? pos)%nat
              then repl ++ c :: sub_from pattern repl (S pos) O s'
              else repl ++ sub_from pattern repl (S pos) (pos' - pos - 1) s'
          end
      end
  end.

(** [re.sub(pattern, repl, s)] *)
Definition sub (pattern : regex) (repl : string) (s : string) : string :=
  Py.of_chars (sub_from pattern (Py.chars repl) O O (Py.chars s)).

(** Abbreviations for the quantifiers and for sets given by enumeration. *)
Definition star (r : regex) : regex := Rep r 0 None.
Definition plus (r : regex) : regex := Rep r 1 None.

Definition one_of (set : string) (c : ascii) : bool :=
  existsb (Ascii.eqb c) (Py.chars set).

Module Notations.
Infix "·" := Seq (at level 41, right associativity).
End Notations.

End Re.

(** ** JSON values and the HTTP objects of the framework *)

Module Http.

Inductive json :=
| JNull
| JInt (n : Z)
| JStr (s : string)
| JList (l : list json)
| JDict (items : list (string * json)).

(** A header collection: names are compared case-insensitively, so the map
    is keyed by the lower-cased name. *)
Definition getheader (h : gmap string string) (name : string) : option string :=
  h !! Py.lower name.

(** [h[name] = value] *)
Definition setheader (name value : string) (h : gmap string string)
  : gmap string string :=
  <[Py.lower name := value]> h.

(** [Request]: the parts the middleware reads and writes. *)
Record Request := mkRequest {
  url_path : string;                    (* request.url.path *)
  client : option string;               (* request.client.host, None when request.client is None *)
  req_headers : gmap string string;     (* request.headers *)
  state_user_id : option Z              (* request.state.user_id, when set *)
}.

Record Response := mkResponse {
  status_code : Z;
  content : json;
  headers : gmap string string
}.

(** [JSONResponse(status_code=..., content=..., headers=...)]; the entries the
    framework derives from the body (content type and length) are left out. *)
Definition JSONResponse (status : Z) (body : json) (hs : list (string * string))
  : Response :=
  {| status_code := status;
     content := body;
     headers := fold_right (fun kv h => setheader (fst kv) (snd kv) h) ∅ hs |}.

Definition HTTP_400_BAD_REQUEST : Z := 400.
Definition HTTP_401_UNAUTHORIZED : Z := 401.
Definition HTTP_429_TOO_MANY_REQUESTS : Z := 429.

(** What a [dispatch] does with the rest of the pipeline: either it awaits
    [call_next(request)] once and post-processes the response it gets, or it
    answers by itself and the inner handler is never reached. *)
Inductive Action :=
| CallNext (request : Request) (after : Response -> Response)
| Return (response : Response).

(** Running an action against an inner handler that may raise; an exception
    of the inner handler propagates. *)
Definition perform (call_next : Request -> Py.result Response) (a : Action)
  : Py.result Response :=
  match a with
  | CallNext request after =>
      match call_next request with
      | Py.Ok response => Py.Ok (after response)
      | Py.Raise e => Py.Raise e
      end
  | Return response => Py.Ok response
  end.

Definition reaches_inner (a : Action) : bool :=
  match a with CallNext _ _ => true | Return _ => false end.

End Http.

(** ** The validation library

    What the library does with the declarations of a model class: the fields
    are validated in the order of their declaration; a field that passes is
    entered in [values], a field that fails adds an error and stays out of
    [values]; the root validators run afterwards on [values], also when a
    field has failed; the model is built when no error was collected. *)

Module Pydantic.

(** One entry of [exc.errors()]. *)
Record error_dict := mkError {
  loc : list Py.loc_item;
  msg : string;
  type : string
}.

Inductive failure :=
| Missing                           (* the field is required and absent *)
| MinLength (limit : nat)
| MaxLength (limit : nat)
| Raised (e : Py.exn).              (* a validator of the model raised *)

Definition error_of (where_ : list Py.loc_item) (f : failure) : error_dict :=
  match f with
  | Missing => mkError where_ "field required" "value_error.missing"
  | MinLength n =>
      mkError where_
        ("ensure this value has at least " +:+ pretty n +:+ " characters")
        "value_error.any_str.min_length"
  | MaxLength n =>
      mkError where_
        ("ensure this value has at most " +:+ pretty n +:+ " characters")
        "value_error.any_str.max_length"
  | Raised (Py.ValueError m) => mkError where_ m "value_error"
  | Raised (Py.Exception m) => mkError where_ m "exception"
  end.

Inductive checked (V : Type) :=
| Pass (v : V)
| Fail (f : failure).
Arguments Pass {V} v.
Arguments Fail {V} f.

Definition of_py {V : Type} (r : Py.result V) : checked V :=
  match r with
  | Py.Ok v => Pass v
  | Py.Raise e => Fail (Raised e)
  end.

Section Pipeline.
Context {V : Type}.

(** The values validated so far and the errors collected so far. *)
Definition state : Type := gmap string V * list error_dict.

(** A validator gets the value and the values of the fields before it. *)
Definition validator : Type := V -> gmap string V -> checked V.

Fixpoint apply_validators (vs : list validator) (v : V) (values : gmap string V)
  : checked V :=
  match vs with
  | [] => Pass v
  | f :: vs' =>
      match f v values with
      | Pass v' => apply_validators vs' v' values
      | Fail e => Fail e
      end
  end.

(** A required field; [raw] is the value supplied for it, if any. *)
Definition field (name : string) (vs : list validator) (raw : option V)
    (st : state) : state :=
  match raw with
  | None => (fst st, snd st ++ [error_of [Py.LocName name] Missing])
  | Some v =>
      match apply_validators vs v (fst st) with
      | Pass v' => (<[name := v']> (fst st), snd st)
      | Fail f => (fst st, snd st ++ [error_of [Py.LocName name] f])
      end
  end.

(** A root validator, run after the fields. *)
Definition root (rv : gmap string V -> Py.result (gmap string V)) (st : state)
  : state :=
  match rv (fst st) with
  | Py.Ok values => (values, snd st)
  | Py.Raise e => (fst st, snd st ++ [error_of [Py.LocName "__root__"] (Raised e)])
  end.

Inductive outcome :=
| Valid (values : gmap string V)
| ValidationError (errors : list error_dict).

Definition finish (st : state) : outcome :=
  match snd st with
  | [] => Valid (fst st)
  | _ :: _ => ValidationError (snd st)
  end.

End Pipeline.

(** The constraints [min_length] and [max_length] of a text field. *)
Definition min_length (n : nat) : @validator string :=
  fun v _ => if (String.length v <? n)%nat then Fail (MinLength n) else Pass v.

Definition max_length (n : nat) : @validator string :=
  fun v _ => if (n <? String.length v)%nat then Fail (MaxLength n) else Pass v.

(** A validator of the model that takes the value only. *)
Definition plain {V : Type} (f : V -> Py.result V) : @validator V :=
  fun v _ => of_py (f v).

End Pydantic.

(** ** pydantic-models.py *)

Module PydanticModels.
Import Re.Notations.
Import Pydantic.

(** [[@$!%*?&]] *)
Definition special : ascii -> bool := Re.one_of "@$!%*?&".

(** [[A-Za-z\d@$!%*?&]] *)
Definition password_char (c : ascii) : bool :=
  Py.is_upper c || Py.is_lower c || Py.is_digit c || special c.

(** [(?=.*[...])] *)
Definition somewhere (p : ascii -> bool) : Re.regex :=
  Re.Look (Re.star (Re.Cls Re.dot) · Re.Cls p).

(** [^(?=.*[a-z])(?=.*[A-Z])(?=.*\d)(?=.*[@$!%*?&])[A-Za-z\d@$!%*?&]{8,128}$] *)
Definition PASSWORD_PATTERN : Re.regex :=
  Re.Bol · somewhere Py.is_lower · somewhere Py.is_upper
         · somewhere Py.is_digit · somewhere special
         · Re.Rep (Re.Cls password_char) 8 (Some 128%nat) · Re.Eol.

(** [[a-z0-9]] *)
Definition slug_char (c : ascii) : bool := Py.is_lower c || Py.is_digit c.

Definition hyphen (c : ascii) : bool := Ascii.eqb c "-"%char.

(** [^[a-z0-9]+(?:-[a-z0-9]+)*$] *)
Definition SLUG_PATTERN : Re.regex :=
  Re.Bol · Re.plus (Re.Cls slug_char)
         · Re.star (Re.Cls hyphen · Re.plus (Re.Cls slug_char))
         · Re.Eol.

(** [validate_password]: validate password strength. *)
Definition validate_password (password : string) : Py.result string :=
  if negb (Re.re_match PASSWORD_PATTERN password) then
    Py.Raise (Py.ValueError
      ("Password must be 8-128 characters and contain at least one uppercase letter, "
       +:+ "one lowercase letter, one number, and one special character"))
  else Py.Ok password.

(** [[^\w\s-]] *)
Definition not_word_space_hyphen (c : ascii) : bool :=
  negb (Py.is_word c || Py.is_space c || hyphen c).

(** [[\s_-]] *)
Definition space_underscore_hyphen (c : ascii) : bool :=
  Py.is_space c || Ascii.eqb c "_"%char || hyphen c.

(** [slug_generator]: generate slug from title. *)
Definition slug_generator (v : string) : string :=
  let slug := Py.lower v in
  let slug := Re.sub (Re.Cls not_word_space_hyphen) EmptyString slug in
  let slug := Re.sub (Re.plus (Re.Cls space_underscore_hyphen)) "-" slug in
  let slug := Py.strip slug "-" in
  slug.

(** *** [UserRegistration]

    The claims are about the two password fields; the errors of the other
    fields ([email], [username], [first_name], [last_name], [birth_date],
    [accept_terms]) enter as [other_errors]. *)

Module UserRegistration.

Record input := mkInput {
  password : option string;
  confirm_password : option string;
  other_errors : list error_dict
}.

Definition password_strength (v : string) : Py.result string :=
  validate_password v.

Definition passwords_match (values : gmap string string)
  : Py.result (gmap string string) :=
  let password := values !! "password" in
  let confirm := values !! "confirm_password" in
  if decide (password ≠ confirm) then
    Py.Raise (Py.ValueError "Passwords do not match")
  else Py.Ok values.

Definition validate (i : input) : outcome :=
  let st := (∅, other_errors i) in
  let st := field "password" [min_length 8; max_length 128; plain password_strength]
              (password i) st in
  let st := field "confirm_password" [] (confirm_password i) st in
  let st := root passwords_match st in
  finish st.

End UserRegistration.

(** *** [PasswordChange] *)

Module PasswordChange.

Record input := mkInput {
  current_password : option string;
  new_password : option string;
  confirm_password : option string
}.

Definition password_strength (v : string) : Py.result string :=
  validate_password v.

Definition passwords_match (values : gmap string string)
  : Py.result (gmap string string) :=
  let new_pass := values !! "new_password" in
  let confirm := values !! "confirm_password" in
  let current := values !! "current_password" in
  if decide (new_pass ≠ confirm) then
    Py.Raise (Py.ValueError "Passwords do not match")
  else if decide (new_pass = current) then
    Py.Raise (Py.ValueError "New password must be different from current password")
  else Py.Ok values.

Definition validate (i : input) : outcome :=
  let st := (∅, []) in
  let st := field "current_password" [min_length 1] (current_password i) st in
  let st := field "new_password" [min_length 8; max_length 128; plain password_strength]
              (new_password i) st in
  let st := field "confirm_password" [] (confirm_password i) st in
  let st := root passwords_match st in
  finish st.

End PasswordChange.

(** *** [PasswordReset] *)

Module PasswordReset.

Record input := mkInput {
  token : option string;
  password : option string;
  confirm_password : option string
}.

Definition password_strength (v : string) : Py.result string :=
  validate_password v.

Definition passwords_match (values : gmap string string)
  : Py.result (gmap string string) :=
  let password := values !! "password" in
  let confirm := values !! "confirm_password" in
  if decide (password ≠ confirm) then
    Py.Raise (Py.ValueError "Passwords do not match")
  else Py.Ok values.

Definition validate (i : input) : outcome :=
  let st := (∅, []) in
  let st := field "token" [min_length 1] (token i) st in
  let st := field "password" [min_length 8; max_length 128; plain password_strength]
              (password i) st in
  let st := field "confirm_password" [] (confirm_password i) st in
  let st := root passwords_match st in
  finish st.

End PasswordReset.

(** *** [PaginatedResponse]: paginated response wrapper

    The four counters are [int] fields; [data] is a list of dictionaries and
    takes no part in the computation: its validation is summarised by whether
    it passed. *)

Module PaginatedResponse.

Record t := mk {
  total : Z;
  page : Z;
  limit : Z;
  pages : Z
}.

(** [@validator('pages', always=True)] *)
Definition calculate_pages (v : Z) (values : gmap string Z) : Z :=
  let total := default 0 (values !! "total") in
  let limit := default 20 (values !! "limit") in
  if 0 <? limit then (total + limit - 1) / limit else 0.

Definition validate (data_ok : bool) (total page limit pages : option Z)
  : @outcome Z :=
  let st := (∅, if data_ok then [] else [error_of [Py.LocName "data"] Missing]) in
  let st := field "total" [] total st in
  let st := field "page" [] page st in
  let st := field "limit" [] limit st in
  let st := field "pages" [fun v values => Pass (calculate_pages v values)] pages st in
  finish st.

(** The model instance, when validation succeeds. *)
Definition construct (data_ok : bool) (total page limit pages : option Z)
  : option t :=
  match validate data_ok total page limit pages with
  | Valid values =>
      Some {| total := default 0 (values !! "total");
              page := default 0 (values !! "page");
              limit := default 0 (values !! "limit");
              pages := default 0 (values !! "pages") |}
  | ValidationError _ => None
  end.

End PaginatedResponse.

(** *** Error formatting *)

Record ErrorDetail := mkErrorDetail {
  field : string;
  message : string
}.

Record ErrorResponse := mkErrorResponse {
  error : string;
  details : option (list ErrorDetail)
}.

(** [format_validation_error(exc)]; the argument is [exc.errors()]. *)
Definition format_validation_error (exc_errors : list error_dict) : ErrorResponse :=
  let details :=
    fold_left
      (fun details error =>
         details ++ [mkErrorDetail (Py.join "." (map Py.str_loc (loc error)))
                                   (msg error)])
      exc_errors [] in
  {| error := "Validation failed"; details := Some details |}.

End PydanticModels.

(** ** middleware-examples.py *)

(** *** [RateLimitMiddleware]: simple in-memory rate limiting *)

Module RateLimitMiddleware.
Import Http.

Record t := mk {
  requests_per_minute : Z;
  requests : gmap string (list Z)       (* defaultdict(list) *)
}.

(** [__init__(app, requests_per_minute)] *)
Definition init (requests_per_minute : Z) : t :=
  {| requests_per_minute := requests_per_minute; requests := ∅ |}.

(** Reading [d[k]] on a [defaultdict(list)]. *)
Definition getitem (d : gmap string (list Z)) (k : string) : list Z :=
  default [] (d !! k).

(** [timedelta(minutes=1)], in microseconds. *)
Definition minute : Z := 60000000.

(** The client identifier of a request. *)
Definition client_id (request : Request) : string :=
  match client request with
  | Some host => host
  | None => "unknown"
  end.

(** The list comprehension that cleans old requests. *)
Definition clean (now : Z) (times : list Z) : list Z :=
  let minute_ago := now - minute in
  filter (λ req_time, minute_ago < req_time) times.

Definition too_many (self : t) : Response :=
  JSONResponse HTTP_429_TOO_MANY_REQUESTS
    (JDict [("error", JStr "Rate limit exceeded");
            ("detail", JStr ("Maximum " +:+ Py.str_int (requests_per_minute self)
                             +:+ " requests per minute"))])
    [].

(** [dispatch(request, call_next)], with [now] the value read from
    [datetime.utcnow()]. *)
Definition dispatch (self : t) (request : Request) (now : Z) : t * Action :=
  if String.eqb (url_path request) "/health" then
    (self, CallNext request id)
  else
    let client_id := client_id request in
    let kept := clean now (getitem (requests self) client_id) in
    let self1 :=
      {| requests_per_minute := requests_per_minute self;
         requests := <[client_id := kept]> (requests self) |} in
    if requests_per_minute self1 <=? Z.of_nat (length (getitem (requests self1) client_id))
    then (self1, Return (too_many self1))
    else
      ({| requests_per_minute := requests_per_minute self1;
          requests := <[client_id := getitem (requests self1) client_id ++ [now]]>
                        (requests self1) |},
       CallNext request id).

(** One entry of the log of a sequential run: the request, the clock value
    it was handled at, and what [dispatch] did. *)
Record event := mkEvent {
  ev_request : Request;
  ev_now : Z;
  ev_action : Action
}.

Definition step (st : t * list event) (arrival : Request * Z) : t * list event :=
  let '(self', a) := dispatch (fst st) (fst arrival) (snd arrival) in
  (self', snd st ++ [mkEvent (fst arrival) (snd arrival) a]).

(** Requests handled one at a time, in the order of the list. *)
Definition run (self : t) (arrivals : list (Request * Z)) : t * list event :=
  fold_left step arrivals (self, []).

(** A store that sequential processing can produce from a fresh middleware. *)
Definition reachable (rpm : Z) (self : t) : Prop :=
  ∃ arrivals, self = fst (run (init rpm) arrivals).

(** The clock never goes back between two successive requests. *)
Fixpoint nondecreasing (ts : list Z) : bool :=
  match ts with
  | t1 :: rest =>
      match rest with
      | t2 :: _ => (t1 <=? t2) && nondecreasing rest
      | [] => true
      end
  | [] => true
  end.

Definition is_health (request : Request) : bool :=
  String.eqb (url_path request) "/health".

(** The clock values of the requests of client [c] that reached the inner
    handler. *)
Definition forwarded (c : string) (log : list event) : list Z :=
  ev_now <$> filter (λ e, client_id (ev_request e) = c
                          ∧ reaches_inner (ev_action e) = true) log.

(** The same, leaving out the health checks. *)
Definition forwarded_limited (c : string) (log : list event) : list Z :=
  ev_now <$> filter (λ e, client_id (ev_request e) = c
                          ∧ is_health (ev_request e) = false
                          ∧ reaches_inner (ev_action e) = true) log.

(** The members of [ts] inside the window of one minute that ends at [a]. *)
Definition within (a : Z) (ts : list Z) : list Z :=
  filter (λ s, a - minute < s ∧ s <= a) ts.

End RateLimitMiddleware.

(** *** [AuthenticationMiddleware]: add user info to request state *)

Module AuthenticationMiddleware.
Import Http.

Section WithVerifier.

(** [verify_token] decodes a JWT with an external library and the
    application's secret; it is taken as given: it returns a user id or
    raises. *)
Variable verify_token : string -> Py.result Z.

Definition public_paths : list string :=
  ["/health"; "/docs"; "/redoc"; "/openapi.json"; "/auth/login"; "/auth/register"].

Definition unauthorized (msg : string) : Response :=
  JSONResponse HTTP_401_UNAUTHORIZED
    (JDict [("error", JStr msg)])
    [("WWW-Authenticate", "Bearer")].

(** [not auth_header or not auth_header.startswith("Bearer ")] *)
Definition no_bearer (auth_header : option string) : bool :=
  match auth_header with
  | None => true
  | Some h => String.eqb h EmptyString || negb (Py.startswith h "Bearer ")
  end.

Definition set_user_id (request : Request) (user_id : Z) : Request :=
  {| url_path := url_path request;
     client := client request;
     req_headers := req_headers request;
     state_user_id := Some user_id |}.

Definition dispatch (request : Request) : Action :=
  if existsb (fun path => Py.startswith (url_path request) path) public_paths then
    CallNext request id
  else
    let auth_header := getheader (req_headers request) "Authorization" in
    if no_bearer auth_header then
      Return (unauthorized "Authentication required")
    else
      (* [auth_header.split(" ")[1]]: the header starts with "Bearer ", so
         the split has a second piece. *)
      let token := nth 1 (Py.split (default EmptyString auth_header) " ") EmptyString in
      match verify_token token with
      | Py.Ok user_id => CallNext (set_user_id request user_id) id
      | Py.Raise _ => Return (unauthorized "Invalid or expired token")
      end.

End WithVerifier.

End AuthenticationMiddleware.

(** *** [SecurityHeadersMiddleware]: add security headers to all responses *)

Module SecurityHeadersMiddleware.
Import Http.

Definition with_header (name value : string) (response : Response) : Response :=
  {| status_code := status_code response;
     content := content response;
     headers := setheader name value (headers response) |}.

Definition add_security_headers (response : Response) : Response :=
  let response := with_header "X-Content-Type-Options" "nosniff" response in
  let response := with_header "X-Frame-Options" "DENY" response in
  let response := with_header "X-XSS-Protection" "1; mode=block" response in
  let response := with_header "Strict-Transport-Security"
                    "max-age=31536000; includeSubDomains" response in
  let response := with_header "Referrer-Policy"
                    "strict-origin-when-cross-origin" response in
  response.

Definition dispatch (request : Request) : Action :=
  CallNext request add_security_headers.

(** The five names, as the header collection stores them. *)
Definition security_headers : list (string * string) :=
  [("x-content-type-options", "nosniff");
   ("x-frame-options", "DENY");
   ("x-xss-protection", "1; mode=block");
   ("strict-transport-security", "max-age=31536000; includeSubDomains");
   ("referrer-policy", "strict-origin-when-cross-origin")].

End SecurityHeadersMiddleware.

(** *** The handler of request validation errors *)

Module ErrorHandling.
Import Http.

Import Pydantic.

(** ['.'.join(str(loc) for loc in error['loc'])] *)
Definition field_of (error : error_dict) : string :=
  Py.join "." (map Py.str_loc (loc error)).

(** [validation_exception_handler(request, exc)]; [timestamp] is the text of
    [datetime.utcnow().isoformat()]. *)
Definition validation_exception_handler (exc_errors : list error_dict)
    (timestamp : string) : Response :=
  let errors :=
    fold_left
      (fun errors error =>
         errors ++ [JDict [("field", JStr (field_of error));
                           ("message", JStr (msg error));
                           ("type", JStr (type error))]])
      exc_errors [] in
  JSONResponse HTTP_400_BAD_REQUEST
    (JDict [("error", JStr "Validation failed");
            ("details", JList errors);
            ("timestamp", JStr timestamp)])
    [].

End ErrorHandling.

(** ** endpoint-examples.py *)

Module EndpointExamples.

(** The page count [list_users] passes to [PaginatedResponse]:
    [(total + limit - 1) // limit]. *)
Definition list_users_pages (total limit : Z) : Z :=
  (total + limit - 1) / limit.

End EndpointExamples.

(** ** middleware-examples.py, continued *)

(** *** [MaintenanceModeMiddleware]: maintenance mode via the settings *)

Module MaintenanceModeMiddleware.
Import Http.

(** The entries of [app.core.config.settings] the middleware reads. *)
Record Settings := mkSettings {
  MAINTENANCE_MODE : bool;
  MAINTENANCE_MESSAGE : option string
}.

Definition HTTP_503_SERVICE_UNAVAILABLE : Z := 503.

(** [settings.MAINTENANCE_MESSAGE or "We'll be back soon!"] *)
Definition message (settings : Settings) : string :=
  match MAINTENANCE_MESSAGE settings with
  | Some m => if String.eqb m EmptyString then "We'll be back soon!" else m
  | None => "We'll be back soon!"
  end.

Definition dispatch (settings : Settings) (request : Request) : Action :=
  if String.eqb (url_path request) "/health" then
    CallNext request id
  else if MAINTENANCE_MODE settings then
    Return (JSONResponse HTTP_503_SERVICE_UNAVAILABLE
              (JDict [("error", JStr "Service under maintenance");
                      ("message", JStr (message settings))])
              [])
  else CallNext request id.

End MaintenanceModeMiddleware.

(** *** [setup_middleware]: the order of the middleware

    [add_middleware] puts each middleware around those added before it, so
    the one added last sees the request first.  Of the middleware the function
    registers, three either answer by themselves or set the headers of the
    response: going inwards, [RateLimitMiddleware]
    (100 requests per minute), [SecurityHeadersMiddleware] and
    [MaintenanceModeMiddleware]. *)

Module SetupMiddleware.
Import Http.

(** An action whose [call_next] is itself a middleware. *)
Definition around (outer : Action) (inner : Request -> Action) : Action :=
  match outer with
  | CallNext request after =>
      match inner request with
      | CallNext request' after' => CallNext request' (fun r => after (after' r))
      | Return response => Return (after response)
      end
  | Return response => Return response
  end.

(** [app.add_middleware(RateLimitMiddleware, requests_per_minute=100)] *)
Definition limiter : RateLimitMiddleware.t := RateLimitMiddleware.init 100.

Definition dispatch (settings : MaintenanceModeMiddleware.Settings)
    (limiter : RateLimitMiddleware.t) (request : Request) (now : Z)
  : RateLimitMiddleware.t * Action :=
  let '(limiter', a) := RateLimitMiddleware.dispatch limiter request now in
  (limiter',
   around a (fun request =>
     around (SecurityHeadersMiddleware.dispatch request)
            (MaintenanceModeMiddleware.dispatch settings))).

End SetupMiddleware.

(** ** pydantic-models.py, continued *)

Module PydanticModelsMore.
Import Re.Notations.

(** [[a-zA-Z0-9_]] *)
Definition username_char (c : ascii) : bool :=
  Py.is_lower c || Py.is_upper c || Py.is_digit c || Ascii.eqb c "_"%char.

(** [^[a-zA-Z0-9_]{3,30}$] *)
Definition USERNAME_PATTERN : Re.regex :=
  Re.Bol · Re.Rep (Re.Cls username_char) 3 (Some 30%nat) · Re.Eol.

(** The [username] field of [UserRegistration]: the constraint
    [constr(regex=USERNAME_PATTERN)], then [username_lowercase]. *)
Definition username_lowercase (v : string) : string := Py.lower v.

Definition username_field (v : string) : option string :=
  if Re.re_match USERNAME_PATTERN v then Some (username_lowercase v) else None.

End PydanticModelsMore.

(** ** endpoint-examples.py, continued *)

(** *** The user endpoints *)

(** The user endpoints.  The session [db] is modelled by the table of users
    it reads and writes: a finite map from the primary key to the row, which
    [commit] and [refresh] leave as written.  An endpoint takes the table
    and returns the table after the request with what it returns or raises;
    [current_user] is the argument that [Depends] supplies. *)
Module UserEndpoints.

Inductive UserRole := USER | MODERATOR | ADMIN.

#[global] Instance UserRole_eq_dec : EqDecision UserRole.
Proof. solve_decision. Defined.

(** The attributes of [User] that the endpoints read or write.  The names
    and the bio are optional: [update_user] stores what was sent, [None]
    included. *)
Record User := mkUser {
  id : Z;
  email : string;
  username : string;
  hashed_password : string;
  first_name : option string;
  last_name : option string;
  bio : option string;
  role : UserRole;
  is_active : bool;
  avatar_url : option string;
  updated_at : Z;
}.

Definition set_first_name (value : option string) (user : User) : User :=
  mkUser (id user) (email user) (username user) (hashed_password user)
         value (last_name user) (bio user)
         (role user) (is_active user) (avatar_url user) (updated_at user).

Definition set_last_name (value : option string) (user : User) : User :=
  mkUser (id user) (email user) (username user) (hashed_password user)
         (first_name user) value (bio user)
         (role user) (is_active user) (avatar_url user) (updated_at user).

Definition set_bio (value : option string) (user : User) : User :=
  mkUser (id user) (email user) (username user) (hashed_password user)
         (first_name user) (last_name user) value
         (role user) (is_active user) (avatar_url user) (updated_at user).

Definition set_is_active (value : bool) (user : User) : User :=
  mkUser (id user) (email user) (username user) (hashed_password user)
         (first_name user) (last_name user) (bio user)
         (role user) value (avatar_url user) (updated_at user).

Definition set_avatar_url (value : option string) (user : User) : User :=
  mkUser (id user) (email user) (username user) (hashed_password user)
         (first_name user) (last_name user) (bio user)
         (role user) (is_active user) value (updated_at user).

Definition set_updated_at (value : Z) (user : User) : User :=
  mkUser (id user) (email user) (username user) (hashed_password user)
         (first_name user) (last_name user) (bio user)
         (role user) (is_active user) (avatar_url user) value.

(** What an endpoint does: it returns a value, raises [HTTPException], or
    lets the [MultipleResultsFound] of [scalar_one_or_none] through. *)
Inductive result (A : Type) :=
| Returns (a : A)
| HTTPException (status_code : Z) (detail : string)
| MultipleResultsFound.
Arguments Returns {A} a.
Arguments HTTPException {A} status_code detail.
Arguments MultipleResultsFound {A}.

Definition HTTP_403_FORBIDDEN : Z := 403.
Definition HTTP_404_NOT_FOUND : Z := 404.
Definition HTTP_409_CONFLICT : Z := 409.

(** [select(User).where(...)]: the rows for which the condition holds. *)
Definition select_where (condition : User -> bool) (db : gmap Z User) : list User :=
  List.filter condition (snd <$> map_to_list db).

(** [scalar_one_or_none()]: the row, [None], or too many rows. *)
Inductive scalar (A : Type) :=
| NoRow
| OneRow (row : A)
| TooManyRows.
Arguments NoRow {A}.
Arguments OneRow {A} row.
Arguments TooManyRows {A}.

Definition scalar_one_or_none {A : Type} (rows : list A) : scalar A :=
  match rows with
  | [] => NoRow
  | [row] => OneRow row
  | _ :: _ :: _ => TooManyRows
  end.

(** [UserCreate] *)
Module UserCreate.
Record t := mk {
  email : string;
  username : string;
  password : string;
  first_name : string;
  last_name : string;
}.
End UserCreate.

Section WithSecurity.

(** [app.core.security.get_password_hash], taken as given. *)
Variable get_password_hash : string -> string.

(** [create_user]; [new_row] holds what the database gives the columns that
    [User(...)] leaves out, the primary key among them. *)
Definition create_user (user_data : UserCreate.t) (db : gmap Z User)
    (new_row : User) : gmap Z User * result User :=
  match scalar_one_or_none
          (select_where
             (fun user => String.eqb (email user) (UserCreate.email user_data)) db)
  with
  | TooManyRows => (db, MultipleResultsFound)
  | OneRow _ => (db, HTTPException HTTP_409_CONFLICT "Email already registered")
  | NoRow =>
      match scalar_one_or_none
              (select_where
                 (fun user =>
                    String.eqb (username user) (UserCreate.username user_data)) db)
      with
      | TooManyRows => (db, MultipleResultsFound)
      | OneRow _ => (db, HTTPException HTTP_409_CONFLICT "Username already taken")
      | NoRow =>
          let hashed_password := get_password_hash (UserCreate.password user_data) in
          let user :=
            mkUser (id new_row)
                   (UserCreate.email user_data)
                   (UserCreate.username user_data)
                   hashed_password
                   (Some (UserCreate.first_name user_data))
                   (Some (UserCreate.last_name user_data))
                   (bio new_row) (role new_row) (is_active new_row)
                   (avatar_url new_row) (updated_at new_row) in
          (<[id user := user]> db, Returns user)
      end
  end.

End WithSecurity.

(** [get_current_admin]: require admin role. *)
Definition get_current_admin (current_user : User) : result User :=
  if bool_decide (role current_user <> ADMIN) then
    HTTPException HTTP_403_FORBIDDEN "Admin access required"
  else Returns current_user.

(** [f"User with ID {user_id} not found"] *)
Definition not_found (user_id : Z) : string :=
  "User with ID " +:+ Py.str_int user_id +:+ " not found".

(** The offset [list_users] asks the database for: [(page - 1) * limit]. *)
Definition list_users_offset (page limit : Z) : Z := (page - 1) * limit.

Definition get_user (user_id : Z) (db : gmap Z User) : result User :=
  match db !! user_id with
  | None => HTTPException HTTP_404_NOT_FOUND (not_found user_id)
  | Some user => Returns user
  end.

(** [UserUpdate]: a field is absent ([None]) or set, possibly to [None]. *)
Module UserUpdate.
Record t := mk {
  first_name : option (option string);
  last_name : option (option string);
  bio : option (option string);
}.
End UserUpdate.

(** [user_data.dict(exclude_unset=True)], in the order of the fields. *)
Definition dict_exclude_unset (user_data : UserUpdate.t)
    : list (string * option string) :=
  omap (fun kv => pair (fst kv) <$> snd kv)
       [("first_name", UserUpdate.first_name user_data);
        ("last_name", UserUpdate.last_name user_data);
        ("bio", UserUpdate.bio user_data)].

(** [setattr(user, field, value)] for the fields of [UserUpdate]. *)
Definition setattr (user : User) (field : string) (value : option string) : User :=
  if String.eqb field "first_name" then set_first_name value user
  else if String.eqb field "last_name" then set_last_name value user
  else if String.eqb field "bio" then set_bio value user
  else user.

Definition update_user (user_id : Z) (user_data : UserUpdate.t)
    (db : gmap Z User) (current_user : User) (utcnow : Z)
    : gmap Z User * result User :=
  match db !! user_id with
  | None => (db, HTTPException HTTP_404_NOT_FOUND (not_found user_id))
  | Some user =>
      if bool_decide (id current_user <> user_id)
         && bool_decide (role current_user <> ADMIN)
      then (db, HTTPException HTTP_403_FORBIDDEN "You can only update your own profile")
      else
        let update_data := dict_exclude_unset user_data in
        let user :=
          fold_left (fun user kv => setattr user (fst kv) (snd kv)) update_data user in
        let user := set_updated_at utcnow user in
        (<[user_id := user]> db, Returns user)
  end.

Definition delete_user (user_id : Z) (db : gmap Z User) (current_user : User)
    : gmap Z User * result unit :=
  match get_current_admin current_user with
  | HTTPException status_code detail => (db, HTTPException status_code detail)
  | MultipleResultsFound => (db, MultipleResultsFound)
  | Returns current_user =>
      match db !! user_id with
      | None => (db, HTTPException HTTP_404_NOT_FOUND (not_found user_id))
      | Some user => (delete user_id db, Returns tt)
      end
  end.

(** [file: UploadFile]: what [upload_avatar] reads of it. *)
Record UploadFile := mkUploadFile {
  content_type : option string;
  filename : option string;
  contents : list Byte.byte;        (* [await file.read()] *)
}.

Definition allowed_types : list string := ["image/jpeg"; "image/png"; "image/webp"].

(** [file.content_type in allowed_types] *)
Definition is_allowed (content_type : option string) : bool :=
  match content_type with
  | Some t => existsb (String.eqb t) allowed_types
  | None => false
  end.

(** [{file.filename}] in an f-string: a missing name is written [None]. *)
Definition format_filename (filename : option string) : string :=
  default "None" filename.

Definition upload_avatar (user_id : Z) (file : UploadFile)
    (db : gmap Z User) (current_user : User)
    : gmap Z User * result (list (string * string)) :=
  if bool_decide (id current_user <> user_id)
     && bool_decide (role current_user <> ADMIN)
  then (db, HTTPException HTTP_403_FORBIDDEN "You can only update your own avatar")
  else if negb (is_allowed (content_type file))
  then (db, HTTPException Http.HTTP_400_BAD_REQUEST
              ("Invalid file type. Allowed: " +:+ Py.join ", " allowed_types))
  else if 5 * 1024 * 1024 <? Z.of_nat (length (contents file))
  then (db, HTTPException Http.HTTP_400_BAD_REQUEST "File size exceeds 5MB limit")
  else
    let file_url :=
      "https://storage.example.com/avatars/" +:+ Py.str_int user_id +:+ "/"
      +:+ format_filename (filename file) in
    let db :=
      match db !! user_id with
      | Some user => <[user_id := set_avatar_url (Some file_url) user]> db
      | None => db
      end in
    (db, Returns [("url", file_url)]).

Definition activate_user (user_id : Z) (db : gmap Z User)
    (current_user : User) (utcnow : Z) : gmap Z User * result User :=
  match get_current_admin current_user with
  | HTTPException status_code detail => (db, HTTPException status_code detail)
  | MultipleResultsFound => (db, MultipleResultsFound)
  | Returns current_user =>
      match db !! user_id with
      | None => (db, HTTPException HTTP_404_NOT_FOUND (not_found user_id))
      | Some user =>
          let user := set_is_active true user in
          let user := set_updated_at utcnow user in
          (<[user_id := user]> db, Returns user)
      end
  end.

Definition deactivate_user (user_id : Z) (db : gmap Z User)
    (current_user : User) (utcnow : Z) : gmap Z User * result User :=
  match get_current_admin current_user with
  | HTTPException status_code detail => (db, HTTPException status_code detail)
  | MultipleResultsFound => (db, MultipleResultsFound)
  | Returns current_user =>
      match db !! user_id with
      | None => (db, HTTPException HTTP_404_NOT_FOUND (not_found user_id))
      | Some user =>
          let user := set_is_active false user in
          let user := set_updated_at utcnow user in
          (<[user_id := user]> db, Returns user)
      end
  end.

End UserEndpoints.

(** *** The routes *)

(** The routes of [router], in the order of their declaration.  A request
    goes to the first route whose path pattern matches the path and whose
    method is the request's; a path parameter matches any segment that is
    not empty, whatever the type the endpoint declares for it. *)
Module Router.

Inductive endpoint :=
| health_check
| create_user
| list_users
| get_user
| update_user
| delete_user
| batch_create_users
| upload_avatar
| activate_user
| deactivate_user
| get_user_stats.

(** A piece of a path pattern: plain text or a parameter [{name}]. *)
Inductive segment :=
| Lit (text : string)
| Param (name : string).

Record route := mkRoute {
  method : string;
  path : list segment;
  endpoint_of : endpoint;
}.

(** [APIRouter(prefix="/api")] *)
Definition prefix : list segment := [Lit "api"].

Definition routes : list route :=
  [ mkRoute "GET" [Lit "health"] health_check;
    mkRoute "POST" [Lit "users"] create_user;
    mkRoute "GET" [Lit "users"] list_users;
    mkRoute "GET" [Lit "users"; Param "user_id"] get_user;
    mkRoute "PATCH" [Lit "users"; Param "user_id"] update_user;
    mkRoute "DELETE" [Lit "users"; Param "user_id"] delete_user;
    mkRoute "POST" [Lit "users"; Lit "batch"] batch_create_users;
    mkRoute "POST" [Lit "users"; Param "user_id"; Lit "avatar"] upload_avatar;
    mkRoute "POST" [Lit "users"; Param "user_id"; Lit "activate"] activate_user;
    mkRoute "POST" [Lit "users"; Param "user_id"; Lit "deactivate"] deactivate_user;
    mkRoute "GET" [Lit "users"; Lit "stats"] get_user_stats ].

Fixpoint segments_match (pattern : list segment) (segments : list string) : bool :=
  match pattern, segments with
  | [], [] => true
  | Lit text :: pattern', s :: segments' =>
      String.eqb s text && segments_match pattern' segments'
  | Param _ :: pattern', s :: segments' =>
      negb (String.eqb s EmptyString) && segments_match pattern' segments'
  | _, _ => false
  end.

(** The whole of [request_path] has the form of the pattern. *)
Definition fullmatch (pattern : list segment) (request_path : string) : bool :=
  match Py.split request_path "/" with
  | first :: segments =>
      String.eqb first EmptyString && segments_match pattern segments
  | [] => false
  end.

Definition without_final_newline (s : string) : option string :=
  match rev (Py.chars s) with
  | c :: before =>
      if Ascii.eqb c Re.newline then Some (Py.of_chars (rev before)) else None
  | [] => None
  end.

(** [path_regex.match(request_path)]: the compiled pattern ends in [$], which
    also matches before a newline that ends the path. *)
Definition path_regex_match (pattern : list segment) (request_path : string) : bool :=
  fullmatch pattern request_path
  || match without_final_newline request_path with
     | Some before => fullmatch pattern before
     | None => false
     end.

(** [Route.matches]: the path and the method; the path alone. *)
Definition full (request_method request_path : string) (r : route) : bool :=
  path_regex_match (prefix ++ path r) request_path
  && String.eqb request_method (method r).

Definition partial (request_path : string) (r : route) : bool :=
  path_regex_match (prefix ++ path r) request_path.

Inductive outcome :=
| Handled (e : endpoint)
| MethodNotAllowed
| NotFound.

Definition dispatch (request_method request_path : string) : outcome :=
  match find (full request_method request_path) routes with
  | Some r => Handled (endpoint_of r)
  | None =>
      if existsb (partial request_path) routes then MethodNotAllowed else NotFound
  end.

End Router.

(** * The vocabulary of the statements *)

Section ErrorEnvelopeTerms.
Import Http Pydantic PydanticModels ErrorHandling.

(** The entry of [details] that [format_validation_error] makes of an error. *)
Definition detail_of (e : error_dict) : ErrorDetail :=
  mkErrorDetail (Py.join "." (map Py.str_loc (loc e))) (msg e).

(** The entry of [details] that [validation_exception_handler] makes. *)
Definition json_detail_of (e : error_dict) : json :=
  JDict [("field", JStr (Py.join "." (map Py.str_loc (loc e))));
         ("message", JStr (msg e));
         ("type", JStr (type e))].

End ErrorEnvelopeTerms.

Section SecurityHeadersTerms.
Import Http SecurityHeadersMiddleware.

Definition sample_request : Request :=
  {| url_path := "/users"; client := Some "10.0.0.1";
     req_headers := ∅; state_user_id := None |}.

Definition sample_response : Response :=
  {| status_code := 200; content := JStr "ok";
     headers := {["x-frame-options" := "SAMEORIGIN"]} ∪ {["etag" := "abc"]} |}.

End SecurityHeadersTerms.

Section AuthenticationTerms.
Import Http AuthenticationMiddleware.

(** The request lacks an [Authorization] header that starts with "Bearer ". *)
Definition lacks_bearer (request : Request) : Prop :=
  forall h, getheader (req_headers request) "Authorization" = Some h ->
            Py.startswith h "Bearer " = false.

Definition is_public (request : Request) : bool :=
  existsb (fun path => Py.startswith (url_path request) path) public_paths.

Definition public_request : Request :=
  {| url_path := "/docs/oauth2-redirect"; client := None;
     req_headers := ∅; state_user_id := None |}.

Definition basic_auth_request : Request :=
  {| url_path := "/users"; client := Some "10.0.0.1";
     req_headers := {["authorization" := "Basic dXNlcjpwdw=="]};
     state_user_id := None |}.

End AuthenticationTerms.

Section PasswordConfirmationTerms.
Import Pydantic PydanticModels.

(** A validator that hands back the value it was given when it passes. *)
Definition keeps {V : Type} (f : @validator V) : Prop :=
  forall v values v', f v values = Pass v' -> v' = v.

End PasswordConfirmationTerms.

Section RateLimitingTerms.
Import Http RateLimitMiddleware.

(** The timestamps on record for a client. *)
Definition stored (self : t) (c : string) : list Z := getitem (requests self) c.

(** Whether an event counts as a forwarded, rate-limited request of [c]. *)
Definition counts (c : string) (e : event) : Prop :=
  client_id (ev_request e) = c
  /\ is_health (ev_request e) = false
  /\ reaches_inner (ev_action e) = true.

Definition health_request : Request :=
  {| url_path := "/health"; client := Some "10.0.0.1";
     req_headers := ∅; state_user_id := None |}.

(** What an event of the log can be for a request that is not a health
    check: the request went on to the inner handler, or it was answered
    with status 429. *)
Definition forwarded_or_429 (e : event) : Prop :=
  ev_action e = CallNext (ev_request e) id
  \/ exists response, ev_action e = Return response /\ status_code response = 429.

(** The reading of C2 as it is stated: after [dispatch], an entry other
    than the new one is on record for the client exactly when it was on
    record before and is not older than one minute. *)
Definition drops_exactly_the_older (self : t) (request : Request) (now : Z) : Prop :=
  forall s, s <> now ->
    (s ∈ stored (fst (dispatch self request now)) (client_id request)
     <-> s ∈ stored self (client_id request) /\ ~ (minute < now - s)).

End RateLimitingTerms.

Section RegexFactsTerms.
Local Open Scope nat_scope.
Import Re.

(** [r] matches at [st]. *)
Definition accepts (r : regex) (st : state) : Prop := rem r st <> [].

(** Repetition, as a relation: stop once [lo] rounds are done, or do a
    round that consumes something and go on. *)
Inductive reps (body : state -> list state)
  : nat -> option nat -> state -> state -> Prop :=
| reps_stop hi st : reps body O hi st st
| reps_more lo hi st st1 st' :
    hi <> Some O ->
    In st1 (body st) ->
    shorter st st1 = true ->
    reps body (Nat.pred lo) (option_map Nat.pred hi) st1 st' ->
    reps body lo hi st st'.

End RegexFactsTerms.

Section PasswordsTerms.
Local Open Scope nat_scope.
Import Re PydanticModels.

(** A password of the accepted shape. *)
Definition strong_password (s : string) : Prop :=
  8 <= String.length s <= 128
  /\ Forall (fun c => password_char c = true) (Py.chars s)
  /\ Exists (fun c => Py.is_lower c = true) (Py.chars s)
  /\ Exists (fun c => Py.is_upper c = true) (Py.chars s)
  /\ Exists (fun c => Py.is_digit c = true) (Py.chars s)
  /\ Exists (fun c => special c = true) (Py.chars s).

(** The conditions C4 names: the length and one character of each kind. *)
Definition long_and_mixed (s : string) : Prop :=
  8 <= String.length s <= 128
  /\ Exists (fun c => Py.is_lower c = true) (Py.chars s)
  /\ Exists (fun c => Py.is_upper c = true) (Py.chars s)
  /\ Exists (fun c => Py.is_digit c = true) (Py.chars s)
  /\ Exists (fun c => special c = true) (Py.chars s).

Definition seven_bit (s : string) : Prop :=
  Forall (fun c => Py.is_ascii c = true) (Py.chars s).

Definition ends_with_newline (s : string) : Prop :=
  last (Py.chars s) = Some newline.

End PasswordsTerms.

Section SubstitutionTerms.
Local Open Scope nat_scope.
Import Re.

(** The length of the longest prefix made of characters of [q]. *)
Fixpoint run_len (q : ascii -> bool) (s : list ascii) : nat :=
  match s with
  | c :: s' => if q c then S (run_len q s') else 0
  | [] => 0
  end.

(** Replacing each maximal run of characters of [q] by one [sep]. *)
Fixpoint squeeze (q : ascii -> bool) (sep : list ascii) (in_run : bool)
    (s : list ascii) : list ascii :=
  match s with
  | [] => []
  | c :: s' =>
      if q c then
        (if in_run then squeeze q sep true s' else sep ++ squeeze q sep true s')
      else c :: squeeze q sep false s'
  end.

End SubstitutionTerms.

Section SlugsTerms.
Local Open Scope nat_scope.
Import Re PydanticModels.

(** Shape of a text made of slug characters and hyphens, no two hyphens
    in a row; [after_hyphen] tells whether the character before was a hyphen. *)
Fixpoint spaced (after_hyphen : bool) (l : list ascii) : bool :=
  match l with
  | [] => true
  | c :: l' =>
      if slug_char c then spaced false l'
      else if hyphen c then negb after_hyphen && spaced true l'
      else false
  end.

(** Acceptance by the slug pattern, read as an automaton; [after_word] tells
    whether the character before was a slug character. *)
Fixpoint slug_shaped (after_word : bool) (l : list ascii) : bool :=
  match l with
  | [] => after_word
  | c :: l' =>
      if slug_char c then slug_shaped true l'
      else if hyphen c then after_word && slug_shaped false l'
      else false
  end.

(** The group [(?:-[a-z0-9]+)] of the slug pattern. *)
Definition hyphen_word : regex := Seq (Cls hyphen) (plus (Cls slug_char)).


End SlugsTerms.

Section RateLimitingMoreTerms.
Import Http RateLimitMiddleware.

(** The requests that matter for client [c]: its own, health checks apart. *)
Definition concerns (c : string) (a : Request * Z) : Prop :=
  client_id (fst a) = c /\ is_health (fst a) = false.

End RateLimitingMoreTerms.

Section AuthenticationMoreTerms.
Import Http AuthenticationMiddleware.

(** [auth_header.split(" ")[1]] *)
Definition bearer_token (auth_header : string) : string :=
  nth 1 (Py.split auth_header " ") EmptyString.

Definition has_space (s : string) : bool :=
  existsb (fun c => Ascii.eqb c " ") (Py.chars s).

Definition bearer_request : Request :=
  {| url_path := "/users"; client := Some "10.0.0.1";
     req_headers := {["authorization" := "Bearer abc.def.ghi"]};
     state_user_id := None |}.

Definition health_lookalike : Request :=
  {| url_path := "/healthcare/records"; client := None;
     req_headers := ∅; state_user_id := None |}.

End AuthenticationMoreTerms.

Section RegexMoreTerms.
Local Open Scope nat_scope.
Import Re.

(** The text without the newline that may end it. *)
Definition chomp (l : list ascii) : list ascii :=
  match last l with
  | Some c => if Ascii.eqb c newline then removelast l else l
  | None => l
  end.

End RegexMoreTerms.

Section SlugPatternTerms.
Local Open Scope nat_scope.
Import Re PydanticModels.

(** A regular expression without anchors and look-aheads. *)
Fixpoint anchor_free (r : regex) : bool :=
  match r with
  | Cls _ => true
  | Seq r1 r2 => anchor_free r1 && anchor_free r2
  | Rep r _ _ => anchor_free r
  | Bol | Eol | Look _ => false
  end.

(** A slug, said without a pattern: not empty, made of [a-z0-9] and
    hyphens, no hyphen first or last, no two hyphens in a row. *)
Definition slug_text (l : list ascii) : Prop :=
  l <> []
  /\ Forall (fun c => slug_char c || hyphen c = true) l
  /\ head l <> Some "-"%char
  /\ last l <> Some "-"%char
  /\ (forall k, l !! k = Some "-"%char -> l !! S k <> Some "-"%char).

End SlugPatternTerms.

Section UserEndpointsTerms.
Import UserEndpoints.

(** No two rows share an email or a username. *)
Definition unique_users (db : gmap Z User) : Prop :=
  forall i j u v,
    db !! i = Some u -> db !! j = Some v ->
    email u = email v \/ username u = username v -> i = j.

(** Some row has this email, this username. *)
Definition email_taken (e : string) (db : gmap Z User) : Prop :=
  exists i u, db !! i = Some u /\ email u = e.

Definition username_taken (n : string) (db : gmap Z User) : Prop :=
  exists i u, db !! i = Some u /\ username u = n.

(** The attributes that neither a profile update nor an activation may touch. *)
Definition same_account (u v : User) : Prop :=
  id v = id u /\ email v = email u /\ username v = username u
  /\ hashed_password v = hashed_password u /\ role v = role u
  /\ avatar_url v = avatar_url u.

Definition same_profile (u v : User) : Prop :=
  first_name v = first_name u /\ last_name v = last_name u /\ bio v = bio u.

Definition alice : User :=
  mkUser 1 "alice@example.com" "alice" "$2b$12$abc" (Some "Alice") (Some "A")
         None USER true None 0.

Definition root_user : User :=
  mkUser 2 "root@example.com" "root" "$2b$12$xyz" (Some "Root") (Some "R")
         None ADMIN true None 0.

Definition sample_users : gmap Z User := <[2 := root_user]> (<[1 := alice]> ∅).

End UserEndpointsTerms.

Section PasswordFormsTerms.

(** A field that, when it is supplied, holds 7-bit text. *)
Definition seven_bit_field (field : option string) : Prop :=
  forall s, field = Some s -> seven_bit s.

End PasswordFormsTerms.

(** * Properties *)

(** ** Small facts used throughout *)

Lemma fold_left_snoc_map {A B : Type} (f : A -> B) (l : list A) (acc : list B) :
  fold_left (fun acc x => acc ++ [f x]) l acc = acc ++ map f l.
Proof.
  revert acc. induction l as [|x l IH]; intros acc; simpl.
  - by rewrite app_nil_r.
  - rewrite IH. by rewrite <- app_assoc.
Qed.

(** ** Pagination *)

Section Pagination.
Import PydanticModels PydanticModels.PaginatedResponse.

Lemma construct_fields data_ok t p l g r :
  construct data_ok t p l g = Some r ->
  t = Some (total r) /\ p = Some (page r) /\ l = Some (limit r)
  /\ pages r = calculate_pages (default 0 g)
                 (<["limit" := limit r]> (<["page" := page r]> (<["total" := total r]> ∅))).
Proof.
  unfold construct, validate, Pydantic.field, Pydantic.finish.
  destruct data_ok, t as [t|], p as [p|], l as [l|], g as [g|]; simpl;
    intros H; try discriminate H.
  injection H as <-. simpl.
  rewrite !lookup_insert_ne by done. rewrite !lookup_insert_eq.
  rewrite !lookup_insert_ne by done. rewrite !lookup_insert_eq.
  rewrite !lookup_insert_ne by done. rewrite !lookup_insert_eq.
  simpl. repeat split; reflexivity.
Qed.

Lemma calculate_pages_values v (t p l : Z) :
  calculate_pages v (<["limit" := l]> (<["page" := p]> (<["total" := t]> ∅)))
  = if 0 <? l then (t + l - 1) / l else 0.
Proof.
  unfold calculate_pages.
  rewrite lookup_insert_eq.
  rewrite !lookup_insert_ne by done. rewrite lookup_insert_eq. reflexivity.
Qed.

(** C10.  A [PaginatedResponse] that was built with a non-negative [total]
    carries in [pages] the ceiling of [total / limit] when [limit] is
    positive (the least [n] with [total <= n * limit]) and [0] when [limit]
    is not positive, whatever value was supplied for [pages]; for every
    [limit >= 1] this is the number [list_users] computes. *)
Theorem paginated_response_pages :
  forall data_ok t p l g r,
    construct data_ok t p l g = Some r ->
    0 <= total r ->
    t = Some (total r) /\ l = Some (limit r)
    /\ (0 < limit r ->
          (pages r - 1) * limit r < total r /\ total r <= pages r * limit r)
    /\ (limit r <= 0 -> pages r = 0)
    /\ (1 <= limit r ->
          pages r = EndpointExamples.list_users_pages (total r) (limit r)).
Proof.
  intros data_ok t p l g r Hc Htot.
  destruct (construct_fields _ _ _ _ _ _ Hc) as (Ht & _ & Hl & Hp).
  rewrite calculate_pages_values in Hp.
  split; [exact Ht|]. split; [exact Hl|].
  unfold EndpointExamples.list_users_pages.
  repeat split.
  - rewrite Hp. destruct (Z.ltb_spec 0 (limit r)); [|lia].
    pose proof (Z.div_mod (total r + limit r - 1) (limit r)) as E.
    pose proof (Z.mod_pos_bound (total r + limit r - 1) (limit r)) as B.
    nia.
  - rewrite Hp. destruct (Z.ltb_spec 0 (limit r)); [|lia].
    pose proof (Z.div_mod (total r + limit r - 1) (limit r)) as E.
    pose proof (Z.mod_pos_bound (total r + limit r - 1) (limit r)) as B.
    nia.
  - intros Hle. rewrite Hp. destruct (Z.ltb_spec 0 (limit r)); [lia|reflexivity].
  - intros Hle. rewrite Hp. destruct (Z.ltb_spec 0 (limit r)); [reflexivity|lia].
Qed.

Lemma paginated_response_pages_witness :
  let r := {| total := 41; page := 1; limit := 20; pages := 3 |} in
  Some 41 = Some (total r) /\ Some 20 = Some (limit r)
  /\ (0 < limit r ->
        (pages r - 1) * limit r < total r /\ total r <= pages r * limit r)
  /\ (limit r <= 0 -> pages r = 0)
  /\ (1 <= limit r ->
        pages r = EndpointExamples.list_users_pages (total r) (limit r)).
Proof.
  intros r.
  apply (paginated_response_pages true (Some 41) (Some 1) (Some 20) (Some 999) r).
  - vm_compute. reflexivity.
  - simpl. lia.
Defined.

End Pagination.

(** ** The validation error envelope *)

Section ErrorEnvelope.
Import Http Pydantic PydanticModels ErrorHandling.

(** C6.  For every list of validation errors, the formatter yields the
    envelope with [error] equal to "Validation failed" and a [details] list
    that has one entry per error, in order, whose [field] is the location
    path joined with a dot; the exception handler returns the same envelope
    as a JSON body with HTTP status 400. *)
Theorem validation_error_envelope :
  forall (errors : list error_dict) (timestamp : string),
    error (format_validation_error errors) = "Validation failed"
    /\ details (format_validation_error errors) = Some (map detail_of errors)
    /\ length (map detail_of errors) = length errors
    /\ (forall i e, errors !! i = Some e ->
          exists d, map detail_of errors !! i = Some d
                    /\ field d = Py.join "." (map Py.str_loc (loc e)))
    /\ status_code (validation_exception_handler errors timestamp) = 400
    /\ content (validation_exception_handler errors timestamp)
       = JDict [("error", JStr "Validation failed");
                ("details", JList (map json_detail_of errors));
                ("timestamp", JStr timestamp)].
Proof.
  intros errors timestamp.
  unfold format_validation_error, validation_exception_handler, field_of; simpl.
  rewrite (fold_left_snoc_map detail_of), (fold_left_snoc_map json_detail_of).
  simpl. repeat split.
  - apply length_map.
  - intros i e Hi. exists (detail_of e). split; [|reflexivity].
    change (map detail_of errors) with (detail_of <$> errors).
    by rewrite list_lookup_fmap, Hi.
Qed.

Lemma validation_error_envelope_witness :
  exists d,
    map detail_of [mkError [Py.LocName "body"; Py.LocName "tags"; Py.LocIndex 2]
                           "bad tag" "value_error"] !! 0%nat = Some d
    /\ field d = "body.tags.2".
Proof.
  destruct (validation_error_envelope
              [mkError [Py.LocName "body"; Py.LocName "tags"; Py.LocIndex 2]
                       "bad tag" "value_error"] "2024-01-01T00:00:00")
    as (_ & _ & _ & H & _).
  destruct (H 0%nat _ eq_refl) as (d & Hd & Hf).
  exists d. split; [exact Hd | exact Hf].
Defined.

End ErrorEnvelope.

(** ** Security headers *)

Section SecurityHeaders.
Import Http SecurityHeadersMiddleware.

Lemma add_security_headers_frame response :
  status_code (add_security_headers response) = status_code response
  /\ content (add_security_headers response) = content response.
Proof. split; reflexivity. Qed.

Lemma add_security_headers_lookup response name :
  headers (add_security_headers response) !! name
  = match list_find (fun kv => fst kv = name) security_headers with
    | Some (_, kv) => Some (snd kv)
    | None => headers response !! name
    end.
Proof.
  unfold add_security_headers, with_header, setheader; simpl.
  change (Py.lower "X-Content-Type-Options") with "x-content-type-options".
  change (Py.lower "X-Frame-Options") with "x-frame-options".
  change (Py.lower "X-XSS-Protection") with "x-xss-protection".
  change (Py.lower "Strict-Transport-Security") with "strict-transport-security".
  change (Py.lower "Referrer-Policy") with "referrer-policy".
  repeat (case_decide; simplify_eq/=;
          [ try (rewrite lookup_insert_eq; reflexivity);
            repeat (rewrite lookup_insert_ne by done);
            rewrite lookup_insert_eq; reflexivity | ]).
  by rewrite !lookup_insert_ne by done.
Qed.

(** C8.  For every request, [dispatch] passes the request on to the inner
    handler and, when the inner handler returns a response, returns that
    response with the five security headers set to their fixed values;
    status code, body and every other header are those of the inner
    response.  An exception of the inner handler propagates. *)
Theorem security_headers_frame :
  forall (request : Request) (call_next : Request -> Py.result Response),
    (exists after, dispatch request = CallNext request after)
    /\ (forall response, call_next request = Py.Ok response ->
          exists r, perform call_next (dispatch request) = Py.Ok r
            /\ status_code r = status_code response
            /\ content r = content response
            /\ getheader (headers r) "X-Content-Type-Options" = Some "nosniff"
            /\ getheader (headers r) "X-Frame-Options" = Some "DENY"
            /\ getheader (headers r) "X-XSS-Protection" = Some "1; mode=block"
            /\ getheader (headers r) "Strict-Transport-Security"
               = Some "max-age=31536000; includeSubDomains"
            /\ getheader (headers r) "Referrer-Policy"
               = Some "strict-origin-when-cross-origin"
            /\ (forall name,
                  Py.lower name ∉ map fst security_headers ->
                  getheader (headers r) name = getheader (headers response) name))
    /\ (forall e, call_next request = Py.Raise e ->
          perform call_next (dispatch request) = Py.Raise e).
Proof.
  intros request call_next. split; [by eexists|]. split.
  - intros response Hr. exists (add_security_headers response).
    unfold dispatch, perform. rewrite Hr.
    split; [reflexivity|]. split; [reflexivity|]. split; [reflexivity|].
    unfold getheader.
    repeat (split; [rewrite add_security_headers_lookup; reflexivity|]).
    intros name Hn. rewrite add_security_headers_lookup.
    destruct (list_find _ _) as [[i kv]|] eqn:E; [|reflexivity].
    apply list_find_Some in E as (Hi & Hk & _).
    exfalso. apply Hn. rewrite <- Hk.
    apply list_elem_of_In, in_map, list_elem_of_In.
    by eapply list_elem_of_lookup_2.
  - intros e He. unfold dispatch, perform. by rewrite He.
Qed.

Lemma security_headers_frame_witness :
  exists r, perform (fun _ => Py.Ok sample_response) (dispatch sample_request) = Py.Ok r
    /\ status_code r = 200
    /\ getheader (headers r) "X-Frame-Options" = Some "DENY"
    /\ getheader (headers r) "ETag" = Some "abc".
Proof.
  destruct (security_headers_frame sample_request (fun _ => Py.Ok sample_response))
    as (_ & H & _).
  destruct (H sample_response eq_refl)
    as (r & Hr & Hs & _ & _ & Hf & _ & _ & _ & Ho).
  exists r. split; [exact Hr|]. split; [exact Hs|]. split; [exact Hf|].
  rewrite (Ho "ETag"); [vm_compute; reflexivity|].
  vm_compute. intros Hin.
  repeat (apply elem_of_cons in Hin as [Hin|Hin]; [discriminate Hin|]).
  by apply elem_of_nil in Hin.
Defined.

End SecurityHeaders.

(** ** Authentication *)

Section Authentication.
Import Http AuthenticationMiddleware.

Lemma no_bearer_lacks request :
  lacks_bearer request ->
  no_bearer (getheader (req_headers request) "Authorization") = true.
Proof.
  unfold lacks_bearer, no_bearer. intros H.
  destruct (getheader _ _) as [h|]; [|reflexivity].
  rewrite (H h eq_refl). apply orb_true_r.
Qed.

(** C7.  A request whose path starts with one of the public paths is passed
    to the inner handler as it is, whatever its headers and whatever the token
    verifier would say; any other request that lacks an [Authorization]
    header starting with "Bearer " is answered with status 401, the body
    [{"error": "Authentication required"}] and the header
    [WWW-Authenticate: Bearer], and the inner handler is not reached. *)
Theorem authentication_dispatch :
  forall (verify_token : string -> Py.result Z) (request : Request),
    (is_public request = true ->
       dispatch verify_token request = CallNext request id)
    /\ (is_public request = false -> lacks_bearer request ->
          exists response,
            dispatch verify_token request = Return response
            /\ reaches_inner (dispatch verify_token request) = false
            /\ status_code response = 401
            /\ content response = JDict [("error", JStr "Authentication required")]
            /\ getheader (headers response) "WWW-Authenticate" = Some "Bearer").
Proof.
  intros verify_token request. unfold dispatch, is_public. split.
  - intros ->. reflexivity.
  - intros -> Hl. rewrite (no_bearer_lacks _ Hl).
    eexists. split; [reflexivity|]. repeat split.
Qed.

Lemma authentication_dispatch_witness :
  dispatch (fun _ => Py.Ok 7) public_request = CallNext public_request id
  /\ exists response,
       dispatch (fun _ => Py.Ok 7) basic_auth_request = Return response
       /\ reaches_inner (dispatch (fun _ => Py.Ok 7) basic_auth_request) = false
       /\ status_code response = 401
       /\ content response = JDict [("error", JStr "Authentication required")]
       /\ getheader (headers response) "WWW-Authenticate" = Some "Bearer".
Proof.
  split.
  - apply (proj1 (authentication_dispatch (fun _ => Py.Ok 7) public_request)).
    reflexivity.
  - apply (proj2 (authentication_dispatch (fun _ => Py.Ok 7) basic_auth_request)).
    + reflexivity.
    + intros h Hh. vm_compute in Hh. injection Hh as <-. reflexivity.
Defined.

End Authentication.

(** ** Password confirmation *)

Section PasswordConfirmation.
Import Pydantic PydanticModels.

Lemma validate_password_cases v :
  validate_password v = Py.Ok v \/ exists m, validate_password v = Py.Raise (Py.ValueError m).
Proof.
  unfold validate_password. destruct (negb _); [right; by eexists | by left].
Qed.

Lemma keeps_min_length n : keeps (min_length n).
Proof.
  intros v values v'. unfold min_length.
  destruct (_ <? _)%nat; [discriminate | by intros [= <-]].
Qed.

Lemma keeps_max_length n : keeps (max_length n).
Proof.
  intros v values v'. unfold max_length.
  destruct (_ <? _)%nat; [discriminate | by intros [= <-]].
Qed.

Lemma keeps_validate_password : keeps (plain validate_password).
Proof.
  intros v values v'. unfold plain.
  destruct (validate_password_cases v) as [-> | [m ->]]; simpl;
    [by intros [= <-] | discriminate].
Qed.

Lemma apply_validators_keeps {V : Type} (vs : list (@validator V)) v values v' :
  Forall keeps vs -> apply_validators vs v values = Pass v' -> v' = v.
Proof.
  intros Hk. revert v. induction Hk as [|f vs Hf _ IH]; intros v; simpl.
  - by intros [= <-].
  - destruct (f v values) as [w|] eqn:E; [|discriminate].
    intros H. apply IH in H. apply Hf in E. congruence.
Qed.

Lemma password_validators_keep :
  Forall keeps [min_length 8; max_length 128; plain validate_password].
Proof.
  repeat constructor;
    auto using keeps_min_length, keeps_max_length, keeps_validate_password.
Qed.

(** No error after a field: there was none before, and the field was
    supplied, passed its validators and is entered in [values]. *)
Lemma field_ok {V : Type} name (vs : list (@validator V)) raw st :
  snd (Pydantic.field name vs raw st) = [] ->
  snd st = []
  /\ exists v v', raw = Some v
       /\ apply_validators vs v (fst st) = Pass v'
       /\ fst (Pydantic.field name vs raw st) = <[name := v']> (fst st).
Proof.
  unfold Pydantic.field. destruct raw as [v|]; simpl.
  - destruct (apply_validators vs v (fst st)) as [v'|f] eqn:E; simpl.
    + intros H. split; [exact H|]. by exists v, v'.
    + intros H. by destruct (snd st).
  - intros H. by destruct (snd st).
Qed.

Lemma root_ok {V : Type} rv (st : @state V) :
  snd (root rv st) = [] ->
  snd st = [] /\ rv (fst st) = Py.Ok (fst (root rv st)).
Proof.
  unfold root. destruct (rv (fst st)) as [values|e]; simpl.
  - by intros H.
  - intros H. by destruct (snd st).
Qed.

Lemma finish_valid {V : Type} (st : @state V) values :
  finish st = Valid values -> snd st = [] /\ values = fst st.
Proof.
  unfold finish. destruct (snd st); [|discriminate].
  intros H. by injection H as <-.
Qed.

Lemma finish_cases {V : Type} (st : @state V) :
  (exists values, finish st = Valid values)
  \/ (exists errors, finish st = ValidationError errors /\ errors <> []).
Proof.
  unfold finish. destruct (snd st); [left|right]; by eexists.
Qed.

Lemma user_registration_valid i values :
  UserRegistration.validate i = Valid values ->
  UserRegistration.password i = UserRegistration.confirm_password i
  /\ is_Some (UserRegistration.password i)
  /\ values !! "password" = UserRegistration.password i
  /\ values !! "confirm_password" = UserRegistration.confirm_password i.
Proof.
  unfold UserRegistration.validate.
  change (plain UserRegistration.password_strength) with (plain validate_password).
  intros H. apply finish_valid in H as [He ->].
  apply root_ok in He as [He Hr]. revert Hr.
  apply field_ok in He as (He & w & w' & Hw & Hw' & ->).
  apply field_ok in He as (_ & v & v' & Hv & Hv' & ->).
  apply (apply_validators_keeps _ _ _ _ password_validators_keep) in Hv' as ->.
  simpl in Hw'. injection Hw' as <-. simpl fst.
  unfold UserRegistration.passwords_match.
  rewrite lookup_insert_eq.
  rewrite lookup_insert_ne by done. rewrite lookup_insert_eq.
  case_decide as Hd; [discriminate|]. intros [= <-].
  rewrite Hv, Hw. split; [by rewrite Hd|]. split; [by eexists|].
  rewrite lookup_insert_eq.
  rewrite lookup_insert_ne by done. by rewrite lookup_insert_eq.
Qed.

Lemma password_reset_valid i values :
  PasswordReset.validate i = Valid values ->
  PasswordReset.password i = PasswordReset.confirm_password i
  /\ is_Some (PasswordReset.password i)
  /\ values !! "password" = PasswordReset.password i
  /\ values !! "confirm_password" = PasswordReset.confirm_password i.
Proof.
  unfold PasswordReset.validate.
  change (plain PasswordReset.password_strength) with (plain validate_password).
  intros H. apply finish_valid in H as [He ->].
  apply root_ok in He as [He Hr]. revert Hr.
  apply field_ok in He as (He & w & w' & Hw & Hw' & ->).
  apply field_ok in He as (He & v & v' & Hv & Hv' & ->).
  apply field_ok in He as (_ & t & t' & Ht & Ht' & ->).
  apply (apply_validators_keeps _ _ _ _ password_validators_keep) in Hv' as ->.
  simpl in Hw'. injection Hw' as <-. simpl fst.
  unfold PasswordReset.passwords_match.
  rewrite lookup_insert_eq.
  rewrite lookup_insert_ne by done. rewrite lookup_insert_eq.
  case_decide as Hd; [discriminate|]. intros [= <-].
  rewrite Hv, Hw. split; [by rewrite Hd|]. split; [by eexists|].
  rewrite lookup_insert_eq.
  rewrite lookup_insert_ne by done. by rewrite lookup_insert_eq.
Qed.

Lemma password_change_valid i values :
  PasswordChange.validate i = Valid values ->
  PasswordChange.new_password i = PasswordChange.confirm_password i
  /\ is_Some (PasswordChange.new_password i)
  /\ PasswordChange.new_password i <> PasswordChange.current_password i
  /\ values !! "new_password" = PasswordChange.new_password i
  /\ values !! "confirm_password" = PasswordChange.confirm_password i.
Proof.
  unfold PasswordChange.validate.
  change (plain PasswordChange.password_strength) with (plain validate_password).
  intros H. apply finish_valid in H as [He ->].
  apply root_ok in He as [He Hr]. revert Hr.
  apply field_ok in He as (He & w & w' & Hw & Hw' & ->).
  apply field_ok in He as (He & v & v' & Hv & Hv' & ->).
  apply field_ok in He as (_ & c & c' & Hc & Hc' & ->).
  apply (apply_validators_keeps _ _ _ _ password_validators_keep) in Hv' as ->.
  apply (apply_validators_keeps [min_length 1]) in Hc' as ->;
    [|repeat constructor; apply keeps_min_length].
  simpl in Hw'. injection Hw' as <-. simpl fst.
  unfold PasswordChange.passwords_match.
  rewrite lookup_insert_eq.
  rewrite (lookup_insert_ne _ "confirm_password" "new_password") by done.
  rewrite lookup_insert_eq.
  rewrite (lookup_insert_ne _ "confirm_password" "current_password") by done.
  rewrite (lookup_insert_ne _ "new_password" "current_password") by done.
  rewrite lookup_insert_eq.
  case_decide as Hd; [discriminate|]. case_decide as Hn; [discriminate|].
  intros [= <-].
  rewrite Hv, Hw, Hc. split; [by rewrite Hd|]. split; [by eexists|].
  split; [exact Hn|].
  rewrite lookup_insert_eq.
  rewrite lookup_insert_ne by done. by rewrite lookup_insert_eq.
Qed.

(** C5.  For [UserRegistration], [PasswordChange] and [PasswordReset] alike:
    when validation succeeds, the password field ([new_password] for
    [PasswordChange]) was supplied and is equal to [confirm_password], in the
    input and in the validated values; and every input in which the two differ
    is rejected with a validation error that lists at least one error. *)
Theorem passwords_must_match :
  (forall i,
     (forall values, UserRegistration.validate i = Valid values ->
        UserRegistration.password i = UserRegistration.confirm_password i
        /\ values !! "password" = values !! "confirm_password")
     /\ (UserRegistration.password i <> UserRegistration.confirm_password i ->
         exists errors, UserRegistration.validate i = ValidationError errors
                        /\ errors <> []))
  /\ (forall i,
     (forall values, PasswordChange.validate i = Valid values ->
        PasswordChange.new_password i = PasswordChange.confirm_password i
        /\ values !! "new_password" = values !! "confirm_password")
     /\ (PasswordChange.new_password i <> PasswordChange.confirm_password i ->
         exists errors, PasswordChange.validate i = ValidationError errors
                        /\ errors <> []))
  /\ (forall i,
     (forall values, PasswordReset.validate i = Valid values ->
        PasswordReset.password i = PasswordReset.confirm_password i
        /\ values !! "password" = values !! "confirm_password")
     /\ (PasswordReset.password i <> PasswordReset.confirm_password i ->
         exists errors, PasswordReset.validate i = ValidationError errors
                        /\ errors <> [])).
Proof.
  split; [|split]; intros i; split.
  - intros values H. apply user_registration_valid in H as (H1 & _ & H2 & H3).
    split; [exact H1 | congruence].
  - intros Hne. destruct (finish_cases
      (root UserRegistration.passwords_match
         (Pydantic.field "confirm_password" [] (UserRegistration.confirm_password i)
            (Pydantic.field "password"
               [min_length 8; max_length 128; plain UserRegistration.password_strength]
               (UserRegistration.password i) (∅, UserRegistration.other_errors i)))))
      as [[values H]|H]; [|exact H].
    apply user_registration_valid in H as (H1 & _). contradiction.
  - intros values H. apply password_change_valid in H as (H1 & _ & _ & H2 & H3).
    split; [exact H1 | congruence].
  - intros Hne. destruct (finish_cases
      (root PasswordChange.passwords_match
         (Pydantic.field "confirm_password" [] (PasswordChange.confirm_password i)
            (Pydantic.field "new_password"
               [min_length 8; max_length 128; plain PasswordChange.password_strength]
               (PasswordChange.new_password i)
               (Pydantic.field "current_password" [min_length 1]
                  (PasswordChange.current_password i) (∅, []))))))
      as [[values H]|H]; [|exact H].
    apply password_change_valid in H as (H1 & _). contradiction.
  - intros values H. apply password_reset_valid in H as (H1 & _ & H2 & H3).
    split; [exact H1 | congruence].
  - intros Hne. destruct (finish_cases
      (root PasswordReset.passwords_match
         (Pydantic.field "confirm_password" [] (PasswordReset.confirm_password i)
            (Pydantic.field "password"
               [min_length 8; max_length 128; plain PasswordReset.password_strength]
               (PasswordReset.password i)
               (Pydantic.field "token" [min_length 1]
                  (PasswordReset.token i) (∅, []))))))
      as [[values H]|H]; [|exact H].
    apply password_reset_valid in H as (H1 & _). contradiction.
Qed.

Lemma passwords_must_match_witness :
  (exists errors,
     UserRegistration.validate
       (UserRegistration.mkInput (Some "Abcdef1@") (Some "Abcdef1!") [])
     = ValidationError errors /\ errors <> [])
  /\ (exists errors,
     PasswordChange.validate
       (PasswordChange.mkInput (Some "Old") (Some "Abcdef1@") (Some "Abcdef1!"))
     = ValidationError errors /\ errors <> [])
  /\ (exists errors,
     PasswordReset.validate
       (PasswordReset.mkInput (Some "tok") (Some "Abcdef1@") None)
     = ValidationError errors /\ errors <> [])
  /\ Some "Abcdef1@" = Some "Abcdef1@".
Proof.
  destruct passwords_must_match as (H1 & H2 & H3).
  split; [|split; [|split]].
  - apply (proj2 (H1 (UserRegistration.mkInput (Some "Abcdef1@") (Some "Abcdef1!") []))).
    simpl. discriminate.
  - apply (proj2 (H2 (PasswordChange.mkInput (Some "Old") (Some "Abcdef1@") (Some "Abcdef1!")))).
    simpl. discriminate.
  - apply (proj2 (H3 (PasswordReset.mkInput (Some "tok") (Some "Abcdef1@") None))).
    simpl. discriminate.
  - assert (E : PasswordReset.validate
                  (PasswordReset.mkInput (Some "tok") (Some "Abcdef1@") (Some "Abcdef1@"))
                = Valid (<["confirm_password" := "Abcdef1@"]>
                           (<["password" := "Abcdef1@"]> (<["token" := "tok"]> ∅))))
      by (vm_compute; reflexivity).
    exact (proj1 (proj1 (H3 _) _ E)).
Defined.

End PasswordConfirmation.

(** ** Rate limiting *)

Section RateLimiting.
Import Http RateLimitMiddleware.

Lemma getitem_insert (d : gmap string (list Z)) k l k' :
  getitem (<[k := l]> d) k' = if decide (k = k') then l else getitem d k'.
Proof.
  unfold getitem. case_decide as E.
  - subst. by rewrite lookup_insert_eq.
  - by rewrite lookup_insert_ne.
Qed.

(** The three observable effects of one [dispatch]. *)
Lemma dispatch_rpm self request now :
  requests_per_minute (fst (dispatch self request now)) = requests_per_minute self.
Proof.
  unfold dispatch. destruct (String.eqb _ _); [reflexivity|].
  cbv zeta. simpl. destruct (_ <=? _); reflexivity.
Qed.

Lemma dispatch_action self request now :
  snd (dispatch self request now)
  = if is_health request then CallNext request id
    else if requests_per_minute self
            <=? Z.of_nat (length (clean now (stored self (client_id request))))
         then Return (too_many self)
         else CallNext request id.
Proof.
  unfold dispatch, is_health, stored. destruct (String.eqb _ _); [reflexivity|].
  cbv zeta. simpl. rewrite getitem_insert, decide_True by reflexivity.
  destruct (_ <=? _); reflexivity.
Qed.

Lemma dispatch_stored self request now c :
  stored (fst (dispatch self request now)) c
  = if is_health request then stored self c
    else if decide (client_id request = c) then
      let kept := clean now (stored self c) in
      if requests_per_minute self <=? Z.of_nat (length kept)
      then kept else kept ++ [now]
    else stored self c.
Proof.
  unfold dispatch, is_health, stored. destruct (String.eqb _ _); [reflexivity|].
  cbv zeta. simpl. rewrite getitem_insert, decide_True by reflexivity.
  destruct (_ <=? _) eqn:E; simpl.
  - rewrite getitem_insert. case_decide as D; [|reflexivity].
    subst c. by rewrite E.
  - rewrite !getitem_insert. case_decide as D; [|reflexivity].
    subst c. by rewrite E.
Qed.

Lemma run_snoc self arrivals a :
  run self (arrivals ++ [a]) = step (run self arrivals) a.
Proof. unfold run. by rewrite fold_left_app. Qed.

Lemma step_fst st a :
  fst (step st a) = fst (dispatch (fst st) (fst a) (snd a)).
Proof. unfold step. by destruct (dispatch _ _ _). Qed.

Lemma step_snd st a :
  snd (step st a)
  = snd st ++ [mkEvent (fst a) (snd a) (snd (dispatch (fst st) (fst a) (snd a)))].
Proof. unfold step. by destruct (dispatch _ _ _). Qed.

Lemma run_rpm rpm arrivals :
  requests_per_minute (fst (run (init rpm) arrivals)) = rpm.
Proof.
  induction arrivals as [|a arrivals IH] using rev_ind; [reflexivity|].
  by rewrite run_snoc, step_fst, dispatch_rpm.
Qed.

Lemma clean_length now l : (length (clean now l) <= length l)%nat.
Proof. apply length_filter. Qed.

Lemma filter_all_length {A : Type} (P : A -> Prop) `{!forall x, Decision (P x)}
    (l : list A) :
  (length l <= length (filter P l))%nat -> filter P l = l.
Proof.
  induction l as [|x l IH]; [reflexivity|].
  destruct (decide (P x)) as [Hx|Hx].
  - rewrite filter_cons_True by done. simpl. intros Hl. f_equal. apply IH. lia.
  - rewrite filter_cons_False by done. simpl. intros Hl.
    pose proof (length_filter P l). lia.
Qed.

(** The length bound kept by every sequential run. *)
Lemma stored_bounded rpm arrivals c :
  Z.of_nat (length (stored (fst (run (init rpm) arrivals)) c)) <= Z.max 0 rpm.
Proof.
  induction arrivals as [|a arrivals IH] using rev_ind.
  - unfold stored, getitem. simpl. rewrite lookup_empty. simpl. lia.
  - rewrite run_snoc, step_fst, dispatch_stored, run_rpm.
    destruct (is_health (fst a)); [exact IH|].
    case_decide as D; [|exact IH]. cbv zeta.
    pose proof (clean_length (snd a) (stored (fst (run (init rpm) arrivals)) c)).
    destruct (Z.leb_spec rpm
      (Z.of_nat (length (clean (snd a) (stored (fst (run (init rpm) arrivals)) c))))).
    + lia.
    + rewrite length_app. simpl. lia.
Qed.

(** Filtering twice, when the outer condition is the stronger one. *)
Lemma filter_filter_weaker {A : Type} (P Q : A -> Prop)
    `{!forall x, Decision (P x)} `{!forall x, Decision (Q x)} (l : list A) :
  (forall x, P x -> Q x) -> filter P (filter Q l) = filter P l.
Proof.
  intros HPQ. induction l as [|x l IH]; [reflexivity|].
  destruct (decide (Q x)) as [Hq|Hq].
  - rewrite (filter_cons_True Q) by done.
    destruct (decide (P x)) as [Hp|Hp].
    + rewrite !(filter_cons_True P) by done. by rewrite IH.
    + rewrite !(filter_cons_False P) by done. exact IH.
  - rewrite (filter_cons_False Q) by done.
    rewrite (filter_cons_False P) by (intros Hp; apply Hq, HPQ, Hp). exact IH.
Qed.

Lemma filter_length_weaker {A : Type} (P Q : A -> Prop)
    `{!forall x, Decision (P x)} `{!forall x, Decision (Q x)} (l : list A) :
  (forall x, P x -> Q x) -> (length (filter P l) <= length (filter Q l))%nat.
Proof.
  intros HPQ. rewrite <- (filter_filter_weaker P Q l HPQ). apply length_filter.
Qed.

Lemma nondecreasing_cons x l :
  nondecreasing (x :: l) = true ->
  nondecreasing l = true /\ Forall (fun y => x <= y) l.
Proof.
  revert x. induction l as [|y l IH]; intros x; simpl.
  - intros _. split; [reflexivity | constructor].
  - intros H. apply andb_true_iff in H as [Hxy Hl]. apply Z.leb_le in Hxy.
    split; [exact Hl|]. constructor; [exact Hxy|].
    destruct (IH y Hl) as [_ Hf].
    eapply Forall_impl; [exact Hf|]. simpl. intros z Hz. lia.
Qed.

Lemma nondecreasing_snoc l x :
  nondecreasing (l ++ [x]) = true ->
  nondecreasing l = true /\ Forall (fun y => y <= x) l.
Proof.
  induction l as [|y l IH]; intros H.
  - split; [reflexivity | constructor].
  - change ((y :: l) ++ [x]) with (y :: (l ++ [x])) in H.
    pose proof (nondecreasing_cons _ _ H) as [Hl Hy].
    destruct (IH Hl) as [Hl' Hf].
    split.
    + destruct l as [|z l]; [reflexivity|].
      simpl in H |- *. apply andb_true_iff in H as [Hyz _].
      rewrite Hyz. exact Hl'.
    + constructor; [|exact Hf].
      apply Forall_app in Hy as [_ Hx]. by inversion Hx.
Qed.

Lemma forwarded_limited_snoc c log e :
  forwarded_limited c (log ++ [e])
  = forwarded_limited c log ++ (if decide (counts c e) then [ev_now e] else []).
Proof.
  unfold forwarded_limited. rewrite filter_app, fmap_app. f_equal.
  unfold counts. case_decide as D.
  - by rewrite filter_cons_True by done.
  - by rewrite filter_cons_False by done.
Qed.

Lemma clean_then_recent now T l :
  now <= T ->
  filter (λ s, T - minute < s) (clean now l) = filter (λ s, T - minute < s) l.
Proof.
  intros H. unfold clean. cbv zeta.
  apply (filter_filter_weaker (λ s, T - minute < s) (λ s, now - minute < s)).
  intros x. lia.
Qed.

(** With a clock that does not go back, the store of a client and the log
    of its forwarded requests agree on everything younger than a minute. *)
Lemma stored_recent rpm arrivals c T :
  nondecreasing (map snd arrivals) = true ->
  Forall (fun x => x <= T) (map snd arrivals) ->
  filter (λ s, T - minute < s) (forwarded_limited c (snd (run (init rpm) arrivals)))
  = filter (λ s, T - minute < s) (stored (fst (run (init rpm) arrivals)) c).
Proof.
  revert T. induction arrivals as [|a arrivals IH] using rev_ind; intros T Hmono HT.
  - unfold stored, getitem. simpl. by rewrite lookup_empty.
  - rewrite map_app in Hmono, HT. simpl in Hmono, HT.
    apply nondecreasing_snoc in Hmono as [Hmono Hbefore].
    apply Forall_app in HT as [HT Hnow]. apply Forall_inv in Hnow.
    specialize (IH T Hmono HT).
    rewrite run_snoc, step_fst, step_snd, forwarded_limited_snoc.
    rewrite dispatch_stored, run_rpm. unfold counts. simpl.
    rewrite dispatch_action, run_rpm.
    destruct (is_health (fst a)) eqn:Hh.
    { rewrite decide_False by (intros (_ & ? & _); discriminate).
      by rewrite app_nil_r. }
    destruct (decide (client_id (fst a) = c)) as [Hc|Hc].
    2:{ rewrite decide_False by (intros (? & _); contradiction).
        by rewrite app_nil_r. }
    cbv zeta. rewrite Hc.
    destruct (rpm <=? _) eqn:Hfull.
    + rewrite decide_False by (intros (_ & _ & ?); discriminate).
      rewrite app_nil_r, clean_then_recent by exact Hnow. exact IH.
    + rewrite decide_True by done.
      rewrite !filter_app, clean_then_recent by exact Hnow. by rewrite IH.
Qed.

Lemma within_bound rpm arrivals c a :
  nondecreasing (map snd arrivals) = true ->
  Z.of_nat (length (within a (forwarded_limited c (snd (run (init rpm) arrivals)))))
  <= Z.max 0 rpm.
Proof.
  induction arrivals as [|x arrivals IH] using rev_ind; intros Hmono.
  - simpl. lia.
  - destruct (decide (a < snd x)) as [Hlt|Hge].
    + (* the new request is not in the window *)
      rewrite map_app in Hmono. apply nondecreasing_snoc in Hmono as [Hmono _].
      rewrite run_snoc, step_snd, forwarded_limited_snoc.
      unfold within. rewrite filter_app.
      replace (filter _ (if decide _ then _ else _)) with (@nil Z).
      * rewrite app_nil_r. exact (IH Hmono).
      * case_decide; [|reflexivity]. simpl.
        rewrite filter_cons_False by lia. reflexivity.
    + (* the window ends at or after the new request *)
      pose proof (stored_recent rpm (arrivals ++ [x]) c (snd x) Hmono) as E.
      rewrite map_app in Hmono. apply nondecreasing_snoc in Hmono as [_ Hbefore].
      assert (Forall (fun y => y <= snd x) (map snd (arrivals ++ [x]))) as HF.
      { rewrite map_app. apply Forall_app. split; [exact Hbefore|].
        constructor; [simpl; lia | constructor]. }
      specialize (E HF).
      pose proof (filter_length_weaker
        (λ s, a - minute < s ∧ s <= a) (λ s, snd x - minute < s)
        (forwarded_limited c (snd (run (init rpm) (arrivals ++ [x]))))) as L.
      unfold within. rewrite E in L.
      pose proof (length_filter (λ s, snd x - minute < s)
        (stored (fst (run (init rpm) (arrivals ++ [x]))) c)).
      pose proof (stored_bounded rpm (arrivals ++ [x]) c).
      assert (forall s, a - minute < s ∧ s <= a -> snd x - minute < s) as Imp
        by (intros s; lia).
      specialize (L Imp). lia.
Qed.

Lemma log_forwarded_or_429 rpm arrivals :
  Forall (fun e => is_health (ev_request e) = false -> forwarded_or_429 e)
         (snd (run (init rpm) arrivals)).
Proof.
  induction arrivals as [|a arrivals IH] using rev_ind; [constructor|].
  rewrite run_snoc, step_snd. apply Forall_app. split; [exact IH|].
  constructor; [|constructor]. simpl. intros Hh.
  unfold forwarded_or_429. simpl. rewrite dispatch_action, Hh.
  destruct (_ <=? _); [right | left; reflexivity].
  by eexists.
Qed.

(** C1, as the code has it.  Under sequential processing the list on record
    for a client never has more than [max 0 requests_per_minute] entries; and
    when the clock does not go back between requests, at most that many
    requests of the client, health checks apart, go on to the inner handler
    within any window of one minute that is open at its start (the instants
    [s] with [a - minute < s <= a]), every other one of them being answered
    with status 429.  Requests for [/health] are passed on without being
    counted or limited: whatever is on record, [dispatch] hands the request
    on as it is and leaves the record as it was. *)
Theorem rate_limit_window :
  forall (rpm : Z) (arrivals : list (Request * Z)) (c : string),
    Z.of_nat (length (stored (fst (run (init rpm) arrivals)) c)) <= Z.max 0 rpm
    /\ Forall (fun e => is_health (ev_request e) = false -> forwarded_or_429 e)
              (snd (run (init rpm) arrivals))
    /\ (nondecreasing (map snd arrivals) = true ->
        forall a,
          Z.of_nat (length (within a (forwarded_limited c
                                        (snd (run (init rpm) arrivals)))))
          <= Z.max 0 rpm)
    /\ (forall (self : t) (request : Request) (now : Z),
          url_path request = "/health" ->
          dispatch self request now = (self, CallNext request id))
    /\ Forall (fun e => url_path (ev_request e) = "/health" ->
                        ev_action e = CallNext (ev_request e) id)
              (snd (run (init rpm) arrivals)).
Proof.
  intros rpm arrivals c. split; [apply stored_bounded|].
  split; [apply log_forwarded_or_429|].
  split; [intros Hmono a; by apply within_bound|].
  assert (forall (self : t) (request : Request) (now : Z),
            url_path request = "/health" ->
            dispatch self request now = (self, CallNext request id)) as Hh.
  { intros self request now E. unfold dispatch. by rewrite E. }
  split; [exact Hh|].
  induction arrivals as [|a arrivals IH] using rev_ind; [constructor|].
  rewrite run_snoc, step_snd. apply Forall_app. split; [exact IH|].
  constructor; [|constructor]. simpl. intros E. by rewrite Hh.
Qed.

Lemma rate_limit_window_witness :
  Z.of_nat (length (within (2 * minute) (forwarded_limited "10.0.0.1"
     (snd (run (init 2)
        [(sample_request, 0); (sample_request, minute); (health_request, minute);
         (sample_request, minute + 1); (sample_request, minute + 2)])))))
  <= Z.max 0 2.
Proof.
  apply (rate_limit_window 2
           [(sample_request, 0); (sample_request, minute); (health_request, minute);
            (sample_request, minute + 1); (sample_request, minute + 2)]
           "10.0.0.1").
  vm_compute. reflexivity.
Defined.

(** The window of C1 is open at its start: with a limit of one, two requests
    exactly one minute apart are both passed on, the entry of the first being
    one minute old, hence dropped, when the second arrives. *)
Remark rate_limit_window_one_minute_apart :
  forwarded_limited "10.0.0.1"
    (snd (run (init 1) [(sample_request, 0); (sample_request, minute)]))
  = [0; minute]
  /\ within minute [0; minute] = [minute].
Proof. split; vm_compute; reflexivity. Qed.

(** C1 fails as it is stated: health checks of one client are all passed
    on, whatever the limit.  With a limit of one request per minute, two
    health checks one microsecond apart both reach the inner handler.  The
    bound also needs a clock that does not go back: with a limit of two, when
    the clock jumps ahead by more than a minute and then returns, a third
    request is passed on at the time of the first two. *)
Lemma rate_limit_window_counterexample :
  (nondecreasing [0; 1] = true
   /\ within 1 (forwarded "10.0.0.1"
                  (snd (run (init 1) [(health_request, 0); (health_request, 1)])))
      = [0; 1]
   /\ ~ (Z.of_nat (length (within 1 (forwarded "10.0.0.1"
           (snd (run (init 1) [(health_request, 0); (health_request, 1)])))))
         <= 1))
  /\ (nondecreasing [100; 100; 2 * minute; 100] = false
      /\ within 100 (forwarded_limited "10.0.0.1"
           (snd (run (init 2)
                   [(sample_request, 100); (sample_request, 100);
                    (sample_request, 2 * minute); (sample_request, 100)])))
         = [100; 100; 100]).
Proof.
  split.
  - split; [reflexivity|].
    assert (within 1 (forwarded "10.0.0.1"
              (snd (run (init 1) [(health_request, 0); (health_request, 1)])))
            = [0; 1]) as E by (vm_compute; reflexivity).
    split; [exact E|]. rewrite E. simpl. lia.
  - split; vm_compute; reflexivity.
Qed.

(** C2, as the code has it.  On every request that is not a health check,
    the list on record for the client is replaced by its entries younger than
    one minute, in their order (an entry that is one minute old or older goes),
    followed by the new time when the request is passed on; the lists of the
    other clients stay as they are.  A health check leaves every list as it
    is. *)
Theorem rate_limit_eviction :
  forall (self : t) (request : Request) (now : Z),
    (is_health request = false ->
       stored (fst (dispatch self request now)) (client_id request)
       = filter (λ s, now - s < minute) (stored self (client_id request))
         ++ (if reaches_inner (snd (dispatch self request now)) then [now] else [])
       /\ (forall s, s <> now ->
             (s ∈ stored (fst (dispatch self request now)) (client_id request)
              <-> s ∈ stored self (client_id request) /\ now - s < minute))
       /\ (forall c, c <> client_id request ->
             stored (fst (dispatch self request now)) c = stored self c))
    /\ (is_health request = true ->
        forall c, stored (fst (dispatch self request now)) c = stored self c).
Proof.
  intros self request now.
  assert (forall l, clean now l = filter (λ s, now - s < minute) l) as Hclean.
  { intros l. unfold clean. cbv zeta. apply list_filter_iff. intros x. lia. }
  split; intros Hh.
  - assert (stored (fst (dispatch self request now)) (client_id request)
            = filter (λ s, now - s < minute) (stored self (client_id request))
              ++ (if reaches_inner (snd (dispatch self request now))
                  then [now] else [])) as E.
    { rewrite dispatch_stored, dispatch_action, Hh.
      rewrite decide_True by reflexivity. cbv zeta.
      rewrite <- Hclean. destruct (_ <=? _); simpl; [by rewrite app_nil_r | done]. }
    split; [exact E|]. split.
    + intros s Hs. rewrite E, elem_of_app, list_elem_of_filter.
      split.
      * intros [[H1 H2]|H]; [by split|].
        destruct (reaches_inner _); [|by apply elem_of_nil in H].
        apply list_elem_of_singleton in H. contradiction.
      * intros [H1 H2]. left. by split.
    + intros c Hc. rewrite dispatch_stored, Hh.
      by rewrite decide_False by congruence.
  - intros c. by rewrite dispatch_stored, Hh.
Qed.

Lemma rate_limit_eviction_witness :
  stored (fst (dispatch (fst (run (init 5) [(sample_request, 0); (sample_request, 7)]))
                 sample_request (minute + 3)))
         (client_id sample_request)
  = filter (λ s, minute + 3 - s < minute)
      (stored (fst (run (init 5) [(sample_request, 0); (sample_request, 7)]))
              (client_id sample_request))
    ++ (if reaches_inner
             (snd (dispatch (fst (run (init 5) [(sample_request, 0); (sample_request, 7)]))
                     sample_request (minute + 3)))
        then [minute + 3] else []).
Proof.
  apply (proj1 (rate_limit_eviction
                  (fst (run (init 5) [(sample_request, 0); (sample_request, 7)]))
                  sample_request (minute + 3))).
  reflexivity.
Defined.

(** C2 fails as it is stated, twice over: a health check evicts nothing,
    so an entry two minutes old stays on record; and an entry that is exactly one
    minute old, hence not older than one minute, is dropped. *)
Lemma rate_limit_eviction_counterexample :
  ~ drops_exactly_the_older (fst (run (init 5) [(sample_request, 0)]))
      health_request (2 * minute)
  /\ ~ drops_exactly_the_older (fst (run (init 5) [(sample_request, 0)]))
      sample_request minute.
Proof.
  split; intros H.
  - destruct (H 0 ltac:(discriminate)) as [H1 _].
    assert (0 ∈ stored (fst (dispatch (fst (run (init 5) [(sample_request, 0)]))
                               health_request (2 * minute)))
                       (client_id health_request)) as Hin
      by (vm_compute; apply list_elem_of_here).
    apply H1 in Hin as [_ Hn]. apply Hn. reflexivity.
  - destruct (H 0 ltac:(discriminate)) as [_ H2].
    assert (0 ∈ stored (fst (run (init 5) [(sample_request, 0)]))
                       (client_id sample_request)
            /\ ~ (minute < minute - 0)) as Hin
      by (split; [vm_compute; apply list_elem_of_here | vm_compute; discriminate]).
    apply H2 in Hin. vm_compute in Hin.
    apply list_elem_of_singleton in Hin. discriminate.
Qed.

(** C3.  In a store that sequential processing has produced, a request that
    is not a health check and finds at least [requests_per_minute] entries
    left after the trimming is answered with status 429 and the body
    [{"error": "Rate limit exceeded", "detail": "Maximum N requests per
    minute"}]; the inner handler is not reached, the time of the request is
    not recorded, and the list on record is the same for every client as
    before. *)
Theorem rate_limit_rejection :
  forall (rpm : Z) (arrivals : list (Request * Z)) (request : Request) (now : Z),
    is_health request = false ->
    rpm <= Z.of_nat (length (clean now (stored (fst (run (init rpm) arrivals))
                                               (client_id request)))) ->
    exists response,
      snd (dispatch (fst (run (init rpm) arrivals)) request now) = Return response
      /\ reaches_inner (snd (dispatch (fst (run (init rpm) arrivals)) request now))
         = false
      /\ status_code response = 429
      /\ content response
         = JDict [("error", JStr "Rate limit exceeded");
                  ("detail", JStr ("Maximum " +:+ Py.str_int rpm
                                   +:+ " requests per minute"))]
      /\ (forall c,
            stored (fst (dispatch (fst (run (init rpm) arrivals)) request now)) c
            = stored (fst (run (init rpm) arrivals)) c).
Proof.
  intros rpm arrivals request now Hh Hfull.
  exists (too_many (fst (run (init rpm) arrivals))).
  apply Z.leb_le in Hfull.
  rewrite dispatch_action, Hh, run_rpm, Hfull.
  split; [reflexivity|]. split; [reflexivity|]. split; [reflexivity|].
  split; [unfold too_many; simpl; by rewrite run_rpm|].
  intros c. rewrite dispatch_stored, Hh, run_rpm.
  case_decide as D; [|reflexivity]. subst c. cbv zeta. rewrite Hfull.
  apply Z.leb_le in Hfull.
  pose proof (stored_bounded rpm arrivals (client_id request)) as Hb.
  apply filter_all_length.
  unfold clean in Hfull. cbv zeta in Hfull.
  pose proof (length_filter (λ req_time, now - minute < req_time)
                (stored (fst (run (init rpm) arrivals)) (client_id request))).
  lia.
Qed.

Lemma rate_limit_rejection_witness :
  exists response,
    snd (dispatch (fst (run (init 1) [(sample_request, 0)])) sample_request 30000000)
    = Return response
    /\ status_code response = 429
    /\ content response
       = JDict [("error", JStr "Rate limit exceeded");
                ("detail", JStr "Maximum 1 requests per minute")]
    /\ stored (fst (dispatch (fst (run (init 1) [(sample_request, 0)]))
                      sample_request 30000000)) "10.0.0.1"
       = [0].
Proof.
  destruct (rate_limit_rejection 1 [(sample_request, 0)] sample_request 30000000)
    as (response & Ha & _ & Hs & Hc & Hst).
  - reflexivity.
  - vm_compute. discriminate.
  - exists response. split; [exact Ha|]. split; [exact Hs|].
    split; [exact Hc|]. rewrite Hst. vm_compute. reflexivity.
Defined.

End RateLimiting.

(** ** The regular-expression engine *)

Section RegexFacts.
Local Open Scope nat_scope.
Import Re.

Lemma re_match_accepts r s : re_match r s = true <-> accepts r (O, Py.chars s).
Proof.
  unfold re_match, accepts. destruct (rem r (O, Py.chars s)); split; congruence.
Qed.

Lemma nonempty_in {A : Type} (l : list A) : l <> [] <-> exists x, In x l.
Proof.
  destruct l as [|x l]; split.
  - congruence.
  - intros [x []].
  - intros _. exists x. by left.
  - discriminate.
Qed.

Lemma accepts_seq r1 r2 st :
  accepts (Seq r1 r2) st <-> exists st1, In st1 (rem r1 st) /\ accepts r2 st1.
Proof.
  unfold accepts. simpl. rewrite nonempty_in. split.
  - intros [x Hx]. apply in_flat_map in Hx as (st1 & H1 & H2).
    exists st1. split; [exact H1|]. apply nonempty_in. by exists x.
  - intros (st1 & H1 & H2). apply nonempty_in in H2 as [x Hx].
    exists x. apply in_flat_map. by exists st1.
Qed.

Lemma in_rem_seq r1 r2 st st' :
  In st' (rem (Seq r1 r2) st) <-> exists st1, In st1 (rem r1 st) /\ In st' (rem r2 st1).
Proof. simpl. apply in_flat_map. Qed.

Lemma in_rem_bol st st' : In st' (rem Bol st) <-> st' = st /\ fst st = O.
Proof.
  simpl. destruct (Nat.eqb_spec (fst st) 0); simpl; intuition congruence.
Qed.

Lemma in_rem_look r st st' : In st' (rem (Look r) st) <-> st' = st /\ accepts r st.
Proof.
  unfold accepts. simpl. destruct (rem r st); simpl; intuition congruence.
Qed.

Lemma accepts_look r st : accepts (Look r) st <-> accepts r st.
Proof.
  unfold accepts at 1. rewrite nonempty_in. split.
  - intros [x Hx]. by apply in_rem_look in Hx as [_ Hx].
  - intros H. exists st. by apply in_rem_look.
Qed.

Lemma accepts_eol st : accepts Eol st <-> snd st = [] \/ snd st = [newline].
Proof.
  unfold accepts. simpl. destruct (snd st) as [|c [|d l]]; simpl.
  - intuition congruence.
  - destruct (Ascii.eqb_spec c newline); subst; intuition congruence.
  - intuition congruence.
Qed.

Lemma in_rem_cls p st st' :
  In st' (rem (Cls p) st)
  <-> exists c rest, snd st = c :: rest /\ p c = true /\ st' = (S (fst st), rest).
Proof.
  simpl. destruct (snd st) as [|c rest]; simpl.
  - split; [intros [] | intros (c & rest & H & _); discriminate].
  - destruct (p c) eqn:E; simpl.
    + split.
      * intros [<-|[]]. by exists c, rest.
      * intros (c' & rest' & [= <- <-] & _ & ->). by left.
    + split; [intros [] | intros (c' & rest' & [= <- <-] & H & _); congruence].
Qed.

Lemma in_rep body lo hi fuel st st' :
  length (snd st) <= fuel ->
  In st' (rep body lo hi fuel st) <-> reps body lo hi st st'.
Proof.
  revert lo hi st. induction fuel as [|fuel IH]; intros lo hi st Hlen.
  - simpl. split.
    + destruct (Nat.eqb_spec lo 0); [|intros []]. intros [<-|[]]. subst. constructor.
    + intros H. destruct H as [|lo hi st st1 st' _ _ Hs _].
      * by left.
      * unfold shorter in Hs. apply Nat.ltb_lt in Hs. lia.
  - simpl. rewrite in_app_iff. split.
    + intros [H|H].
      * assert (hi <> Some O) as Hhi.
        { intros ->. destruct H. }
        assert (In st' (flat_map (rep body (Nat.pred lo) (option_map Nat.pred hi) fuel)
                          (List.filter (shorter st) (body st)))) as H'.
        { destruct hi as [[|h]|]; [destruct H | exact H | exact H]. }
        apply in_flat_map in H' as (st1 & H1 & H2).
        apply filter_In in H1 as [H1 Hs].
        apply IH in H2.
        2:{ unfold shorter in Hs. apply Nat.ltb_lt in Hs. lia. }
        by eapply reps_more.
      * destruct (Nat.eqb_spec lo 0); [|destruct H]. destruct H as [<-|[]].
        subst. constructor.
    + intros H. destruct H as [|lo hi st st1 st' Hhi H1 Hs H2].
      * right. by left.
      * left.
        assert (In st' (flat_map (rep body (Nat.pred lo) (option_map Nat.pred hi) fuel)
                          (List.filter (shorter st) (body st)))) as H'.
        { apply in_flat_map. exists st1. split.
          - apply filter_In. by split.
          - apply IH; [|exact H2].
            unfold shorter in Hs. apply Nat.ltb_lt in Hs. lia. }
        destruct hi as [[|h]|]; [congruence | exact H' | exact H'].
Qed.

Lemma in_rem_rep r lo hi st st' :
  In st' (rem (Rep r lo hi) st) <-> reps (rem r) lo hi st st'.
Proof. simpl. by apply in_rep. Qed.

(** Repetition of a character set: any admissible number of characters of
    the set. *)
Lemma reps_cls p lo hi pos s st' :
  reps (rem (Cls p)) lo hi (pos, s) st'
  <-> exists k, lo <= k /\ (forall h, hi = Some h -> k <= h) /\ k <= length s
        /\ Forall (fun c => p c = true) (take k s)
        /\ st' = (pos + k, drop k s).
Proof.
  split.
  - intros H. remember (pos, s) as st eqn:E. revert pos s E.
    induction H as [hi st|lo hi st st1 st' Hhi H1 Hs H2 IH]; intros pos s ->.
    + exists 0. rewrite Nat.add_0_r. simpl.
      split; [lia|]. split; [intros; lia|]. split; [lia|].
      split; [constructor | reflexivity].
    + apply in_rem_cls in H1 as (c & rest & Hc & Hp & ->). simpl in Hc. subst s.
      destruct (IH (S pos) rest eq_refl) as (k & Hlo & Hh & Hk & Hf & ->).
      exists (S k). simpl. repeat split.
      * lia.
      * intros h ->. destruct h as [|h]; [congruence|].
        specialize (Hh h eq_refl). lia.
      * lia.
      * by constructor.
      * f_equal. lia.
  - intros (k & Hlo & Hh & Hk & Hf & ->).
    revert lo hi pos s Hlo Hh Hk Hf. induction k as [|k IH]; intros lo hi pos s Hlo Hh Hk Hf.
    + assert (lo = 0) as -> by lia. rewrite Nat.add_0_r. simpl. constructor.
    + destruct s as [|c s]; [simpl in Hk; lia|].
      simpl in Hf. apply Forall_cons in Hf as [Hc Hf].
      apply (reps_more _ _ _ _ (S pos, s)).
      * intros ->. specialize (Hh 0 eq_refl). lia.
      * apply in_rem_cls. by exists c, s.
      * unfold shorter. simpl. apply Nat.ltb_lt. lia.
      * replace (pos + S k) with (S pos + k) by lia. simpl drop.
        apply IH; [lia| |simpl in Hk; lia|exact Hf].
        intros h Hh'. destruct hi as [h0|]; [|discriminate]. simpl in Hh'.
        injection Hh' as <-. specialize (Hh h0 eq_refl). lia.
Qed.

End RegexFacts.

(** ** Password strength *)

Section Passwords.
Local Open Scope nat_scope.
Import Re PydanticModels.

Lemma length_chars s : length (Py.chars s) = String.length s.
Proof.
  unfold Py.chars. induction s as [|c s IH]; simpl; [reflexivity | by rewrite IH].
Qed.

(** The look-ahead [(?=.*[p])]: a character of [p] with no newline before it. *)
Lemma accepts_somewhere p pos s :
  accepts (somewhere p) (pos, s)
  <-> exists k c, Forall (fun c => dot c = true) (take k s)
                  /\ s !! k = Some c /\ p c = true.
Proof.
  unfold somewhere, star. rewrite accepts_look, accepts_seq. split.
  - intros (st1 & H1 & H2).
    apply in_rem_rep, reps_cls in H1 as (k & _ & _ & Hk & Hf & ->).
    apply nonempty_in in H2 as [x Hx].
    apply in_rem_cls in Hx as (c & rest & Hd & Hp & _). simpl in Hd.
    exists k, c. split; [exact Hf|]. split; [|exact Hp].
    rewrite <- (Nat.add_0_r k), <- lookup_drop, Hd. reflexivity.
  - intros (k & c & Hf & Hk & Hp).
    exists (pos + k, drop k s). split.
    + apply in_rem_rep, reps_cls. exists k.
      split; [lia|]. split; [discriminate|].
      split; [apply lookup_lt_Some in Hk; lia|]. by split.
    + apply nonempty_in. exists (S (pos + k), drop (S k) s).
      apply in_rem_cls. exists c, (drop (S k) s). simpl.
      split; [|by split]. by apply drop_S.
Qed.

Lemma accepts_password s :
  accepts PASSWORD_PATTERN (O, s)
  <-> accepts (somewhere Py.is_lower) (O, s)
      /\ accepts (somewhere Py.is_upper) (O, s)
      /\ accepts (somewhere Py.is_digit) (O, s)
      /\ accepts (somewhere special) (O, s)
      /\ exists k, 8 <= k <= 128 /\ k <= length s
           /\ Forall (fun c => password_char c = true) (take k s)
           /\ (drop k s = [] \/ drop k s = [newline]).
Proof.
  unfold PASSWORD_PATTERN. split.
  - intros H.
    apply accepts_seq in H as (st & H0 & H). apply in_rem_bol in H0 as [-> _].
    apply accepts_seq in H as (st & H1 & H). apply in_rem_look in H1 as [-> H1%accepts_look].
    apply accepts_seq in H as (st & H2 & H). apply in_rem_look in H2 as [-> H2%accepts_look].
    apply accepts_seq in H as (st & H3 & H). apply in_rem_look in H3 as [-> H3%accepts_look].
    apply accepts_seq in H as (st & H4 & H). apply in_rem_look in H4 as [-> H4%accepts_look].
    apply accepts_seq in H as (st & H5 & H).
    apply in_rem_rep, reps_cls in H5 as (k & Hlo & Hhi & Hk & Hf & ->).
    apply accepts_eol in H. simpl in H.
    do 4 (split; [assumption|]).
    exists k. specialize (Hhi 128 eq_refl).
    split; [lia|]. split; [exact Hk|]. split; [exact Hf | exact H].
  - intros (H1 & H2 & H3 & H4 & k & [Hlo Hhi] & Hk & Hf & He).
    apply accepts_seq. exists (O, s). split; [by apply in_rem_bol|].
    apply accepts_seq. exists (O, s). split; [apply in_rem_look; split; [reflexivity | by apply accepts_look]|].
    apply accepts_seq. exists (O, s). split; [apply in_rem_look; split; [reflexivity | by apply accepts_look]|].
    apply accepts_seq. exists (O, s). split; [apply in_rem_look; split; [reflexivity | by apply accepts_look]|].
    apply accepts_seq. exists (O, s). split; [apply in_rem_look; split; [reflexivity | by apply accepts_look]|].
    apply accepts_seq. exists (0 + k, drop k s). split.
    + apply in_rem_rep, reps_cls. exists k.
      split; [lia|]. split; [intros h [= <-]; lia|]. by repeat split.
    + by apply accepts_eol.
Qed.

Lemma password_char_dot c : password_char c = true -> dot c = true.
Proof.
  unfold dot. destruct (Ascii.eqb_spec c newline) as [->|]; [|reflexivity].
  vm_compute. discriminate.
Qed.

(** Among characters of the password alphabet, the look-ahead asks for one
    occurrence. *)
Lemma somewhere_exists p s :
  Forall (fun c => password_char c = true) s ->
  accepts (somewhere p) (O, s) <-> Exists (fun c => p c = true) s.
Proof.
  intros Hs. rewrite accepts_somewhere. split.
  - intros (k & c & _ & Hk & Hp). apply Exists_exists. exists c.
    split; [|exact Hp]. by eapply list_elem_of_lookup_2.
  - intros H. apply Exists_exists in H as (c & Hc & Hp).
    apply list_elem_of_lookup in Hc as [k Hk]. exists k, c.
    split; [|by split]. apply Forall_take.
    eapply Forall_impl; [exact Hs|]. apply password_char_dot.
Qed.

Lemma password_match_strong s :
  ~ ends_with_newline s ->
  re_match PASSWORD_PATTERN s = true <-> strong_password s.
Proof.
  intros Hnl. rewrite re_match_accepts, accepts_password.
  unfold strong_password. rewrite <- length_chars.
  unfold ends_with_newline in Hnl.
  split.
  - intros (H1 & H2 & H3 & H4 & k & Hk & Hlen & Hf & He).
    destruct He as [He|He].
    2:{ exfalso. apply Hnl.
        rewrite <- (take_drop k (Py.chars s)), He. apply last_snoc. }
    assert (k = length (Py.chars s)) as ->.
    { apply (f_equal length) in He. rewrite length_drop in He. simpl in He. lia. }
    rewrite firstn_all in Hf.
    split; [exact Hk|]. split; [exact Hf|].
    rewrite <- !(somewhere_exists _ _ Hf). tauto.
  - intros (Hk & Hf & H1 & H2 & H3 & H4).
    rewrite !(somewhere_exists _ _ Hf).
    do 4 (split; [assumption|]).
    exists (length (Py.chars s)). split; [exact Hk|]. split; [lia|].
    rewrite firstn_all. split; [exact Hf|]. left. apply drop_all.
Qed.

(** The anchor [$] also matches just before a newline that ends the text:
    a strong password followed by one newline is accepted as it is. *)
Remark validate_password_trailing_newline :
  validate_password ("Abcdef1@" +:+ String newline EmptyString)
  = Py.Ok ("Abcdef1@" +:+ String newline EmptyString).
Proof. vm_compute. reflexivity. Qed.

(** C4, as the code has it.  For every string of 7-bit characters that does
    not end with a newline, [validate_password] returns its input unchanged
    when the string is 8 to 128 characters long, consists only of letters,
    digits and the characters [@$!%*?&], and contains at least one lowercase
    letter, one uppercase letter, one digit and one of [@$!%*?&]; it raises
    [ValueError] for every other such string. *)
Theorem validate_password_strong :
  forall s : string,
    seven_bit s -> ~ ends_with_newline s ->
    (strong_password s -> validate_password s = Py.Ok s)
    /\ (~ strong_password s ->
        exists msg, validate_password s = Py.Raise (Py.ValueError msg)).
Proof.
  intros s _ Hnl. pose proof (password_match_strong s Hnl) as M.
  unfold validate_password.
  destruct (re_match PASSWORD_PATTERN s); simpl; split.
  - reflexivity.
  - intros Hn. exfalso. apply Hn, M. reflexivity.
  - intros Hs. apply M in Hs. discriminate.
  - intros _. by eexists.
Qed.

Lemma validate_password_strong_witness :
  validate_password "Abcdef1@" = Py.Ok "Abcdef1@"
  /\ exists msg, validate_password "abcdefg1@" = Py.Raise (Py.ValueError msg).
Proof.
  split.
  - apply (proj1 (validate_password_strong "Abcdef1@"
                    ltac:(unfold seven_bit; simpl; repeat constructor)
                    ltac:(unfold ends_with_newline; simpl; discriminate))).
    unfold strong_password. simpl. split; [lia|].
    split; [repeat constructor|].
    repeat split; apply (bool_decide_unpack _); vm_compute; reflexivity.
  - apply (proj2 (validate_password_strong "abcdefg1@"
                    ltac:(unfold seven_bit; simpl; repeat constructor)
                    ltac:(unfold ends_with_newline; simpl; discriminate))).
    intros (_ & _ & _ & Hu & _). revert Hu.
    apply (bool_decide_unpack _). vm_compute. reflexivity.
Defined.

(** C4 fails as it is stated: a string of nine characters with a lowercase
    letter, an uppercase letter, a digit and a special character is turned
    down, because it has a character outside the alphabet of the pattern. *)
Lemma validate_password_rejects_other_characters :
  long_and_mixed "Abcdef1@#"
  /\ exists msg, validate_password "Abcdef1@#" = Py.Raise (Py.ValueError msg).
Proof.
  split.
  - unfold long_and_mixed. simpl. split; [lia|].
    repeat split; apply (bool_decide_unpack _); vm_compute; reflexivity.
  - by eexists.
Qed.

End Passwords.

(** ** Substitution *)

Section Substitution.
Local Open Scope nat_scope.
Import Re.

(** Replacing the characters of a set by nothing keeps the others. *)
Lemma sub_from_cls p pos s :
  sub_from (Cls p) [] pos 0 s = List.filter (fun c => negb (p c)) s.
Proof.
  revert pos. induction s as [|c s IH]; intros pos; [reflexivity|].
  cbn [sub_from rem fst snd List.filter]. destruct (p c); cbn [negb app].
  - rewrite (proj2 (Nat.eqb_neq (S pos) pos)) by lia.
    replace (S pos - pos - 1) with 0 by lia. apply IH.
  - by rewrite IH.
Qed.

Lemma rep_S body lo hi fuel st :
  rep body lo hi (S fuel) st
  = match hi with
    | Some O => []
    | _ => flat_map (rep body (Nat.pred lo) (option_map Nat.pred hi) fuel)
                    (List.filter (shorter st) (body st))
    end ++ (if lo =? 0 then [st] else []).
Proof. reflexivity. Qed.

Lemma rem_rep_eq r lo hi st :
  rem (Rep r lo hi) st = rep (rem r) lo hi (length (snd st)) st.
Proof. reflexivity. Qed.

Lemma rem_cls_cons p pos c s :
  rem (Cls p) (pos, c :: s) = if p c then [(S pos, s)] else [].
Proof. reflexivity. Qed.

Lemma filter_shorter_cons pos c s :
  List.filter (shorter (pos, c :: s)) [(S pos, s)] = [(S pos, s)].
Proof.
  cbn [List.filter]. unfold shorter. cbn [snd length].
  by rewrite (proj2 (Nat.ltb_lt (length s) (S (length s)))) by lia.
Qed.

(** The greedy star takes the whole run first. *)
Lemma rep_star_head q s pos :
  exists tl, rep (rem (Cls q)) 0 None (length s) (pos, s)
             = (pos + run_len q s, drop (run_len q s) s) :: tl.
Proof.
  revert pos. induction s as [|c s IH]; intros pos.
  - simpl. rewrite Nat.add_0_r. by eexists.
  - cbn [length run_len]. rewrite rep_S, rem_cls_cons.
    destruct (q c).
    + rewrite filter_shorter_cons. cbn [flat_map Nat.pred option_map].
      destruct (IH (S pos)) as [tl ->].
      replace (pos + S (run_len q s)) with (S pos + run_len q s) by lia.
      cbn [drop app]. by eexists.
    + cbn [List.filter flat_map app Nat.eqb drop]. rewrite Nat.add_0_r. by eexists.
Qed.

Lemma rem_plus_hit q pos c s :
  q c = true ->
  exists tl, rem (plus (Cls q)) (pos, c :: s)
             = (S pos + run_len q s, drop (run_len q s) s) :: tl.
Proof.
  intros Hc. unfold plus. rewrite rem_rep_eq. cbn [snd length].
  rewrite rep_S, rem_cls_cons, Hc, filter_shorter_cons.
  cbn [flat_map Nat.pred option_map].
  destruct (rep_star_head q s (S pos)) as [tl ->].
  cbn [app]. by eexists.
Qed.

Lemma rem_plus_miss q pos s :
  run_len q s = 0 -> rem (plus (Cls q)) (pos, s) = [].
Proof.
  unfold plus. destruct s as [|c s]; [reflexivity|].
  cbn [run_len]. destruct (q c) eqn:E; [discriminate|]. intros _.
  rewrite rem_rep_eq. cbn [snd length].
  rewrite rep_S, rem_cls_cons, E. reflexivity.
Qed.

Lemma squeeze_in_run q sep s :
  squeeze q sep true s = squeeze q sep false (drop (run_len q s) s).
Proof.
  induction s as [|c s IH]; [reflexivity|].
  simpl. destruct (q c) eqn:E; simpl.
  - exact IH.
  - by rewrite E.
Qed.

Lemma sub_from_plus q sep s :
  (forall pos, sub_from (plus (Cls q)) sep pos 0 s = squeeze q sep false s)
  /\ (forall pos, sub_from (plus (Cls q)) sep pos (run_len q s) s
                  = squeeze q sep true s).
Proof.
  induction s as [|c s [IHa IHb]].
  - split; intros pos; reflexivity.
  - assert (forall pos, sub_from (plus (Cls q)) sep pos 0 (c :: s)
                        = squeeze q sep false (c :: s)) as Ha.
    { intros pos. destruct (q c) eqn:E.
      - destruct (rem_plus_hit q pos c s E) as [tl Hr].
        cbn [sub_from]. rewrite Hr.
        rewrite (proj2 (Nat.eqb_neq (S pos + run_len q s) pos)) by lia.
        replace (S pos + run_len q s - pos - 1) with (run_len q s) by lia.
        rewrite IHb. simpl. by rewrite E.
      - cbn [sub_from]. rewrite rem_plus_miss by (simpl; by rewrite E).
        rewrite IHa. simpl. by rewrite E. }
    split; [exact Ha|].
    intros pos. destruct (q c) eqn:E.
    + simpl run_len. rewrite E. cbn [sub_from]. rewrite IHb. simpl. by rewrite E.
    + simpl run_len. rewrite E. rewrite Ha. simpl. by rewrite E.
Qed.

End Substitution.

(** ** Slugs *)

Section Slugs.
Local Open Scope nat_scope.
Import Re PydanticModels.

Lemma chars_of_chars l : Py.chars (Py.of_chars l) = l.
Proof. apply list_ascii_of_string_of_list_ascii. Qed.

(** The four steps of [slug_generator], on the characters. *)
Lemma slug_generator_chars v :
  Py.chars (slug_generator v)
  = Py.strip_chars "-"
      (squeeze space_underscore_hyphen ["-"%char] false
         (List.filter (fun c => negb (not_word_space_hyphen c))
            (map Py.lower_char (Py.chars v)))).
Proof.
  unfold slug_generator, Py.strip, sub, Py.lower.
  rewrite !chars_of_chars.
  change (Py.chars EmptyString) with (@nil ascii).
  change (Py.chars "-") with ["-"%char].
  rewrite sub_from_cls. by rewrite (proj1 (sub_from_plus _ _ _)).
Qed.

(** Facts about single characters, checked on all of them. *)
Lemma kept_char_cases c :
  implb (negb (not_word_space_hyphen (Py.lower_char c)))
        (space_underscore_hyphen (Py.lower_char c) || slug_char (Py.lower_char c))
  = true.
Proof. destruct c as [[] [] [] [] [] [] [] []]; reflexivity. Qed.

Lemma slug_char_cases c :
  implb (slug_char c) (negb (space_underscore_hyphen c) && negb (hyphen c)) = true.
Proof. destruct c as [[] [] [] [] [] [] [] []]; reflexivity. Qed.

Lemma hyphen_eq c : hyphen c = Ascii.eqb c "-"%char.
Proof. reflexivity. Qed.

Lemma squeeze_spaced m b :
  Forall (fun c => space_underscore_hyphen c || slug_char c = true) m ->
  spaced b (squeeze space_underscore_hyphen ["-"%char] b m) = true.
Proof.
  intros Hm. revert b. induction Hm as [|c m Hc _ IH]; intros b; [reflexivity|].
  cbn [squeeze]. pose proof (slug_char_cases c) as Hs.
  destruct (space_underscore_hyphen c) eqn:Eq.
  - destruct b; [apply IH|]. cbn [app spaced]. simpl. apply IH.
  - simpl in Hc. cbn [spaced]. rewrite Hc. apply IH.
Qed.

Lemma spaced_lstrip b u :
  spaced b u = true ->
  spaced false (Py.lstrip_chars "-" u) = true
  /\ spaced true (Py.lstrip_chars "-" u) = true.
Proof.
  revert b. induction u as [|c u IH]; intros b H; [by split|].
  cbn [Py.lstrip_chars]. cbn [spaced] in H.
  destruct (Ascii.eqb_spec c "-"%char) as [->|Hne].
  - simpl in H. apply andb_true_iff in H as [_ H]. by apply (IH true).
  - assert (hyphen c = false) as Hh.
    { rewrite hyphen_eq. by apply Ascii.eqb_neq. }
    rewrite Hh in H. destruct (slug_char c) eqn:Es; [|discriminate].
    cbn [spaced]. rewrite Es. by split.
Qed.

Lemma spaced_prefix b l1 l2 : spaced b (l1 ++ l2) = true -> spaced b l1 = true.
Proof.
  revert b. induction l1 as [|c l1 IH]; intros b; [reflexivity|].
  cbn [app spaced]. destruct (slug_char c); [apply IH|].
  destruct (hyphen c); [|discriminate].
  intros H. apply andb_true_iff in H as [-> H]. simpl. by apply (IH true).
Qed.

Lemma lstrip_spec c l :
  exists hs, l = hs ++ Py.lstrip_chars c l
             /\ (forall x t, Py.lstrip_chars c l = x :: t -> x <> c).
Proof.
  induction l as [|x l (hs & E & H)].
  - exists []. split; [reflexivity | discriminate].
  - cbn [Py.lstrip_chars]. destruct (Ascii.eqb_spec x c) as [->|Hne].
    + exists (c :: hs). split; [simpl; by rewrite <- E | exact H].
    + exists []. split; [reflexivity|]. by intros y t [= <- <-].
Qed.

(** What [strip] leaves is a prefix of the text stripped on the left, and
    does not end with the stripped character. *)
Lemma strip_spec c l :
  exists hs, Py.lstrip_chars c l = Py.strip_chars c l ++ hs
             /\ last (Py.strip_chars c l) <> Some c.
Proof.
  unfold Py.strip_chars.
  destruct (lstrip_spec c (rev (Py.lstrip_chars c l))) as (hs & E & H).
  exists (rev hs). split.
  - rewrite <- rev_app_distr, <- E. by rewrite rev_involutive.
  - destruct (Py.lstrip_chars c (rev (Py.lstrip_chars c l))) as [|x t] eqn:Et.
    + simpl. discriminate.
    + simpl. rewrite last_snoc. intros [= ->]. by apply (H c t).
Qed.

Lemma spaced_slug_shaped pw v :
  spaced (negb pw) v = true ->
  match last v with Some c => hyphen c = false | None => pw = true end ->
  slug_shaped pw v = true.
Proof.
  revert pw. induction v as [|c v IH]; intros pw Hs He; [exact He|].
  cbn [spaced] in Hs. cbn [slug_shaped].
  assert (match last v with
          | Some c0 => hyphen c0 = false
          | None => hyphen c = false
          end) as He'.
  { rewrite last_cons in He. destruct (last v); exact He. }
  destruct (slug_char c) eqn:Es.
  - apply (IH true); [exact Hs|]. destruct (last v); [exact He' | reflexivity].
  - destruct (hyphen c) eqn:Eh; [|discriminate].
    apply andb_true_iff in Hs as [Hpw Hs]. rewrite negb_involutive in Hpw.
    rewrite Hpw. simpl. apply (IH false); [exact Hs|].
    destruct (last v); [exact He' | discriminate].
Qed.

(** The output of [slug_generator] is empty or has the shape of a slug. *)
Lemma slug_generator_shape v :
  Py.chars (slug_generator v) = []
  \/ slug_shaped false (Py.chars (slug_generator v)) = true.
Proof.
  rewrite slug_generator_chars.
  set (m := List.filter _ _).
  assert (Forall (fun c => space_underscore_hyphen c || slug_char c = true) m) as Hm.
  { apply Forall_forall. intros c Hc. apply list_elem_of_In in Hc.
    apply filter_In in Hc as [Hin Hk].
    apply in_map_iff in Hin as (c0 & <- & _).
    pose proof (kept_char_cases c0) as K. rewrite Hk in K. exact K. }
  pose proof (squeeze_spaced m false Hm) as Hu.
  set (u := squeeze _ _ _ _) in *.
  apply spaced_lstrip in Hu as [_ Hu].
  destruct (strip_spec "-" u) as (hs & E & Hl).
  rewrite E in Hu. apply spaced_prefix in Hu.
  destruct (Py.strip_chars "-" u) as [|c v'] eqn:Ev; [by left|]. right.
  apply (spaced_slug_shaped false); [exact Hu|].
  destruct (last (c :: v')) as [d|] eqn:El.
  - rewrite hyphen_eq. apply Ascii.eqb_neq. intros ->. by apply Hl.
  - by apply last_None in El.
Qed.

Lemma run_len_le q l : run_len q l <= length l.
Proof.
  induction l as [|c l IH]; simpl; [lia|]. destruct (q c); simpl; lia.
Qed.

Lemma run_len_take q l : Forall (fun c => q c = true) (take (run_len q l) l).
Proof.
  induction l as [|c l IH]; simpl; [constructor|].
  destruct (q c) eqn:E; simpl; [by constructor | constructor].
Qed.

Lemma run_len_drop q l : run_len q (drop (run_len q l) l) = 0.
Proof.
  induction l as [|c l IH]; simpl; [reflexivity|].
  destruct (q c) eqn:E; simpl; [exact IH | by rewrite E].
Qed.

Lemma slug_shaped_run pw l :
  slug_shaped pw l = true ->
  slug_shaped (pw || (0 <? run_len slug_char l)) (drop (run_len slug_char l) l)
  = true.
Proof.
  revert pw. induction l as [|c l IH]; intros pw H.
  - simpl in *. by rewrite orb_false_r.
  - cbn [run_len slug_shaped] in *. destruct (slug_char c) eqn:E.
    + cbn [drop]. change (0 <? S _) with true. rewrite orb_true_r.
      specialize (IH true H). exact IH.
    + cbn [drop]. change (0 <? 0) with false. rewrite orb_false_r.
      cbn [slug_shaped]. by rewrite E.
Qed.

Lemma slug_shaped_starts l : slug_shaped false l = true -> 1 <= run_len slug_char l.
Proof.
  destruct l as [|c l]; [discriminate|].
  cbn [slug_shaped run_len]. destruct (slug_char c); [lia|].
  destruct (hyphen c); discriminate.
Qed.

(** After a word, the rest of a slug is read by [(?:-[a-z0-9]+)*]. *)
Lemma slug_tail_reps n l pos :
  length l <= n ->
  run_len slug_char l = 0 ->
  slug_shaped true l = true ->
  reps (rem hyphen_word) 0 None (pos, l) (pos + length l, []).
Proof.
  revert l pos. induction n as [|n IH]; intros l pos Hn Hr Hs.
  - destruct l; [|simpl in Hn; lia]. simpl. rewrite Nat.add_0_r. constructor.
  - destruct l as [|c l]; [simpl; rewrite Nat.add_0_r; constructor|].
    cbn [run_len slug_shaped] in Hr, Hs.
    destruct (slug_char c); [discriminate|].
    destruct (hyphen c) eqn:Eh; [|discriminate]. simpl in Hs.
    pose proof (slug_shaped_starts l Hs) as Hk.
    pose proof (slug_shaped_run false l Hs) as Hrest.
    rewrite (proj2 (Nat.ltb_lt 0 (run_len slug_char l))) in Hrest by lia.
    simpl in Hrest.
    pose proof (run_len_le slug_char l) as Hle.
    apply (reps_more _ _ _ _
             (S pos + run_len slug_char l, drop (run_len slug_char l) l)).
    + discriminate.
    + unfold hyphen_word. apply in_rem_seq. exists (S pos, l). split.
      * apply in_rem_cls. by exists c, l.
      * apply in_rem_rep, reps_cls. exists (run_len slug_char l).
        split; [exact Hk|]. split; [discriminate|]. split; [exact Hle|].
        split; [apply run_len_take | reflexivity].
    + unfold shorter. cbn [snd]. apply Nat.ltb_lt.
      rewrite length_drop. simpl. lia.
    + cbn [Nat.pred option_map].
      replace (pos + length (c :: l))
        with (S pos + run_len slug_char l
              + length (drop (run_len slug_char l) l))
        by (rewrite length_drop; simpl; lia).
      apply IH.
      * rewrite length_drop. simpl in Hn. lia.
      * apply run_len_drop.
      * exact Hrest.
Qed.














End Slugs.

(** ** Rate limiting: admission, isolation, edge cases *)

Section RateLimitingMore.
Import Http RateLimitMiddleware.

Lemma run_log_times self arrivals :
  map ev_now (snd (run self arrivals)) = map snd arrivals.
Proof.
  induction arrivals as [|a arrivals IH] using rev_ind; [reflexivity|].
  rewrite run_snoc, step_snd, !map_app, IH. reflexivity.
Qed.

Lemma forwarded_limited_times c T self arrivals :
  Forall (fun x => x <= T) (map snd arrivals) ->
  Forall (fun x => x <= T) (forwarded_limited c (snd (run self arrivals))).
Proof.
  intros H. rewrite <- (run_log_times self) in H.
  unfold forwarded_limited. rewrite Forall_fmap.
  apply Forall_forall. intros e He. apply list_elem_of_filter in He as [_ He].
  rewrite Forall_forall in H. apply H.
  apply list_elem_of_In, in_map, list_elem_of_In, He.
Qed.

Lemma within_all_recent a ts :
  Forall (fun x => x <= a) ts ->
  within a ts = filter (λ s, a - minute < s) ts.
Proof.
  intros H. unfold within. induction H as [|x ts Hx _ IH]; [reflexivity|].
  destruct (decide (a - minute < x)) as [Hr|Hr].
  - rewrite (filter_cons_True (λ s, a - minute < s ∧ s <= a)) by (by split).
    rewrite (filter_cons_True (λ s, a - minute < s)) by exact Hr. by rewrite IH.
  - rewrite (filter_cons_False (λ s, a - minute < s ∧ s <= a))
      by (intros [? ?]; contradiction).
    rewrite (filter_cons_False (λ s, a - minute < s)) by exact Hr. exact IH.
Qed.

(** X1.  With a clock that does not go back, the limiter is exact.  Count the
    requests of the client, health checks left out, that were passed on
    during the minute that ends with a request that is not a health check
    (the instants [s] with [now - minute < s <= now]): when the count is below
    [requests_per_minute] the request is passed on as it is, and otherwise it
    is answered with the 429 response; so it is passed on exactly when the
    count is below the limit.  The health checks of the client that were
    passed on are not part of the count. *)
Theorem rate_limit_exact :
  forall (rpm : Z) (arrivals : list (Request * Z)) (request : Request) (now : Z),
    nondecreasing (map snd (arrivals ++ [(request, now)])) = true ->
    is_health request = false ->
    (reaches_inner (snd (dispatch (fst (run (init rpm) arrivals)) request now)) = true
     <-> Z.of_nat (length (within now
                   (forwarded_limited (client_id request)
                      (snd (run (init rpm) arrivals))))) < rpm)
    /\ (Z.of_nat (length (within now
                   (forwarded_limited (client_id request)
                      (snd (run (init rpm) arrivals))))) < rpm ->
        snd (dispatch (fst (run (init rpm) arrivals)) request now)
        = CallNext request id)
    /\ (rpm <= Z.of_nat (length (within now
                   (forwarded_limited (client_id request)
                      (snd (run (init rpm) arrivals))))) ->
        snd (dispatch (fst (run (init rpm) arrivals)) request now)
        = Return (JSONResponse 429
                    (JDict [("error", JStr "Rate limit exceeded");
                            ("detail", JStr ("Maximum " +:+ Py.str_int rpm
                                             +:+ " requests per minute"))])
                    [])).
Proof.
  intros rpm arrivals request now Hmono Hh.
  rewrite map_app in Hmono. simpl in Hmono.
  apply nondecreasing_snoc in Hmono as [Hmono Hbefore].
  rewrite (within_all_recent now) by (by apply forwarded_limited_times).
  rewrite (stored_recent rpm arrivals (client_id request) now Hmono Hbefore).
  rewrite dispatch_action, Hh, run_rpm. unfold clean. cbv zeta.
  destruct (Z.leb_spec rpm
    (Z.of_nat (length (filter (λ req_time, now - minute < req_time)
                         (stored (fst (run (init rpm) arrivals))
                                 (client_id request)))))); simpl.
  - split; [split; [discriminate | lia]|]. split; [lia|].
    intros _. unfold too_many. simpl. by rewrite run_rpm.
  - split; [split; [intros _; assumption | reflexivity]|].
    split; [reflexivity | lia].
Qed.

Lemma rate_limit_exact_witness :
  (reaches_inner
     (snd (dispatch (fst (run (init 2) [(sample_request, 0); (sample_request, 5)]))
             sample_request minute)) = true
   <-> Z.of_nat (length (within minute
          (forwarded_limited (client_id sample_request)
             (snd (run (init 2) [(sample_request, 0); (sample_request, 5)]))))) < 2)
  /\ (Z.of_nat (length (within minute
          (forwarded_limited (client_id sample_request)
             (snd (run (init 2) [(sample_request, 0); (sample_request, 5)]))))) < 2 ->
      snd (dispatch (fst (run (init 2) [(sample_request, 0); (sample_request, 5)]))
             sample_request minute)
      = CallNext sample_request id)
  /\ (2 <= Z.of_nat (length (within minute
          (forwarded_limited (client_id sample_request)
             (snd (run (init 2) [(sample_request, 0); (sample_request, 5)]))))) ->
      snd (dispatch (fst (run (init 2) [(sample_request, 0); (sample_request, 5)]))
             sample_request minute)
      = Return (JSONResponse 429
                  (JDict [("error", JStr "Rate limit exceeded");
                          ("detail", JStr ("Maximum " +:+ Py.str_int 2
                                           +:+ " requests per minute"))])
                  [])).
Proof.
  apply (rate_limit_exact 2 [(sample_request, 0); (sample_request, 5)]
           sample_request minute); reflexivity.
Defined.

(** The health checks that were passed on do not count: with a limit of
    one, after a health check of the client has been passed on, its next
    request is passed on too. *)
Remark rate_limit_health_not_counted :
  forwarded "10.0.0.1"
    (snd (run (init 1) [(health_request, 0); (sample_request, 1)]))
  = [0; 1].
Proof. vm_compute. reflexivity. Qed.

(** X2.  Clients do not interfere: the list on record for a client, and hence the
    answer to its next request, is the same as if the requests of the other
    clients and the health checks had never arrived. *)
Theorem rate_limit_isolation :
  forall (rpm : Z) (arrivals : list (Request * Z)) (c : string),
    stored (fst (run (init rpm) arrivals)) c
    = stored (fst (run (init rpm) (filter (concerns c) arrivals))) c
    /\ forall request now,
         client_id request = c ->
         snd (dispatch (fst (run (init rpm) arrivals)) request now)
         = snd (dispatch (fst (run (init rpm) (filter (concerns c) arrivals)))
                  request now).
Proof.
  intros rpm arrivals c.
  assert (stored (fst (run (init rpm) arrivals)) c
          = stored (fst (run (init rpm) (filter (concerns c) arrivals))) c) as E.
  { induction arrivals as [|a arrivals IH] using rev_ind; [reflexivity|].
    rewrite filter_app, run_snoc, step_fst, dispatch_stored, run_rpm.
    destruct (is_health (fst a)) eqn:Hh.
    { rewrite filter_cons_False by (intros [_ ?]; congruence).
      by rewrite app_nil_r. }
    destruct (decide (client_id (fst a) = c)) as [Hc|Hc].
    2:{ rewrite filter_cons_False by (intros [? _]; contradiction).
        by rewrite app_nil_r. }
    rewrite filter_cons_True by (by split).
    rewrite filter_nil, run_snoc, step_fst, dispatch_stored, run_rpm, Hh.
    rewrite decide_True by exact Hc. cbv zeta. by rewrite IH. }
  split; [exact E|].
  intros request now Hc. rewrite !dispatch_action, !run_rpm, Hc, <- E.
  unfold too_many. by rewrite !run_rpm.
Qed.

Lemma rate_limit_isolation_witness :
  snd (dispatch (fst (run (init 1)
                        [(sample_request, 0); (public_request, 1); (health_request, 2)]))
         sample_request 3)
  = snd (dispatch (fst (run (init 1)
                          (filter (concerns "10.0.0.1")
                             [(sample_request, 0); (public_request, 1); (health_request, 2)])))
           sample_request 3).
Proof.
  apply (proj2 (rate_limit_isolation 1
                  [(sample_request, 0); (public_request, 1); (health_request, 2)]
                  "10.0.0.1")).
  reflexivity.
Defined.

(** X3.  Every entry on record is the time of a request of that client that was
    passed on, in the order of arrival. *)
Theorem rate_limit_records_forwarded :
  forall (rpm : Z) (arrivals : list (Request * Z)) (c : string),
    stored (fst (run (init rpm) arrivals)) c
    `sublist_of` forwarded_limited c (snd (run (init rpm) arrivals)).
Proof.
  intros rpm arrivals c.
  induction arrivals as [|a arrivals IH] using rev_ind.
  - unfold stored, getitem. simpl. by rewrite lookup_empty.
  - rewrite run_snoc, step_fst, step_snd, forwarded_limited_snoc.
    rewrite dispatch_stored, run_rpm. unfold counts. simpl.
    rewrite dispatch_action, run_rpm.
    destruct (is_health (fst a)) eqn:Hh.
    { rewrite decide_False by (intros (_ & ? & _); discriminate).
      by rewrite app_nil_r. }
    destruct (decide (client_id (fst a) = c)) as [Hc|Hc].
    2:{ rewrite decide_False by (intros (? & _); contradiction).
        by rewrite app_nil_r. }
    cbv zeta. rewrite Hc.
    assert (clean (snd a) (stored (fst (run (init rpm) arrivals)) c)
            `sublist_of` forwarded_limited c (snd (run (init rpm) arrivals))) as Hs.
    { etrans; [apply sublist_filter | exact IH]. }
    destruct (rpm <=? _) eqn:Hfull.
    + rewrite decide_False by (intros (_ & _ & ?); discriminate).
      by rewrite app_nil_r.
    + rewrite decide_True by done. by apply sublist_app.
Qed.

(** X4.  With a limit of zero or less nothing is ever recorded and every request
    that is not a health check is answered with status 429. *)
Theorem rate_limit_nonpositive :
  forall (rpm : Z) (arrivals : list (Request * Z)),
    rpm <= 0 ->
    (forall c, stored (fst (run (init rpm) arrivals)) c = [])
    /\ Forall (fun e => is_health (ev_request e) = false ->
                        exists response, ev_action e = Return response
                                         /\ status_code response = 429)
              (snd (run (init rpm) arrivals)).
Proof.
  intros rpm arrivals Hrpm.
  assert (forall arrivals c, stored (fst (run (init rpm) arrivals)) c = []) as E.
  { intros l c. pose proof (stored_bounded rpm l c) as Hb.
    destruct (stored _ _); [reflexivity | simpl in Hb; lia]. }
  split; [apply E|].
  induction arrivals as [|a arrivals IH] using rev_ind; [constructor|].
  rewrite run_snoc, step_snd. apply Forall_app. split; [exact IH|].
  constructor; [|constructor]. simpl. intros Hh.
  rewrite dispatch_action, Hh, run_rpm, E. unfold clean. cbv zeta.
  rewrite filter_nil. simpl length. change (Z.of_nat 0) with 0.
  rewrite (proj2 (Z.leb_le rpm 0)) by lia. by eexists.
Qed.

Lemma rate_limit_nonpositive_witness :
  stored (fst (run (init 0) [(sample_request, 0); (sample_request, 1)])) "10.0.0.1"
  = [].
Proof.
  apply (proj1 (rate_limit_nonpositive 0 [(sample_request, 0); (sample_request, 1)]
                  ltac:(lia))).
Defined.

(** X5.  After a quiet minute the limit starts afresh: when every entry on record
    for the client is a minute old or older and the limit is at least one,
    the request is passed on and becomes the only entry. *)
Theorem rate_limit_reset :
  forall (self : t) (request : Request) (now : Z),
    is_health request = false ->
    1 <= requests_per_minute self ->
    Forall (fun s => s <= now - minute) (stored self (client_id request)) ->
    snd (dispatch self request now) = CallNext request id
    /\ stored (fst (dispatch self request now)) (client_id request) = [now].
Proof.
  intros self request now Hh Hrpm Hold.
  assert (clean now (stored self (client_id request)) = []) as E.
  { unfold clean. cbv zeta. induction Hold as [|x l Hx _ IH]; [reflexivity|].
    rewrite filter_cons_False by lia. exact IH. }
  rewrite dispatch_action, dispatch_stored, Hh, E.
  rewrite decide_True by reflexivity. cbv zeta. rewrite ?E. simpl length.
  change (Z.of_nat 0) with 0.
  rewrite (proj2 (Z.leb_gt (requests_per_minute self) 0)) by lia. by split.
Qed.

Lemma rate_limit_reset_witness :
  snd (dispatch (fst (run (init 1) [(sample_request, 0)])) sample_request minute)
  = CallNext sample_request id
  /\ stored (fst (dispatch (fst (run (init 1) [(sample_request, 0)]))
                    sample_request minute)) (client_id sample_request)
     = [minute].
Proof.
  apply (rate_limit_reset (fst (run (init 1) [(sample_request, 0)]))
           sample_request minute).
  - reflexivity.
  - vm_compute. discriminate.
  - vm_compute. repeat constructor. discriminate.
Defined.

End RateLimitingMore.

(** ** Authentication: what gets through *)

Section AuthenticationMore.
Import Http AuthenticationMiddleware.

Lemma no_bearer_false auth_header :
  no_bearer auth_header = false ->
  exists h, auth_header = Some h /\ Py.startswith h "Bearer " = true.
Proof.
  unfold no_bearer. destruct auth_header as [h|]; [|discriminate].
  intros H. apply orb_false_iff in H as [_ H]. apply negb_false_iff in H.
  by exists h.
Qed.

(** X6.  No way round the token check: a request outside the public paths goes
    on to the inner handler only with an [Authorization] header that starts
    with "Bearer " and whose token [verify_token] accepts; what goes on is
    the request itself with [state.user_id] set to the verified user.  When
    [verify_token] raises, the answer is the 401 for an invalid token. *)
Theorem authentication_no_bypass :
  forall (verify_token : string -> Py.result Z) (request : Request),
    is_public request = false ->
    (forall request' after,
       dispatch verify_token request = CallNext request' after ->
       exists h user_id,
         getheader (req_headers request) "Authorization" = Some h
         /\ Py.startswith h "Bearer " = true
         /\ verify_token (bearer_token h) = Py.Ok user_id
         /\ request' = set_user_id request user_id)
    /\ (forall h e,
          getheader (req_headers request) "Authorization" = Some h ->
          Py.startswith h "Bearer " = true ->
          verify_token (bearer_token h) = Py.Raise e ->
          dispatch verify_token request
          = Return (unauthorized "Invalid or expired token")).
Proof.
  intros verify_token request Hp. unfold is_public in Hp.
  unfold dispatch. rewrite Hp. split.
  - intros request' after.
    destruct (no_bearer _) eqn:Hn; [discriminate|].
    apply no_bearer_false in Hn as (h & Hh & Hs). rewrite Hh. simpl default.
    fold (bearer_token h).
    destruct (verify_token (bearer_token h)) as [user_id|e] eqn:Hv; [|discriminate].
    intros [= <- _]. by exists h, user_id.
  - intros h e Hh Hs Hv. rewrite Hh. unfold no_bearer. rewrite Hs.
    assert (String.eqb h EmptyString = false) as ->.
    { destruct h; [discriminate Hs | reflexivity]. }
    simpl. fold (bearer_token h). by rewrite Hv.
Qed.

Lemma authentication_no_bypass_witness :
  dispatch (fun _ => Py.Raise (Py.ValueError "Invalid token")) bearer_request
  = Return (unauthorized "Invalid or expired token").
Proof.
  apply (proj2 (authentication_no_bypass
                  (fun _ => Py.Raise (Py.ValueError "Invalid token"))
                  bearer_request eq_refl)
           "Bearer abc.def.ghi" (Py.ValueError "Invalid token"));
    reflexivity.
Defined.

Lemma split_chars_word sep w cur l :
  existsb (fun c => Ascii.eqb c sep) w = false ->
  Py.split_chars sep cur (w ++ l) = Py.split_chars sep (rev w ++ cur) l.
Proof.
  revert cur. induction w as [|c w IH]; intros cur H; [reflexivity|].
  simpl in H. apply orb_false_iff in H as [Hc Hw].
  simpl. rewrite Hc, IH by exact Hw. by rewrite <- app_assoc.
Qed.

Lemma chars_append s1 s2 : Py.chars (s1 +:+ s2) = Py.chars s1 ++ Py.chars s2.
Proof.
  unfold Py.chars. induction s1 as [|c s1 IH]; [reflexivity|].
  simpl. by rewrite <- IH.
Qed.

Lemma of_chars_chars s : Py.of_chars (Py.chars s) = s.
Proof. apply string_of_list_ascii_of_string. Qed.

(** X7.  The token handed to [verify_token] is the text between "Bearer " and
    the next blank, or the end of the header; it is empty when a second blank
    follows at once. *)
Theorem bearer_token_extracted :
  forall token rest : string,
    has_space token = false ->
    (rest = EmptyString \/ Py.startswith rest " " = true) ->
    bearer_token ("Bearer " +:+ token +:+ rest) = token.
Proof.
  intros token rest Ht Hr. unfold bearer_token, Py.split.
  rewrite !chars_append.
  change (Py.chars "Bearer ") with (Py.chars "Bearer" ++ [" "%char]).
  rewrite <- app_assoc.
  rewrite (split_chars_word " " (Py.chars "Bearer")) by reflexivity.
  cbn [app Py.split_chars Ascii.eqb]. simpl Ascii.eqb. cbn [map nth].
  unfold has_space in Ht.
  rewrite (split_chars_word " " (Py.chars token)) by exact Ht.
  rewrite app_nil_r.
  destruct Hr as [->|Hr].
  - simpl. by rewrite ?app_nil_r, rev_involutive, of_chars_chars.
  - destruct rest as [|c rest]; [discriminate|].
    unfold Py.startswith in Hr. cbn [String.prefix] in Hr.
    destruct (Ascii.ascii_dec " " c) as [<-|]; [|discriminate].
    simpl. by rewrite ?app_nil_r, rev_involutive, of_chars_chars.
Qed.

Lemma bearer_token_extracted_witness :
  bearer_token ("Bearer " +:+ "abc.def" +:+ " trailing") = "abc.def"
  /\ bearer_token ("Bearer " +:+ EmptyString +:+ " abc") = EmptyString.
Proof.
  split.
  - apply (bearer_token_extracted "abc.def" " trailing"); [reflexivity|].
    right. reflexivity.
  - apply (bearer_token_extracted EmptyString " abc"); [reflexivity|].
    right. reflexivity.
Defined.

Lemma prefix_append p s : String.prefix p (p +:+ s) = true.
Proof.
  induction p as [|c p IH]; [by destruct s|].
  change (String c p +:+ s) with (String c (p +:+ s)).
  cbn [String.prefix].
  destruct (Ascii.ascii_dec c c); [exact IH | contradiction].
Qed.

(** X8.  Public paths are matched as prefixes: every path that begins like a
    public path is passed on without any check of the headers, whatever
    follows the prefix. *)
Theorem public_prefix_unchecked :
  forall (verify_token : string -> Py.result Z) (request : Request)
         (path rest : string),
    In path public_paths ->
    url_path request = path +:+ rest ->
    dispatch verify_token request = CallNext request id.
Proof.
  intros verify_token request path rest Hin Hp. unfold dispatch.
  assert (existsb (fun path => Py.startswith (url_path request) path) public_paths
          = true) as ->; [|reflexivity].
  apply existsb_exists. exists path. split; [exact Hin|].
  rewrite Hp. apply prefix_append.
Qed.

Lemma public_prefix_unchecked_witness :
  dispatch (fun _ => Py.Raise (Py.ValueError "Invalid token")) health_lookalike
  = CallNext health_lookalike id.
Proof.
  apply (public_prefix_unchecked _ health_lookalike "/health" "care/records").
  - simpl. tauto.
  - reflexivity.
Defined.

End AuthenticationMore.

(** ** Maintenance mode *)

Section Maintenance.
Import Http MaintenanceModeMiddleware.

Lemma message_cases settings :
  message settings <> EmptyString
  /\ (forall configured,
        MAINTENANCE_MESSAGE settings = Some configured ->
        configured <> EmptyString ->
        message settings = configured)
  /\ (MAINTENANCE_MESSAGE settings = None
      \/ MAINTENANCE_MESSAGE settings = Some EmptyString ->
      message settings = "We'll be back soon!").
Proof.
  unfold message. destruct (MAINTENANCE_MESSAGE settings) as [m|].
  - destruct (String.eqb_spec m EmptyString) as [->|Hm].
    + split; [discriminate|]. split; [|reflexivity].
      intros c [= <-] Hc. by destruct Hc.
    + split; [exact Hm|]. split; [by intros c [= <-] _|].
      intros [H|[= H]]; [discriminate | by destruct Hm].
  - split; [discriminate|]. split; [discriminate | reflexivity].
Qed.

(** X9.  In maintenance mode a request reaches the inner handler exactly when
    its path is [/health], the whole path and not a prefix of it; every other
    request is answered with status 503 and a message: the configured one
    when one is configured and it is not empty, and the default
    [We'll be back soon!] when none or an empty one is configured; so the
    message is never empty.  Out of maintenance mode every request is passed
    on. *)
Theorem maintenance_mode_dispatch :
  forall (settings : Settings) (request : Request),
    (MAINTENANCE_MODE settings = true ->
       (reaches_inner (dispatch settings request) = true
        <-> url_path request = "/health")
       /\ (url_path request <> "/health" ->
           exists m,
             dispatch settings request
             = Return (JSONResponse 503
                         (JDict [("error", JStr "Service under maintenance");
                                 ("message", JStr m)]) [])
             /\ m <> EmptyString
             /\ (forall configured,
                   MAINTENANCE_MESSAGE settings = Some configured ->
                   configured <> EmptyString ->
                   m = configured)
             /\ (MAINTENANCE_MESSAGE settings = None
                 \/ MAINTENANCE_MESSAGE settings = Some EmptyString ->
                 m = "We'll be back soon!")))
    /\ (MAINTENANCE_MODE settings = false ->
        dispatch settings request = CallNext request id).
Proof.
  intros settings request. unfold dispatch. split.
  - intros ->. destruct (String.eqb_spec (url_path request) "/health") as [E|E].
    + split; [by split | contradiction].
    + split; [split; [discriminate | contradiction]|].
      intros _. exists (message settings).
      split; [reflexivity | apply message_cases].
  - intros ->. by destruct (String.eqb _ _).
Qed.

Lemma maintenance_mode_dispatch_witness :
  exists m,
    dispatch (mkSettings true (Some "Back at noon")) health_lookalike
    = Return (JSONResponse 503
                (JDict [("error", JStr "Service under maintenance");
                        ("message", JStr m)]) [])
    /\ m <> EmptyString
    /\ (forall configured,
          Some "Back at noon" = Some configured ->
          configured <> EmptyString ->
          m = configured)
    /\ (Some "Back at noon" = None \/ Some "Back at noon" = Some EmptyString ->
        m = "We'll be back soon!").
Proof.
  apply (proj2 (proj1 (maintenance_mode_dispatch
                         (mkSettings true (Some "Back at noon")) health_lookalike)
                  eq_refl)).
  discriminate.
Defined.

End Maintenance.

(** ** The order of the middleware *)

Section Stack.
Import Http.

Lemma jsonresponse_no_headers status body name :
  getheader (headers (JSONResponse status body [])) name = None.
Proof. unfold getheader, JSONResponse. simpl. apply lookup_empty. Qed.

(** X10.  The order in which [setup_middleware] registers the middleware decides
    which answers carry the security headers.  A request turned down by the
    rate limiter is answered outside [SecurityHeadersMiddleware]: its 429
    response has none of the five headers.  A request the limiter lets through
    in maintenance mode is answered inside it: its 503 response carries them.
    And a health check passes all three and gets the five headers on the way
    back. *)
Theorem setup_middleware_order :
  forall (settings : MaintenanceModeMiddleware.Settings)
         (limiter : RateLimitMiddleware.t) (request : Request) (now : Z),
    (RateLimitMiddleware.is_health request = false ->
     reaches_inner (snd (RateLimitMiddleware.dispatch limiter request now)) = false ->
     exists response,
       snd (SetupMiddleware.dispatch settings limiter request now) = Return response
       /\ status_code response = 429
       /\ forall name value,
            In (name, value) SecurityHeadersMiddleware.security_headers ->
            getheader (headers response) name = None)
    /\ (RateLimitMiddleware.is_health request = false ->
        reaches_inner (snd (RateLimitMiddleware.dispatch limiter request now)) = true ->
        MaintenanceModeMiddleware.MAINTENANCE_MODE settings = true ->
        exists response,
          snd (SetupMiddleware.dispatch settings limiter request now) = Return response
          /\ status_code response = 503
          /\ forall name value,
               In (name, value) SecurityHeadersMiddleware.security_headers ->
               getheader (headers response) name = Some value)
    /\ (RateLimitMiddleware.is_health request = true ->
        exists after,
          snd (SetupMiddleware.dispatch settings limiter request now)
          = CallNext request after
          /\ forall r, after r = SecurityHeadersMiddleware.add_security_headers r).
Proof.
  intros settings limiter request now.
  unfold SetupMiddleware.dispatch.
  pose proof (dispatch_action limiter request now) as Ha.
  destruct (RateLimitMiddleware.dispatch limiter request now) as [limiter' a].
  simpl snd in *. subst a.
  split; [|split]; intros Hh; rewrite Hh.
  - destruct (_ <=? _); [|discriminate]. intros _.
    eexists. split; [reflexivity|]. split; [reflexivity|].
    intros name value _. apply jsonresponse_no_headers.
  - destruct (_ <=? _); [discriminate|]. intros _ Hm.
    unfold SetupMiddleware.around, SecurityHeadersMiddleware.dispatch,
      MaintenanceModeMiddleware.dispatch.
    unfold RateLimitMiddleware.is_health in Hh. rewrite Hh, Hm.
    eexists. split; [reflexivity|]. split; [reflexivity|].
    intros name value Hin. unfold id, getheader.
    rewrite add_security_headers_lookup.
    simpl in Hin.
    repeat (destruct Hin as [[= <- <-]|Hin]; [reflexivity|]).
    destruct Hin.
  - unfold SetupMiddleware.around, SecurityHeadersMiddleware.dispatch,
      MaintenanceModeMiddleware.dispatch.
    unfold RateLimitMiddleware.is_health in Hh. rewrite Hh.
    eexists. split; [reflexivity|]. reflexivity.
Qed.

Lemma setup_middleware_order_witness :
  exists response,
    snd (SetupMiddleware.dispatch
           (MaintenanceModeMiddleware.mkSettings false None)
           (fst (RateLimitMiddleware.run (RateLimitMiddleware.init 1)
                   [(sample_request, 0)]))
           sample_request 1) = Return response
    /\ status_code response = 429
    /\ forall name value,
         In (name, value) SecurityHeadersMiddleware.security_headers ->
         getheader (headers response) name = None.
Proof.
  apply (proj1 (setup_middleware_order
                  (MaintenanceModeMiddleware.mkSettings false None)
                  (fst (RateLimitMiddleware.run (RateLimitMiddleware.init 1)
                          [(sample_request, 0)]))
                  sample_request 1)); reflexivity.
Defined.

End Stack.

(** ** Slugs: idempotence and length *)

Section SlugsMore.
Local Open Scope nat_scope.
Import Re PydanticModels.

(** Facts about single characters, checked on all of them. *)
Lemma slug_text_char_cases c :
  implb (slug_char c || hyphen c)
        (negb (not_word_space_hyphen c) && Ascii.eqb (Py.lower_char c) c) = true.
Proof. destruct c as [[] [] [] [] [] [] [] []]; reflexivity. Qed.

Lemma hyphen_char_cases c :
  implb (hyphen c)
        (space_underscore_hyphen c && negb (slug_char c) && Ascii.eqb c "-") = true.
Proof. destruct c as [[] [] [] [] [] [] [] []]; reflexivity. Qed.

Lemma slug_shaped_chars pw l :
  slug_shaped pw l = true -> Forall (fun c => slug_char c || hyphen c = true) l.
Proof.
  revert pw. induction l as [|c l IH]; intros pw H; [constructor|].
  cbn [slug_shaped] in H. destruct (slug_char c) eqn:Es.
  - constructor; [by rewrite Es | by apply (IH true)].
  - destruct (hyphen c) eqn:Eh; [|discriminate].
    apply andb_true_iff in H as [_ H].
    constructor; [by rewrite Es, Eh | by apply (IH false)].
Qed.

Lemma slug_shaped_last pw l :
  slug_shaped pw l = true ->
  match last l with Some c => slug_char c = true | None => pw = true end.
Proof.
  revert pw. induction l as [|c l IH]; intros pw H; [exact H|].
  cbn [slug_shaped] in H. rewrite last_cons.
  destruct (slug_char c) eqn:Es.
  - specialize (IH true H). destruct (last l); [exact IH | exact Es].
  - destruct (hyphen c); [|discriminate].
    apply andb_true_iff in H as [_ H]. specialize (IH false H).
    destruct (last l); [exact IH | discriminate].
Qed.

Lemma lower_filter_fixed l :
  Forall (fun c => slug_char c || hyphen c = true) l ->
  List.filter (fun c => negb (not_word_space_hyphen c)) (map Py.lower_char l) = l.
Proof.
  induction 1 as [|c l Hc _ IH]; [reflexivity|].
  pose proof (slug_text_char_cases c) as K. rewrite Hc in K. simpl in K.
  apply andb_true_iff in K as [Kk Kl]. apply Ascii.eqb_eq in Kl.
  cbn [map List.filter]. rewrite Kl, Kk. by rewrite IH.
Qed.

Lemma squeeze_shaped pw l :
  slug_shaped pw l = true ->
  squeeze space_underscore_hyphen ["-"%char] (negb pw) l = l.
Proof.
  revert pw. induction l as [|c l IH]; intros pw H; [reflexivity|].
  cbn [slug_shaped] in H. cbn [squeeze].
  destruct (slug_char c) eqn:Es.
  - pose proof (slug_char_cases c) as K. rewrite Es in K. simpl in K.
    apply andb_true_iff in K as [Kq _]. apply negb_true_iff in Kq.
    rewrite Kq. f_equal. exact (IH true H).
  - destruct (hyphen c) eqn:Eh; [|discriminate].
    apply andb_true_iff in H as [-> H].
    pose proof (hyphen_char_cases c) as K. rewrite Eh in K. simpl in K.
    apply andb_true_iff in K as [K Kc]. apply andb_true_iff in K as [Kq _].
    apply Ascii.eqb_eq in Kc. rewrite Kq. simpl. subst c. f_equal.
    exact (IH false H).
Qed.

Lemma squeeze_starts_with_word l :
  slug_shaped false l = true ->
  squeeze space_underscore_hyphen ["-"%char] false l
  = squeeze space_underscore_hyphen ["-"%char] true l.
Proof.
  destruct l as [|c l]; [discriminate|].
  cbn [slug_shaped squeeze]. destruct (slug_char c) eqn:Es.
  - pose proof (slug_char_cases c) as K. rewrite Es in K. simpl in K.
    apply andb_true_iff in K as [Kq _]. apply negb_true_iff in Kq.
    by rewrite Kq.
  - destruct (hyphen c); discriminate.
Qed.

Lemma lstrip_fixed c l :
  (forall x t, l = x :: t -> x <> c) -> Py.lstrip_chars c l = l.
Proof.
  destruct l as [|x t]; [reflexivity|]. intros H. cbn [Py.lstrip_chars].
  destruct (Ascii.eqb_spec x c) as [->|]; [|reflexivity].
  by destruct (H c t eq_refl).
Qed.

Lemma strip_shaped l :
  slug_shaped false l = true -> Py.strip_chars "-" l = l.
Proof.
  intros H. unfold Py.strip_chars.
  assert (forall c, slug_char c = true -> c <> "-"%char) as Hne.
  { intros c Hc ->. discriminate Hc. }
  rewrite (lstrip_fixed "-" l).
  2:{ intros x t ->. cbn [slug_shaped] in H.
      destruct (slug_char x) eqn:Es; [by apply Hne|].
      destruct (hyphen x); discriminate. }
  rewrite (lstrip_fixed "-" (rev l)); [apply rev_involutive|].
  intros x t Hr. pose proof (slug_shaped_last false l H) as Hl.
  assert (last l = Some x) as E.
  { rewrite <- (rev_involutive l), Hr. simpl. apply last_snoc. }
  rewrite E in Hl. by apply Hne.
Qed.

(** Text that already has the shape of a slug passes through the four steps
    unchanged. *)
Lemma slug_generator_fixed s :
  Py.chars s = [] \/ slug_shaped false (Py.chars s) = true ->
  slug_generator s = s.
Proof.
  intros H.
  rewrite <- (string_of_list_ascii_of_string (slug_generator s)).
  rewrite <- (string_of_list_ascii_of_string s) at 2.
  f_equal. fold (Py.chars (slug_generator s)). fold (Py.chars s).
  rewrite slug_generator_chars.
  destruct H as [->|H]; [reflexivity|].
  rewrite lower_filter_fixed by (by eapply slug_shaped_chars).
  rewrite squeeze_starts_with_word by exact H.
  pose proof (squeeze_shaped false _ H) as E. cbn [negb] in E.
  rewrite E. by apply strip_shaped.
Qed.

(** X11.  [slug_generator] is idempotent: a slug it has made is left as it is. *)
Theorem slug_generator_idempotent :
  forall v : string,
    seven_bit v -> slug_generator (slug_generator v) = slug_generator v.
Proof. intros v _. apply slug_generator_fixed, slug_generator_shape. Qed.

Lemma slug_generator_idempotent_witness :
  slug_generator (slug_generator "Hello,  World__ - again!")
  = slug_generator "Hello,  World__ - again!".
Proof.
  apply (slug_generator_idempotent "Hello,  World__ - again!").
  unfold seven_bit. simpl. repeat constructor.
Defined.

Lemma lstrip_length c l : length (Py.lstrip_chars c l) <= length l.
Proof.
  induction l as [|x l IH]; [reflexivity|]. cbn [Py.lstrip_chars].
  destruct (Ascii.eqb x c); simpl; lia.
Qed.

Lemma strip_length c l : length (Py.strip_chars c l) <= length l.
Proof.
  unfold Py.strip_chars. rewrite length_rev.
  etrans; [apply lstrip_length|]. rewrite length_rev. apply lstrip_length.
Qed.

Lemma squeeze_length q x b l : length (squeeze q [x] b l) <= length l.
Proof.
  revert b. induction l as [|c l IH]; intros b; [reflexivity|].
  cbn [squeeze]. destruct (q c); [destruct b|]; simpl.
  - specialize (IH true). lia.
  - specialize (IH true). lia.
  - specialize (IH false). lia.
Qed.

(** X12.  A slug is never longer than the title it is made from. *)
Theorem slug_generator_length :
  forall v : string,
    seven_bit v -> String.length (slug_generator v) <= String.length v.
Proof.
  intros v _. rewrite <- !length_chars, slug_generator_chars.
  etrans; [apply strip_length|]. etrans; [apply squeeze_length|].
  etrans; [apply List.filter_length_le|]. by rewrite length_map.
Qed.

Lemma slug_generator_length_witness :
  String.length (slug_generator "Hello,  World__ - again!")
  <= String.length "Hello,  World__ - again!".
Proof.
  apply (slug_generator_length "Hello,  World__ - again!").
  unfold seven_bit. simpl. repeat constructor.
Defined.

End SlugsMore.

(** ** User names and passwords, exactly *)

Section RegexMore.
Local Open Scope nat_scope.
Import Re PydanticModels PydanticModelsMore.

Lemma chomp_cases l :
  (chomp l = l /\ last l <> Some newline)
  \/ (l = chomp l ++ [newline]).
Proof.
  unfold chomp. destruct (last l) as [c|] eqn:E.
  - destruct (Ascii.eqb_spec c newline) as [->|Hc].
    + right. apply last_Some in E as [l' ->]. by rewrite removelast_last.
    + left. split; [reflexivity|]. congruence.
  - left. split; [reflexivity | discriminate].
Qed.

(** What the end of a bounded run of a character set followed by [$]
    accepts: the run is the whole text, a final newline apart. *)
Lemma run_then_eol p lo hi l :
  p newline = false ->
  (exists k, lo <= k /\ k <= hi /\ k <= length l
             /\ Forall (fun c => p c = true) (take k l)
             /\ (drop k l = [] \/ drop k l = [newline]))
  <-> lo <= length (chomp l) <= hi /\ Forall (fun c => p c = true) (chomp l).
Proof.
  intros Hnl. split.
  - intros (k & Hlo & Hhi & Hk & Hf & He).
    destruct He as [He|He].
    + assert (k = length l) as ->.
      { apply (f_equal length) in He. rewrite length_drop in He. simpl in He. lia. }
      rewrite firstn_all in Hf.
      destruct (chomp_cases l) as [[-> _]|E]; [by split|].
      exfalso. rewrite E in Hf. apply Forall_app in Hf as [_ Hf].
      apply Forall_inv in Hf. congruence.
    + assert (l = take k l ++ [newline]) as E by (by rewrite <- He, take_drop).
      assert (chomp l = take k l) as ->.
      { etrans; [apply (f_equal chomp E)|].
        unfold chomp. rewrite last_snoc.
        rewrite (proj2 (Ascii.eqb_eq newline newline)) by reflexivity.
        by rewrite removelast_last. }
      rewrite length_take. split; [lia | exact Hf].
  - intros [[Hlo Hhi] Hf]. exists (length (chomp l)).
    destruct (chomp_cases l) as [[E _]|E].
    + rewrite E in *. split; [exact Hlo|]. split; [exact Hhi|]. split; [lia|].
      rewrite firstn_all. split; [exact Hf|]. left. apply drop_all.
    + remember (chomp l) as b eqn:Hb. clear Hb. subst l.
      split; [exact Hlo|]. split; [exact Hhi|].
      split; [rewrite length_app; lia|].
      rewrite take_app_length, drop_app_length.
      split; [exact Hf | by right].
Qed.

Lemma accepts_username l :
  accepts USERNAME_PATTERN (O, l)
  <-> 3 <= length (chomp l) <= 30
      /\ Forall (fun c => username_char c = true) (chomp l).
Proof.
  rewrite <- (run_then_eol username_char 3 30 l) by reflexivity.
  unfold USERNAME_PATTERN. split.
  - intros H.
    apply accepts_seq in H as (st & H0 & H). apply in_rem_bol in H0 as [-> _].
    apply accepts_seq in H as (st & H1 & H).
    apply in_rem_rep, reps_cls in H1 as (k & Hlo & Hhi & Hk & Hf & ->).
    apply accepts_eol in H. simpl in H. specialize (Hhi 30 eq_refl).
    exists k. by repeat split.
  - intros (k & Hlo & Hhi & Hk & Hf & He).
    apply accepts_seq. exists (O, l). split; [by apply in_rem_bol|].
    apply accepts_seq. exists (0 + k, drop k l). split.
    + apply in_rem_rep, reps_cls. exists k.
      split; [lia|]. split; [intros h [= <-]; lia|]. by repeat split.
    + by apply accepts_eol.
Qed.

Lemma lower_char_not_upper c : Py.is_upper (Py.lower_char c) = false.
Proof. destruct c as [[] [] [] [] [] [] [] []]; reflexivity. Qed.

Lemma chars_lower s : Py.chars (Py.lower s) = map Py.lower_char (Py.chars s).
Proof. unfold Py.lower. apply chars_of_chars. Qed.

Lemma lower_char_fixed c : Py.is_upper c = false -> Py.lower_char c = c.
Proof. intros H. unfold Py.lower_char. by rewrite H. Qed.

Lemma lower_char_upper c :
  Py.is_upper c = true ->
  Py.is_lower (Py.lower_char c) = true
  /\ Py.code (Py.lower_char c) = Py.code c + 32.
Proof.
  assert (implb (Py.is_upper c)
            (Py.is_lower (Py.lower_char c)
             && (Py.code (Py.lower_char c) =? Py.code c + 32)) = true) as K
    by (destruct c as [[] [] [] [] [] [] [] []]; reflexivity).
  intros H. rewrite H in K. simpl in K. apply andb_true_iff in K as [K1 K2].
  split; [exact K1 | by apply Nat.eqb_eq].
Qed.

(** X13.  The [username] field takes exactly the texts of 3 to 30 letters, digits
    and underscores, a final newline that [$] lets through apart; what it
    keeps is the input in lower case: character by character the input,
    with each letter [A-Z] replaced by the lowercase letter 32 places up and
    every other character as it is.  So the value kept is as long as the
    input, has no uppercase letter, and is the input itself when that has no
    uppercase letter. *)
Theorem username_field_accepts :
  forall v : string,
    seven_bit v ->
    (is_Some (username_field v)
     <-> 3 <= length (chomp (Py.chars v)) <= 30
         /\ Forall (fun c => username_char c = true) (chomp (Py.chars v)))
    /\ (forall u, username_field v = Some u ->
          String.length u = String.length v
          /\ Forall (fun c => Py.is_upper c = false) (Py.chars u)
          /\ Forall2 (fun c d =>
                        if Py.is_upper c
                        then Py.is_lower d = true /\ Py.code d = Py.code c + 32
                        else d = c)
                     (Py.chars v) (Py.chars u)
          /\ (Forall (fun c => Py.is_upper c = false) (Py.chars v) -> u = v)).
Proof.
  intros v _. unfold username_field. split.
  - rewrite <- accepts_username, <- re_match_accepts.
    destruct (re_match USERNAME_PATTERN v); split; done.
  - destruct (re_match USERNAME_PATTERN v); [|discriminate].
    intros u [= <-]. unfold username_lowercase.
    rewrite <- !length_chars, chars_lower, length_map. split; [reflexivity|].
    split.
    { apply Forall_forall. intros c Hc. apply list_elem_of_In in Hc.
      apply in_map_iff in Hc as (c0 & <- & _). apply lower_char_not_upper. }
    split.
    { induction (Py.chars v) as [|c l IH]; [constructor|].
      cbn [map]. constructor; [|exact IH].
      destruct (Py.is_upper c) eqn:E;
        [by apply lower_char_upper | by apply lower_char_fixed]. }
    intros Hl.
    rewrite <- (string_of_list_ascii_of_string (Py.lower v)).
    rewrite <- (string_of_list_ascii_of_string v) at 2.
    f_equal. fold (Py.chars (Py.lower v)). fold (Py.chars v).
    rewrite chars_lower.
    induction Hl as [|c l Hc _ IH]; [reflexivity|].
    cbn [map]. by rewrite IH, lower_char_fixed.
Qed.

Lemma username_field_accepts_witness :
  String.length "john_doe" = String.length "John_Doe"
  /\ Forall (fun c => Py.is_upper c = false) (Py.chars "john_doe")
  /\ Forall2 (fun c d =>
                if Py.is_upper c
                then Py.is_lower d = true /\ Py.code d = Py.code c + 32
                else d = c)
             (Py.chars "John_Doe") (Py.chars "john_doe")
  /\ (Forall (fun c => Py.is_upper c = false) (Py.chars "John_Doe")
      -> "john_doe" = "John_Doe").
Proof.
  apply (proj2 (username_field_accepts "John_Doe"
                  ltac:(unfold seven_bit; simpl; repeat constructor))).
  reflexivity.
Defined.

Lemma lookup_chomp l k c :
  l !! k = Some c -> c <> newline -> chomp l !! k = Some c.
Proof.
  intros Hk Hc. destruct (chomp_cases l) as [[-> _]|E]; [exact Hk|].
  rewrite E in Hk. apply lookup_app_Some in Hk as [Hk|[Hlen Hk]]; [exact Hk|].
  destruct (k - length (chomp l)); simpl in Hk; [|discriminate].
  injection Hk as <-. contradiction.
Qed.

Lemma take_chomp l k : k < length (chomp l) -> take k l = take k (chomp l).
Proof.
  intros Hk. destruct (chomp_cases l) as [[-> _]|E]; [reflexivity|].
  rewrite E at 1. rewrite take_app_le by lia. reflexivity.
Qed.

Lemma lookup_chomp_inv l k c : chomp l !! k = Some c -> l !! k = Some c.
Proof.
  intros Hk. destruct (chomp_cases l) as [[E _]|E]; [by rewrite E in Hk|].
  rewrite E. by apply lookup_app_l_Some.
Qed.

(** The look-ahead does not see past the password alphabet: it asks for one
    occurrence in the text without its final newline. *)
Lemma somewhere_chomp p l :
  p newline = false ->
  Forall (fun c => password_char c = true) (chomp l) ->
  accepts (somewhere p) (O, l) <-> Exists (fun c => p c = true) (chomp l).
Proof.
  intros Hnl Hs. rewrite accepts_somewhere. split.
  - intros (k & c & _ & Hk & Hp). apply Exists_exists. exists c.
    split; [|exact Hp]. eapply list_elem_of_lookup_2.
    apply lookup_chomp; [exact Hk | congruence].
  - intros H. apply Exists_exists in H as (c & Hc & Hp).
    apply list_elem_of_lookup in Hc as [k Hk]. exists k, c.
    split; [|split; [by apply lookup_chomp_inv | exact Hp]].
    rewrite take_chomp by (by eapply lookup_lt_Some).
    apply Forall_take. eapply Forall_impl; [exact Hs|]. apply password_char_dot.
Qed.

(** X14.  [validate_password] returns its input exactly for the strong passwords
    and for the strong passwords followed by one newline, which [$] lets
    through: the length bound of 8 to 128 is on the text before that newline. *)
Theorem validate_password_accepts :
  forall s : string,
    seven_bit s ->
    (validate_password s = Py.Ok s
     <-> 8 <= length (chomp (Py.chars s)) <= 128
         /\ Forall (fun c => password_char c = true) (chomp (Py.chars s))
         /\ Exists (fun c => Py.is_lower c = true) (chomp (Py.chars s))
         /\ Exists (fun c => Py.is_upper c = true) (chomp (Py.chars s))
         /\ Exists (fun c => Py.is_digit c = true) (chomp (Py.chars s))
         /\ Exists (fun c => special c = true) (chomp (Py.chars s))).
Proof.
  intros s _.
  assert (validate_password s = Py.Ok s <-> accepts PASSWORD_PATTERN (O, Py.chars s))
    as ->.
  { rewrite <- re_match_accepts. unfold validate_password.
    destruct (re_match PASSWORD_PATTERN s); simpl; split; done. }
  rewrite accepts_password.
  assert ((exists k, 8 <= k <= 128 /\ k <= length (Py.chars s)
             /\ Forall (fun c => password_char c = true) (take k (Py.chars s))
             /\ (drop k (Py.chars s) = [] \/ drop k (Py.chars s) = [newline]))
          <-> 8 <= length (chomp (Py.chars s)) <= 128
              /\ Forall (fun c => password_char c = true) (chomp (Py.chars s)))
    as ->.
  { rewrite <- (run_then_eol password_char 8 128) by reflexivity.
    split; intros (k & H); exists k; tauto. }
  split.
  - intros (H1 & H2 & H3 & H4 & Hk & Hf).
    rewrite somewhere_chomp in H1, H2, H3, H4 by (reflexivity || exact Hf).
    tauto.
  - intros (Hk & Hf & H1 & H2 & H3 & H4).
    rewrite !somewhere_chomp by (reflexivity || exact Hf). tauto.
Qed.

Lemma validate_password_accepts_witness :
  validate_password ("Abcdef1@" +:+ String newline EmptyString)
  = Py.Ok ("Abcdef1@" +:+ String newline EmptyString).
Proof.
  apply (proj2 (validate_password_accepts
                  ("Abcdef1@" +:+ String newline EmptyString)
                  ltac:(unfold seven_bit; vm_compute; repeat constructor))).
  vm_compute chomp.
  split; [simpl; lia|]. split; [repeat constructor|].
  repeat split; apply (bool_decide_unpack _); vm_compute; reflexivity.
Defined.

End RegexMore.

(** ** Password change and password reset, exactly *)

Section PasswordChangeMore.
Import Pydantic PydanticModels.

Lemma password_validators_pass v (values : gmap string string) v' :
  apply_validators [min_length 8; max_length 128; plain validate_password] v values
  = Pass v'
  <-> v' = v /\ (8 <= String.length v <= 128)%nat /\ validate_password v = Py.Ok v.
Proof.
  simpl. unfold min_length, max_length, plain.
  destruct (Nat.ltb_spec (String.length v) 8).
  { split; [discriminate | intros (_ & ? & _); lia]. }
  destruct (Nat.ltb_spec 128 (String.length v)).
  { split; [discriminate | intros (_ & ? & _); lia]. }
  destruct (validate_password_cases v) as [E | [m E]]; rewrite E; simpl.
  - split; [intros [= <-]; repeat split; lia | by intros (-> & _)].
  - split; [discriminate | intros (_ & _ & ?); discriminate].
Qed.

Lemma min_length_pass n v (values : gmap string string) v' :
  apply_validators [min_length n] v values = Pass v'
  <-> v' = v /\ (n <= String.length v)%nat.
Proof.
  simpl. unfold min_length. destruct (Nat.ltb_spec (String.length v) n).
  - split; [discriminate | intros [_ ?]; lia].
  - split; [by intros [= <-] | by intros [-> _]].
Qed.

(** X15.  On fields that hold 7-bit text, [PasswordChange] is accepted exactly
    when the three fields are supplied, [current_password] is not empty,
    [new_password] has 8 to 128 characters and passes [validate_password],
    [confirm_password] equals it and [current_password] differs from it; the
    validated values are then the three inputs as they were given. *)
Theorem password_change_accepts :
  forall (i : PasswordChange.input) (values : gmap string string),
    seven_bit_field (PasswordChange.current_password i) ->
    seven_bit_field (PasswordChange.new_password i) ->
    seven_bit_field (PasswordChange.confirm_password i) ->
    PasswordChange.validate i = Valid values
    <-> exists current new,
          PasswordChange.current_password i = Some current
          /\ PasswordChange.new_password i = Some new
          /\ PasswordChange.confirm_password i = Some new
          /\ (1 <= String.length current)%nat
          /\ (8 <= String.length new <= 128)%nat
          /\ validate_password new = Py.Ok new
          /\ new <> current
          /\ values = <["confirm_password" := new]>
                        (<["new_password" := new]>
                           (<["current_password" := current]> ∅)).
Proof.
  intros i values _ _ _. unfold PasswordChange.validate.
  change (plain PasswordChange.password_strength) with (plain validate_password).
  split.
  - intros H. apply finish_valid in H as [He ->].
    apply root_ok in He as [He Hr]. revert Hr.
    apply field_ok in He as (He & w & w' & Hw & Hw' & ->).
    apply field_ok in He as (He & n & n' & Hn & Hn' & ->).
    apply field_ok in He as (_ & c & c' & Hc & Hc' & ->).
    apply password_validators_pass in Hn' as (-> & Hlen & Hv).
    apply min_length_pass in Hc' as (-> & Hclen).
    simpl in Hw'. injection Hw' as <-. simpl fst.
    unfold PasswordChange.passwords_match.
    rewrite lookup_insert_eq.
    rewrite (lookup_insert_ne _ "confirm_password" "new_password") by done.
    rewrite lookup_insert_eq.
    rewrite (lookup_insert_ne _ "confirm_password" "current_password") by done.
    rewrite (lookup_insert_ne _ "new_password" "current_password") by done.
    rewrite lookup_insert_eq.
    case_decide as Hd; [discriminate|]. case_decide as Hne; [discriminate|].
    intros [= <-]. injection Hd as ->.
    exists c, w. repeat split; try assumption; try lia. congruence.
  - intros (c & n & Hc & Hn & Hw & Hclen & Hlen & Hv & Hne & ->).
    rewrite Hc, Hn, Hw. unfold Pydantic.field. simpl fst. simpl snd.
    rewrite (proj2 (min_length_pass 1 c ∅ c)) by (split; [reflexivity | lia]).
    simpl fst. simpl snd.
    rewrite (proj2 (password_validators_pass n (<["current_password" := c]> ∅) n))
      by (split; [reflexivity | split; assumption]).
    simpl apply_validators. simpl fst. simpl snd.
    unfold root, PasswordChange.passwords_match. simpl fst.
    rewrite lookup_insert_eq.
    rewrite (lookup_insert_ne _ "confirm_password" "new_password") by done.
    rewrite lookup_insert_eq.
    rewrite (lookup_insert_ne _ "confirm_password" "current_password") by done.
    rewrite (lookup_insert_ne _ "new_password" "current_password") by done.
    rewrite lookup_insert_eq.
    rewrite decide_False by (intros ?; congruence).
    rewrite decide_False by congruence.
    reflexivity.
Qed.

Lemma password_change_accepts_witness :
  PasswordChange.validate
    (PasswordChange.mkInput (Some "old") (Some "Abcdef1@") (Some "Abcdef1@"))
  = Valid (<["confirm_password" := "Abcdef1@"]>
             (<["new_password" := "Abcdef1@"]>
                (<["current_password" := "old"]> ∅))).
Proof.
  apply (proj2 (password_change_accepts
                  (PasswordChange.mkInput (Some "old") (Some "Abcdef1@") (Some "Abcdef1@"))
                  _
                  ltac:(intros s [= <-]; unfold seven_bit; simpl; repeat constructor)
                  ltac:(intros s [= <-]; unfold seven_bit; simpl; repeat constructor)
                  ltac:(intros s [= <-]; unfold seven_bit; simpl; repeat constructor))).
  exists "old", "Abcdef1@".
  repeat split; try reflexivity; try (simpl; lia). discriminate.
Defined.

(** X16.  On fields that hold 7-bit text, [PasswordReset] is accepted exactly
    when the three fields are supplied, [token] is not empty, [password] has
    8 to 128 characters and passes [validate_password], and
    [confirm_password] equals it; the validated values are then the three
    inputs as they were given. *)
Theorem password_reset_accepts :
  forall (i : PasswordReset.input) (values : gmap string string),
    seven_bit_field (PasswordReset.token i) ->
    seven_bit_field (PasswordReset.password i) ->
    seven_bit_field (PasswordReset.confirm_password i) ->
    PasswordReset.validate i = Valid values
    <-> exists token password,
          PasswordReset.token i = Some token
          /\ PasswordReset.password i = Some password
          /\ PasswordReset.confirm_password i = Some password
          /\ (1 <= String.length token)%nat
          /\ (8 <= String.length password <= 128)%nat
          /\ validate_password password = Py.Ok password
          /\ values = <["confirm_password" := password]>
                        (<["password" := password]>
                           (<["token" := token]> ∅)).
Proof.
  intros i values _ _ _. unfold PasswordReset.validate.
  change (plain PasswordReset.password_strength) with (plain validate_password).
  split.
  - intros H. apply finish_valid in H as [He ->].
    apply root_ok in He as [He Hr]. revert Hr.
    apply field_ok in He as (He & w & w' & Hw & Hw' & ->).
    apply field_ok in He as (He & n & n' & Hn & Hn' & ->).
    apply field_ok in He as (_ & c & c' & Hc & Hc' & ->).
    apply password_validators_pass in Hn' as (-> & Hlen & Hv).
    apply min_length_pass in Hc' as (-> & Hclen).
    simpl in Hw'. injection Hw' as <-. simpl fst.
    unfold PasswordReset.passwords_match.
    rewrite lookup_insert_eq.
    rewrite (lookup_insert_ne _ "confirm_password" "password") by done.
    rewrite lookup_insert_eq.
    case_decide as Hd; [discriminate|].
    intros [= <-]. injection Hd as ->.
    exists c, w. repeat split; try assumption; lia.
  - intros (c & n & Hc & Hn & Hw & Hclen & Hlen & Hv & ->).
    rewrite Hc, Hn, Hw. unfold Pydantic.field. simpl fst. simpl snd.
    rewrite (proj2 (min_length_pass 1 c ∅ c)) by (split; [reflexivity | lia]).
    simpl fst. simpl snd.
    rewrite (proj2 (password_validators_pass n (<["token" := c]> ∅) n))
      by (split; [reflexivity | split; assumption]).
    simpl apply_validators. simpl fst. simpl snd.
    unfold root, PasswordReset.passwords_match. simpl fst.
    rewrite lookup_insert_eq.
    rewrite (lookup_insert_ne _ "confirm_password" "password") by done.
    rewrite lookup_insert_eq.
    rewrite decide_False by (intros ?; congruence).
    reflexivity.
Qed.

Lemma password_reset_accepts_witness :
  PasswordReset.validate
    (PasswordReset.mkInput (Some "tok") (Some "Abcdef1@") (Some "Abcdef1@"))
  = Valid (<["confirm_password" := "Abcdef1@"]>
             (<["password" := "Abcdef1@"]>
                (<["token" := "tok"]> ∅))).
Proof.
  apply (proj2 (password_reset_accepts
                  (PasswordReset.mkInput (Some "tok") (Some "Abcdef1@") (Some "Abcdef1@"))
                  _
                  ltac:(intros s [= <-]; unfold seven_bit; simpl; repeat constructor)
                  ltac:(intros s [= <-]; unfold seven_bit; simpl; repeat constructor)
                  ltac:(intros s [= <-]; unfold seven_bit; simpl; repeat constructor))).
  exists "tok", "Abcdef1@".
  repeat split; try reflexivity; simpl; lia.
Defined.

End PasswordChangeMore.

(** ** The slug pattern, exactly *)

Section SlugPattern.
Local Open Scope nat_scope.
Import Re PydanticModels.

(** What an anchor-free expression reads does not depend on the text that
    follows. *)
Lemma reps_frame (body : state -> list state) t :
  (forall st st', In st' (body st) -> In (fst st', snd st' ++ t) (body (fst st, snd st ++ t))) ->
  forall lo hi st st',
    reps body lo hi st st' ->
    reps body lo hi (fst st, snd st ++ t) (fst st', snd st' ++ t).
Proof.
  intros Hb lo hi st st' H.
  induction H as [hi st|lo hi st st1 st' Hhi H1 Hs H2 IH]; [constructor|].
  apply (reps_more _ _ _ _ (fst st1, snd st1 ++ t)); [exact Hhi | by apply Hb | | exact IH].
  unfold shorter in *. cbn [snd]. apply Nat.ltb_lt in Hs. apply Nat.ltb_lt.
  rewrite !length_app. lia.
Qed.

Lemma rem_frame r t :
  anchor_free r = true ->
  forall st st',
    In st' (rem r st) -> In (fst st', snd st' ++ t) (rem r (fst st, snd st ++ t)).
Proof.
  induction r as [| |p|r1 IH1 r2 IH2|r IH lo hi|r IH]; intros Hr st st' H;
    try discriminate.
  - apply in_rem_cls in H as (c & rest & Hc & Hp & ->).
    apply in_rem_cls. exists c, (rest ++ t). cbn [fst snd]. by rewrite Hc.
  - cbn [anchor_free] in Hr. apply andb_true_iff in Hr as [Hr1 Hr2].
    apply in_rem_seq in H as (st1 & H1 & H2).
    apply in_rem_seq. exists (fst st1, snd st1 ++ t). split.
    + by apply IH1.
    + specialize (IH2 Hr2 st1 st' H2). exact IH2.
  - cbn [anchor_free] in Hr. apply in_rem_rep in H. apply in_rem_rep.
    apply reps_frame; [|exact H]. intros s s' Hs. by apply IH.
Qed.

Lemma chomp_snoc b : chomp (b ++ [newline]) = b.
Proof.
  unfold chomp. rewrite last_snoc.
  rewrite (proj2 (Ascii.eqb_eq newline newline)) by reflexivity.
  by rewrite removelast_last.
Qed.

Lemma chomp_fixed l : last l <> Some newline -> chomp l = l.
Proof.
  intros H. destruct (chomp_cases l) as [[E _]|E]; [exact E|].
  exfalso. apply H. rewrite E. apply last_snoc.
Qed.

Lemma slug_char_not_hyphen c : slug_char c = true -> hyphen c = false.
Proof.
  assert (implb (slug_char c) (negb (hyphen c)) = true) as K
    by (destruct c as [[] [] [] [] [] [] [] []]; reflexivity).
  intros H. rewrite H in K. by apply negb_true_iff in K.
Qed.

Lemma slug_word_shaped pw w m :
  w <> [] -> Forall (fun c => slug_char c = true) w ->
  slug_shaped pw (w ++ m) = slug_shaped true m.
Proof.
  intros Hw Hf. revert pw. induction Hf as [|c w Hc Hf IH]; intros pw; [done|].
  cbn [app slug_shaped]. rewrite Hc.
  destruct w as [|d w]; [reflexivity|]. by apply IH.
Qed.

(** What [(?:-[a-z0-9]+)*] reads has the shape of the rest of a slug. *)
Lemma reps_hyphen_word lo hi st st' :
  reps (rem hyphen_word) lo hi st st' ->
  exists mid, snd st = mid ++ snd st' /\ slug_shaped true mid = true.
Proof.
  intros H. induction H as [hi st|lo hi st st1 st' Hhi H1 Hs H2 IH].
  - by exists [].
  - destruct IH as (mid & E & Hm).
    unfold hyphen_word in H1. apply in_rem_seq in H1 as (st0 & H0 & H1).
    apply in_rem_cls in H0 as (c & rest & Hc & Hh & ->).
    apply in_rem_rep, reps_cls in H1 as (k & Hk & _ & Hkl & Hf & ->).
    cbn [fst snd] in *.
    exists (c :: take k rest ++ mid). split.
    + rewrite Hc. cbn [app]. f_equal. rewrite <- app_assoc, <- E.
      by rewrite take_drop.
    + cbn [slug_shaped]. rewrite Hh.
      destruct (slug_char c) eqn:Es.
      { apply slug_char_not_hyphen in Es. congruence. }
      cbn [andb]. rewrite slug_word_shaped; [exact Hm | | exact Hf].
      destruct rest; [simpl in Hkl; lia|]. destruct k; [lia | discriminate].
Qed.

Lemma slug_shaped_no_newline pw l : slug_shaped pw l = true -> last l <> Some newline.
Proof.
  intros H E. apply slug_shaped_chars in H.
  apply last_Some in E as [l' ->]. apply Forall_app in H as [_ H].
  apply Forall_inv in H. discriminate.
Qed.

(** The two middle parts of the slug pattern read a whole slug. *)
Lemma slug_shaped_reads l :
  slug_shaped false l = true ->
  exists st1,
    In st1 (rem (plus (Cls slug_char)) (O, l))
    /\ In (length l, []) (rem (star hyphen_word) st1).
Proof.
  intros Hs.
  pose proof (slug_shaped_starts l Hs) as Hk.
  pose proof (slug_shaped_run false l Hs) as Hrest.
  rewrite (proj2 (Nat.ltb_lt 0 (run_len slug_char l))) in Hrest by lia.
  simpl in Hrest.
  pose proof (run_len_le slug_char l) as Hle.
  exists (0 + run_len slug_char l, drop (run_len slug_char l) l). split.
  - apply in_rem_rep, reps_cls. exists (run_len slug_char l).
    split; [exact Hk|]. split; [discriminate|]. split; [exact Hle|].
    split; [apply run_len_take | reflexivity].
  - apply in_rem_rep.
    replace (length l)
      with (0 + run_len slug_char l + length (drop (run_len slug_char l) l))
      by (rewrite length_drop; lia).
    apply (slug_tail_reps (length (drop (run_len slug_char l) l)));
      [lia | apply run_len_drop | exact Hrest].
Qed.

Lemma accepts_slug l :
  accepts SLUG_PATTERN (O, l) <-> slug_shaped false (chomp l) = true.
Proof.
  unfold SLUG_PATTERN. split.
  - intros H.
    apply accepts_seq in H as (st & H0 & H). apply in_rem_bol in H0 as [-> _].
    apply accepts_seq in H as (st1 & H1 & H).
    apply in_rem_rep, reps_cls in H1 as (k & Hk & _ & Hkl & Hf & ->).
    apply accepts_seq in H as (st2 & H2 & H).
    apply in_rem_rep, reps_hyphen_word in H2 as (mid & E & Hm).
    cbn [snd] in E.
    assert (slug_shaped false (take k l ++ mid) = true) as Hb.
    { rewrite slug_word_shaped; [exact Hm | | exact Hf].
      destruct l; [simpl in Hkl; lia|]. destruct k; [lia | discriminate]. }
    assert (l = (take k l ++ mid) ++ snd st2) as El.
    { rewrite <- app_assoc, <- E. by rewrite take_drop. }
    apply accepts_eol in H as [He|He]; rewrite He in El.
    + rewrite app_nil_r in El. rewrite <- El in Hb.
      rewrite chomp_fixed; [exact Hb|]. by eapply slug_shaped_no_newline.
    + rewrite El, chomp_snoc. exact Hb.
  - intros Hs.
    destruct (slug_shaped_reads _ Hs) as (st1 & H1 & H2).
    apply accepts_seq. exists (O, l). split; [by apply in_rem_bol|].
    destruct (chomp_cases l) as [[E _]|E].
    + rewrite E in *. apply accepts_seq. exists st1. split; [exact H1|].
      apply accepts_seq. exists (length l, []). split; [exact H2|].
      apply accepts_eol. by left.
    + remember (chomp l) as b eqn:Hb. clear Hb. subst l.
      apply accepts_seq. exists (fst st1, snd st1 ++ [newline]). split.
      { apply (rem_frame (plus (Cls slug_char)) [newline] eq_refl (O, b) st1 H1). }
      apply accepts_seq. exists (length b, [newline]). split.
      { apply (rem_frame (star hyphen_word) [newline] eq_refl st1 (length b, []) H2). }
      apply accepts_eol. by right.
Qed.

Lemma hyphen_is c : hyphen c = true <-> c = "-"%char.
Proof. unfold hyphen. apply Ascii.eqb_eq. Qed.

Lemma slug_shaped_text pw l :
  slug_shaped pw l = true
  <-> Forall (fun c => slug_char c || hyphen c = true) l
      /\ (pw = false -> l <> [] /\ head l <> Some "-"%char)
      /\ last l <> Some "-"%char
      /\ (forall k, l !! k = Some "-"%char -> l !! S k <> Some "-"%char).
Proof.
  revert pw. induction l as [|c l IH]; intros pw.
  - cbn [slug_shaped]. split.
    + intros ->. split; [constructor|]. split; [discriminate|]. by split.
    + intros (_ & H & _). destruct pw; [reflexivity|]. by destruct (H eq_refl).
  - cbn [slug_shaped]. destruct (slug_char c) eqn:Es.
    + assert (c <> "-"%char) as Hc.
      { intros ->. discriminate Es. }
      rewrite IH. split.
      * intros (Hf & _ & Hl & Ha).
        split; [constructor; [by rewrite Es | exact Hf]|].
        split; [intros _; split; [discriminate | simpl; congruence]|].
        split.
        { rewrite last_cons. destruct (last l); [exact Hl | congruence]. }
        intros [|k]; simpl; [congruence | apply Ha].
      * intros (Hf & _ & Hl & Ha).
        split; [by inversion Hf|]. split; [discriminate|]. split.
        { rewrite last_cons in Hl. destruct (last l); [exact Hl | discriminate]. }
        intros k. apply (Ha (S k)).
    + destruct (hyphen c) eqn:Eh.
      * apply hyphen_is in Eh as ->. rewrite andb_true_iff, IH. split.
        -- intros (-> & Hf & Hh & Hl & Ha). destruct (Hh eq_refl) as [Hne Hhd].
           split; [by constructor|]. split; [discriminate|]. split.
           { rewrite last_cons. destruct (last l) eqn:E; [exact Hl|].
             by apply last_None in E. }
           intros [|k]; simpl; [|apply Ha].
           intros _. destruct l; [done | exact Hhd].
        -- intros (Hf & Hh & Hl & Ha).
           split.
           { destruct pw; [reflexivity|]. destruct (Hh eq_refl) as [_ Hhd].
             by destruct Hhd. }
           split; [by inversion Hf|]. split.
           { intros _. split.
             - intros ->. by apply Hl.
             - specialize (Ha 0 eq_refl). by destruct l. }
           split.
           { rewrite last_cons in Hl. destruct (last l); [exact Hl | discriminate]. }
           intros k. apply (Ha (S k)).
      * split; [discriminate|]. intros (Hf & _).
        apply Forall_inv in Hf. by rewrite Es, Eh in Hf.
Qed.

Lemma slug_shaped_slug_text l : slug_shaped false l = true <-> slug_text l.
Proof.
  rewrite slug_shaped_text. unfold slug_text. split.
  - intros (Hf & Hh & Hl & Ha). destruct (Hh eq_refl). by repeat split.
  - intros (Hne & Hf & Hh & Hl & Ha). by repeat split.
Qed.

(** X17.  A text matches [SLUG_PATTERN] exactly when, a final newline that [$]
    lets through apart, it is not empty, is made of [a-z0-9] and hyphens,
    neither starts nor ends with a hyphen and has no two hyphens in a row. *)
Theorem slug_pattern_accepts :
  forall v : string,
    re_match SLUG_PATTERN v = true <-> slug_text (chomp (Py.chars v)).
Proof.
  intros v. rewrite re_match_accepts, accepts_slug. apply slug_shaped_slug_text.
Qed.

(** X18.  The slugs are the fixed points of [slug_generator], the empty text
    apart: a text that is not empty is left as it is by [slug_generator]
    exactly when it is a slug. *)
Theorem slug_generator_fixed_points :
  forall v : string,
    seven_bit v ->
    v <> EmptyString ->
    (slug_generator v = v <-> slug_text (Py.chars v)).
Proof.
  intros v _ Hv. rewrite <- slug_shaped_slug_text. split.
  - intros E. destruct (slug_generator_shape v) as [H|H]; rewrite E in H.
    + destruct v; [done | discriminate].
    + exact H.
  - intros H. apply slug_generator_fixed. by right.
Qed.

Lemma slug_generator_fixed_points_witness :
  slug_generator "hello-world-2" = "hello-world-2"
  <-> slug_text (Py.chars "hello-world-2").
Proof.
  apply (slug_generator_fixed_points "hello-world-2").
  - unfold seven_bit. simpl. repeat constructor.
  - discriminate.
Defined.

End SlugPattern.

(** ** The user endpoints *)

Section UserEndpointsFacts.
Import UserEndpoints.

(** X19.  For the values [list_users] admits ([page >= 1], [limit >= 1]) and a
    count [total >= 0], the rows of page [page] start before the end of the
    result exactly when [page] is at most the [pages] it reports; an empty
    result has no page at all. *)
Theorem list_users_page_in_range :
  forall total page limit : Z,
    0 <= total -> 1 <= limit -> 1 <= page ->
    (list_users_offset page limit < total
     <-> page <= EndpointExamples.list_users_pages total limit)
    /\ (total = 0 <-> EndpointExamples.list_users_pages total limit = 0).
Proof.
  intros total page limit Ht Hl Hp.
  unfold list_users_offset, EndpointExamples.list_users_pages.
  pose proof (Z.div_mod (total + limit - 1) limit) as E.
  pose proof (Z.mod_pos_bound (total + limit - 1) limit) as B.
  set (q := (total + limit - 1) / limit) in *.
  set (r := (total + limit - 1) mod limit) in *.
  assert (total + limit - 1 = limit * q + r) as E' by (apply E; lia).
  assert (0 <= r < limit) as B' by (apply B; lia).
  clearbody q r. clear E B.
  repeat split; try nia.
Qed.

Lemma list_users_page_in_range_witness :
  (list_users_offset 3 20 < 41 <-> 3 <= EndpointExamples.list_users_pages 41 20)
  /\ (41 = 0 <-> EndpointExamples.list_users_pages 41 20 = 0).
Proof. apply (list_users_page_in_range 41 3 20); lia. Defined.

Lemma get_current_admin_refuses current_user :
  role current_user <> ADMIN ->
  get_current_admin current_user
  = HTTPException HTTP_403_FORBIDDEN "Admin access required".
Proof. intros H. unfold get_current_admin. by rewrite bool_decide_eq_true_2. Qed.

Lemma get_current_admin_admits current_user :
  role current_user = ADMIN -> get_current_admin current_user = Returns current_user.
Proof.
  intros H. unfold get_current_admin. rewrite bool_decide_eq_false_2; [done|].
  by intros [].
Qed.

(** X20.  A user who is not an admin changes nothing of another account, and can
    neither delete nor activate nor deactivate any account, the own one
    included: the admin-only endpoints refuse before they look at the table,
    [update_user] answers 404 or 403 as the account is missing or there, and
    [upload_avatar] answers 403. *)
Theorem plain_user_cannot_touch_others :
  forall (current_user : User) (db : gmap Z User) (user_id utcnow : Z)
         (user_data : UserUpdate.t) (file : UploadFile),
    role current_user <> ADMIN ->
    delete_user user_id db current_user
    = (db, HTTPException HTTP_403_FORBIDDEN "Admin access required")
    /\ activate_user user_id db current_user utcnow
       = (db, HTTPException HTTP_403_FORBIDDEN "Admin access required")
    /\ deactivate_user user_id db current_user utcnow
       = (db, HTTPException HTTP_403_FORBIDDEN "Admin access required")
    /\ (id current_user <> user_id ->
        update_user user_id user_data db current_user utcnow
        = (db, match db !! user_id with
               | Some _ =>
                   HTTPException HTTP_403_FORBIDDEN
                     "You can only update your own profile"
               | None => HTTPException HTTP_404_NOT_FOUND (not_found user_id)
               end)
        /\ upload_avatar user_id file db current_user
           = (db, HTTPException HTTP_403_FORBIDDEN
                    "You can only update your own avatar")).
Proof.
  intros cu db user_id utcnow user_data file Hr.
  unfold delete_user, activate_user, deactivate_user.
  rewrite get_current_admin_refuses by exact Hr.
  do 3 (split; [reflexivity|]). intros Hid.
  unfold update_user, upload_avatar.
  rewrite !bool_decide_eq_true_2 by assumption. cbn [andb].
  split; [|reflexivity]. by destruct (db !! user_id).
Qed.

Lemma plain_user_cannot_touch_others_witness :
  delete_user 2 sample_users alice
  = (sample_users, HTTPException HTTP_403_FORBIDDEN "Admin access required")
  /\ activate_user 2 sample_users alice 5
     = (sample_users, HTTPException HTTP_403_FORBIDDEN "Admin access required")
  /\ deactivate_user 2 sample_users alice 5
     = (sample_users, HTTPException HTTP_403_FORBIDDEN "Admin access required")
  /\ (id alice <> 2 ->
      update_user 2 (UserUpdate.mk (Some (Some "Eve")) None None) sample_users alice 5
      = (sample_users,
         match sample_users !! 2 with
         | Some _ =>
             HTTPException HTTP_403_FORBIDDEN "You can only update your own profile"
         | None => HTTPException HTTP_404_NOT_FOUND (not_found 2)
         end)
      /\ upload_avatar 2 (mkUploadFile (Some "image/png") (Some "a.png") [])
           sample_users alice
         = (sample_users,
            HTTPException HTTP_403_FORBIDDEN "You can only update your own avatar")).
Proof.
  apply (plain_user_cannot_touch_others alice sample_users 2 5
           (UserUpdate.mk (Some (Some "Eve")) None None)
           (mkUploadFile (Some "image/png") (Some "a.png") [])).
  discriminate.
Defined.

Lemma setattr_same_account user field value :
  same_account user (setattr user field value)
  /\ is_active (setattr user field value) = is_active user
  /\ updated_at (setattr user field value) = updated_at user.
Proof.
  unfold setattr, same_account.
  destruct (String.eqb field "first_name"); [done|].
  destruct (String.eqb field "last_name"); [done|].
  destruct (String.eqb field "bio"); done.
Qed.

Lemma update_data_same_account update_data user :
  let user' :=
    fold_left (fun user kv => setattr user (fst kv) (snd kv)) update_data user in
  same_account user user' /\ is_active user' = is_active user.
Proof.
  revert user. induction update_data as [|[field value] l IH]; intros user; [done|].
  simpl. specialize (IH (setattr user field value)). simpl in IH.
  destruct IH as [(E1 & E2 & E3 & E4 & E5 & E6) E7].
  destruct (setattr_same_account user field value)
    as [(F1 & F2 & F3 & F4 & F5 & F6) [F7 _]].
  unfold same_account. repeat split; congruence.
Qed.

(** X21.  A successful [update_user] was asked by the owner of the account or by
    an admin; it writes one row, and of that row only [updated_at] and the
    fields that were sent: the id, the email, the username, the password
    hash, the role, the activation and the avatar stay as they were, and so
    does each of [first_name], [last_name] and [bio] that was not sent. *)
Theorem update_user_frame :
  forall (user_id utcnow : Z) (user_data : UserUpdate.t)
         (db db' : gmap Z User) (current_user user' : User),
    update_user user_id user_data db current_user utcnow = (db', Returns user') ->
    exists user,
      db !! user_id = Some user
      /\ (id current_user = user_id \/ role current_user = ADMIN)
      /\ db' = <[user_id := user']> db
      /\ same_account user user'
      /\ is_active user' = is_active user
      /\ updated_at user' = utcnow
      /\ first_name user' = default (first_name user) (UserUpdate.first_name user_data)
      /\ last_name user' = default (last_name user) (UserUpdate.last_name user_data)
      /\ bio user' = default (bio user) (UserUpdate.bio user_data).
Proof.
  intros user_id utcnow user_data db db' cu user'. unfold update_user.
  destruct (db !! user_id) as [user|] eqn:E; [|discriminate].
  destruct (bool_decide (id cu <> user_id) && bool_decide (role cu <> ADMIN)) eqn:Ep;
    [discriminate|].
  intros [= <- <-]. exists user. split; [reflexivity|]. split.
  { apply andb_false_iff in Ep as [Ep|Ep]; apply bool_decide_eq_false in Ep.
    - left. by destruct (decide (id cu = user_id)).
    - right. by destruct (decide (role cu = ADMIN)). }
  split; [reflexivity|].
  destruct (update_data_same_account (dict_exclude_unset user_data) user) as [Ha Hb].
  cbn zeta in Ha, Hb.
  split; [exact Ha|]. split; [exact Hb|]. split; [reflexivity|].
  destruct user_data as [[f|] [l|] [b|]]; done.
Qed.

Lemma update_user_frame_witness :
  exists user,
    sample_users !! 1 = Some user
    /\ (id alice = 1 \/ role alice = ADMIN)
    /\ <[1 := set_updated_at 5 (set_bio (Some "hi") alice)]> sample_users
       = <[1 := set_updated_at 5 (set_bio (Some "hi") alice)]> sample_users
    /\ same_account user (set_updated_at 5 (set_bio (Some "hi") alice))
    /\ is_active (set_updated_at 5 (set_bio (Some "hi") alice)) = is_active user
    /\ updated_at (set_updated_at 5 (set_bio (Some "hi") alice)) = 5
    /\ first_name (set_updated_at 5 (set_bio (Some "hi") alice))
       = default (first_name user) None
    /\ last_name (set_updated_at 5 (set_bio (Some "hi") alice))
       = default (last_name user) None
    /\ bio (set_updated_at 5 (set_bio (Some "hi") alice))
       = default (bio user) (Some (Some "hi")).
Proof.
  apply (update_user_frame 1 5 (UserUpdate.mk None None (Some (Some "hi")))
           sample_users _ alice _).
  reflexivity.
Defined.

(** X22.  An admin who deletes an account that is there removes that row and no
    other: [get_user] then answers 404 for it and as before for every other
    id, and deleting it again answers 404 and changes nothing. *)
Theorem delete_user_then_get :
  forall (user_id : Z) (db : gmap Z User) (current_user : User),
    role current_user = ADMIN ->
    is_Some (db !! user_id) ->
    exists db',
      delete_user user_id db current_user = (db', Returns tt)
      /\ get_user user_id db' = HTTPException HTTP_404_NOT_FOUND (not_found user_id)
      /\ (forall other, other <> user_id -> get_user other db' = get_user other db)
      /\ delete_user user_id db' current_user
         = (db', HTTPException HTTP_404_NOT_FOUND (not_found user_id)).
Proof.
  intros user_id db cu Hr [user E]. exists (delete user_id db).
  unfold delete_user, get_user. rewrite get_current_admin_admits by exact Hr.
  rewrite E, lookup_delete_eq. repeat split.
  intros other Ho. by rewrite lookup_delete_ne.
Qed.

Lemma delete_user_then_get_witness :
  exists db',
    delete_user 1 sample_users root_user = (db', Returns tt)
    /\ get_user 1 db' = HTTPException HTTP_404_NOT_FOUND (not_found 1)
    /\ (forall other, other <> 1 -> get_user other db' = get_user other sample_users)
    /\ delete_user 1 db' root_user
       = (db', HTTPException HTTP_404_NOT_FOUND (not_found 1)).
Proof.
  apply (delete_user_then_get 1 sample_users root_user); [reflexivity|].
  by exists alice.
Defined.

(** X23.  Of two activation requests on the same account, the later one decides:
    what [activate_user] stored is overwritten by a [deactivate_user] that
    follows, and the other way round. *)
Theorem activation_last_write_wins :
  forall (user_id t1 t2 : Z) (db : gmap Z User) (current_user : User),
    fst (deactivate_user user_id (fst (activate_user user_id db current_user t1))
           current_user t2)
    = fst (deactivate_user user_id db current_user t2)
    /\ fst (activate_user user_id (fst (deactivate_user user_id db current_user t1))
              current_user t2)
       = fst (activate_user user_id db current_user t2).
Proof.
  intros user_id t1 t2 db cu. unfold activate_user, deactivate_user.
  destruct (decide (role cu = ADMIN)) as [Hr|Hr].
  - rewrite get_current_admin_admits by exact Hr.
    destruct (db !! user_id) as [user|] eqn:E; cbn [fst].
    + rewrite !lookup_insert_eq, !insert_insert_eq. by split.
    + rewrite !E. by split.
  - rewrite get_current_admin_refuses by exact Hr. by split.
Qed.

(** X24.  For an admin and an account that is there, [activate_user] and
    [deactivate_user] write one row, and of that row only the flag and
    [updated_at]: the account and the profile stay as they were, and
    [get_user] returns the row as written. *)
Theorem activation_frame :
  forall (user_id utcnow : Z) (db : gmap Z User) (current_user user : User),
    role current_user = ADMIN ->
    db !! user_id = Some user ->
    exists on off,
      activate_user user_id db current_user utcnow
      = (<[user_id := on]> db, Returns on)
      /\ deactivate_user user_id db current_user utcnow
         = (<[user_id := off]> db, Returns off)
      /\ get_user user_id (<[user_id := on]> db) = Returns on
      /\ get_user user_id (<[user_id := off]> db) = Returns off
      /\ is_active on = true /\ is_active off = false
      /\ updated_at on = utcnow /\ updated_at off = utcnow
      /\ same_account user on /\ same_profile user on
      /\ same_account user off /\ same_profile user off.
Proof.
  intros user_id utcnow db cu user Hr E.
  unfold activate_user, deactivate_user, get_user.
  rewrite get_current_admin_admits by exact Hr. rewrite E.
  do 2 eexists. do 2 (split; [reflexivity|]).
  rewrite !lookup_insert_eq. by repeat split.
Qed.

Lemma activation_frame_witness :
  exists on off,
    activate_user 1 sample_users root_user 7 = (<[1 := on]> sample_users, Returns on)
    /\ deactivate_user 1 sample_users root_user 7
       = (<[1 := off]> sample_users, Returns off)
    /\ get_user 1 (<[1 := on]> sample_users) = Returns on
    /\ get_user 1 (<[1 := off]> sample_users) = Returns off
    /\ is_active on = true /\ is_active off = false
    /\ updated_at on = 7 /\ updated_at off = 7
    /\ same_account alice on /\ same_profile alice on
    /\ same_account alice off /\ same_profile alice off.
Proof. apply (activation_frame 1 7 sample_users root_user alice); reflexivity. Defined.

Lemma is_allowed_in content_type :
  is_allowed content_type = true
  <-> exists t, content_type = Some t
                /\ (t = "image/jpeg" \/ t = "image/png" \/ t = "image/webp").
Proof.
  destruct content_type as [t|]; simpl.
  - rewrite !orb_true_iff, !String.eqb_eq. split.
    + intros H. exists t. split; [reflexivity|]. intuition discriminate.
    + intros (t' & [= <-] & H). tauto.
  - split; [discriminate | by intros (t & H & _)].
Qed.

(** X25.  [upload_avatar] returns exactly when the caller owns the account or is
    an admin, the content type is one of the three image types and the file
    has at most 5 * 1024 * 1024 bytes.  It then returns the storage URL made
    of the id and the file name as sent, and stores it as the avatar of the
    account, the rest of the table staying as it was; when there is no such
    account it returns the URL all the same and stores nothing. *)
Theorem upload_avatar_accepts :
  forall (user_id : Z) (file : UploadFile) (db db' : gmap Z User)
         (current_user : User) (body : list (string * string)),
    upload_avatar user_id file db current_user = (db', Returns body)
    <-> (id current_user = user_id \/ role current_user = ADMIN)
        /\ (exists t, content_type file = Some t
                      /\ (t = "image/jpeg" \/ t = "image/png" \/ t = "image/webp"))
        /\ Z.of_nat (length (contents file)) <= 5242880
        /\ body = [("url",
                    "https://storage.example.com/avatars/" +:+ Py.str_int user_id
                    +:+ "/" +:+ format_filename (filename file))]
        /\ db' = match db !! user_id with
                 | Some user =>
                     <[user_id :=
                         set_avatar_url
                           (Some ("https://storage.example.com/avatars/"
                                  +:+ Py.str_int user_id +:+ "/"
                                  +:+ format_filename (filename file))) user]> db
                 | None => db
                 end.
Proof.
  intros user_id file db db' cu body. unfold upload_avatar.
  rewrite <- is_allowed_in.
  destruct (decide (id cu = user_id)) as [Hi|Hi];
    destruct (decide (role cu = ADMIN)) as [Hr|Hr].
  1-3: rewrite ?(bool_decide_eq_false_2 (id cu <> user_id)) by (by intros []);
       rewrite ?(bool_decide_eq_false_2 (role cu <> ADMIN)) by (by intros []);
       rewrite ?andb_false_r; cbn [andb];
       (destruct (is_allowed (content_type file));
        [|split; [discriminate | intros (_ & ? & _); discriminate]]);
       cbn [negb];
       (destruct (Z.ltb_spec (5 * 1024 * 1024) (Z.of_nat (length (contents file))));
        [split; [discriminate | intros (_ & _ & ? & _); lia]|]);
       (split;
        [ intros [= <- <-]; repeat split; (tauto || lia)
        | intros (_ & _ & _ & -> & ->); reflexivity ]).
  rewrite !bool_decide_eq_true_2 by assumption. cbn [andb].
  split; [discriminate | intros ([?|?] & _); contradiction].
Qed.

Lemma select_where_in condition (db : gmap Z User) user :
  In user (select_where condition db)
  <-> condition user = true /\ exists i, db !! i = Some user.
Proof.
  unfold select_where. rewrite filter_In, <- list_elem_of_In, list_elem_of_fmap.
  split.
  - intros [([i u] & -> & Hin) Hc]. split; [exact Hc|].
    exists i. by apply elem_of_map_to_list in Hin.
  - intros [Hc [i Hi]]. split; [|exact Hc].
    exists (i, user). split; [reflexivity|]. by apply elem_of_map_to_list.
Qed.

Lemma filter_at_most_one {A B : Type} (p : B -> bool) (l : list (A * B)) :
  NoDup (fst <$> l) ->
  (forall x y, In x l -> In y l -> p (snd x) = true -> p (snd y) = true ->
               fst x = fst y) ->
  (length (List.filter p (snd <$> l)) <= 1)%nat.
Proof.
  induction l as [|x l IH]; intros Hn Hu; [simpl; lia|].
  cbn [fmap list_fmap] in Hn |- *. apply NoDup_cons in Hn as [Hx Hn].
  assert (length (List.filter p (snd <$> l)) <= 1)%nat as Hl.
  { apply IH; [exact Hn|]. intros a b Ha Hb. apply Hu; by right. }
  cbn [List.filter]. destruct (p (snd x)) eqn:Ep; [|exact Hl].
  assert (List.filter p (snd <$> l) = []) as ->; [|simpl; lia].
  destruct (List.filter p (snd <$> l)) as [|b t] eqn:Ef; [reflexivity|].
  exfalso. assert (In b (List.filter p (snd <$> l))) as Hb by (rewrite Ef; by left).
  apply filter_In in Hb as [Hb Hpb].
  apply list_elem_of_In, list_elem_of_fmap in Hb as (y & -> & Hy).
  apply Hx. apply list_elem_of_fmap. exists y. split; [|exact Hy].
  apply Hu; [by left | right; by apply list_elem_of_In | exact Ep | exact Hpb].
Qed.

Lemma select_where_at_most_one condition (db : gmap Z User) :
  (forall i j u v, db !! i = Some u -> db !! j = Some v ->
                   condition u = true -> condition v = true -> i = j) ->
  (length (select_where condition db) <= 1)%nat.
Proof.
  intros Hu. unfold select_where. apply filter_at_most_one.
  - apply NoDup_fst_map_to_list.
  - intros [i u] [j v] Hi Hj. cbn [fst snd].
    apply list_elem_of_In, elem_of_map_to_list in Hi.
    apply list_elem_of_In, elem_of_map_to_list in Hj. by apply Hu.
Qed.

Lemma scalar_one_or_none_cases condition (db : gmap Z User) :
  (forall i j u v, db !! i = Some u -> db !! j = Some v ->
                   condition u = true -> condition v = true -> i = j) ->
  match scalar_one_or_none (select_where condition db) with
  | NoRow => forall i u, db !! i = Some u -> condition u = false
  | OneRow row => condition row = true /\ exists i, db !! i = Some row
  | TooManyRows => False
  end.
Proof.
  intros Hu. pose proof (select_where_at_most_one condition db Hu) as Hl.
  pose proof (select_where_in condition db) as Hin.
  destruct (select_where condition db) as [|row [|row' t]]; cbn [scalar_one_or_none].
  - intros i u Hi. destruct (condition u) eqn:E; [|reflexivity].
    exfalso. apply (Hin u). split; [exact E | by exists i].
  - apply Hin. by left.
  - simpl in Hl. lia.
Qed.

(** X26.  On a table in which no two rows share an email or a username,
    [create_user] never meets [MultipleResultsFound]: it answers 409 when the
    email is taken, 409 when only the username is, and otherwise adds the row
    under the new primary key, with the email and the username as sent and
    the hash of the password; and the table it leaves has again no two rows
    with the same email or username. *)
Theorem create_user_keeps_unique :
  forall (get_password_hash : string -> string) (user_data : UserCreate.t)
         (db : gmap Z User) (new_row : User),
    unique_users db ->
    db !! id new_row = None ->
    (email_taken (UserCreate.email user_data) db ->
     create_user get_password_hash user_data db new_row
     = (db, HTTPException HTTP_409_CONFLICT "Email already registered"))
    /\ (~ email_taken (UserCreate.email user_data) db ->
        username_taken (UserCreate.username user_data) db ->
        create_user get_password_hash user_data db new_row
        = (db, HTTPException HTTP_409_CONFLICT "Username already taken"))
    /\ (~ email_taken (UserCreate.email user_data) db ->
        ~ username_taken (UserCreate.username user_data) db ->
        exists user,
          create_user get_password_hash user_data db new_row
          = (<[id new_row := user]> db, Returns user)
          /\ id user = id new_row
          /\ email user = UserCreate.email user_data
          /\ username user = UserCreate.username user_data
          /\ hashed_password user
             = get_password_hash (UserCreate.password user_data)
          /\ unique_users (<[id new_row := user]> db)).
Proof.
  intros get_password_hash user_data db new_row Hu Hnew.
  unfold create_user.
  pose proof (scalar_one_or_none_cases
                (fun user => String.eqb (email user) (UserCreate.email user_data)) db)
    as He.
  pose proof (scalar_one_or_none_cases
                (fun user => String.eqb (username user) (UserCreate.username user_data))
                db) as Hn.
  cbv beta in He, Hn.
  assert (forall i j u v, db !! i = Some u -> db !! j = Some v ->
            String.eqb (email u) (UserCreate.email user_data) = true ->
            String.eqb (email v) (UserCreate.email user_data) = true -> i = j) as Hue.
  { intros i j u v Hi Hj Eu Ev. apply String.eqb_eq in Eu, Ev.
    apply (Hu i j u v Hi Hj). left. congruence. }
  assert (forall i j u v, db !! i = Some u -> db !! j = Some v ->
            String.eqb (username u) (UserCreate.username user_data) = true ->
            String.eqb (username v) (UserCreate.username user_data) = true -> i = j)
    as Hun.
  { intros i j u v Hi Hj Eu Ev. apply String.eqb_eq in Eu, Ev.
    apply (Hu i j u v Hi Hj). right. congruence. }
  specialize (He Hue). specialize (Hn Hun). clear Hue Hun.
  destruct (scalar_one_or_none
              (select_where
                 (fun user => String.eqb (email user) (UserCreate.email user_data)) db))
    as [|row|]; [|clear Hn|destruct He].
  2:{ destruct He as [Hc [i Hi]]. apply String.eqb_eq in Hc.
      assert (email_taken (UserCreate.email user_data) db) as Ht by (by exists i, row).
      split; [reflexivity|]. split; intros Hnt; by destruct (Hnt Ht). }
  assert (~ email_taken (UserCreate.email user_data) db) as Hnt.
  { intros (i & u & Hi & Eu). specialize (He i u Hi).
    apply String.eqb_neq in He. contradiction. }
  split; [intros Ht; by destruct (Hnt Ht)|].
  destruct (scalar_one_or_none
              (select_where
                 (fun user => String.eqb (username user) (UserCreate.username user_data))
                 db))
    as [|row|]; [|clear He|destruct Hn].
  2:{ destruct Hn as [Hc [i Hi]]. apply String.eqb_eq in Hc.
      assert (username_taken (UserCreate.username user_data) db) as Ht
        by (by exists i, row).
      split; [reflexivity|]. intros _ Hnu. by destruct (Hnu Ht). }
  split.
  { intros _ (i & u & Hi & Eu). specialize (Hn i u Hi).
    apply String.eqb_neq in Hn. contradiction. }
  intros _ _. eexists. split; [reflexivity|]. cbn [id email username hashed_password].
  do 4 (split; [reflexivity|]).
  intros i j u v Hi Hj Hs.
  apply lookup_insert_Some in Hi as [[<- <-]|[Hik Hi]];
    apply lookup_insert_Some in Hj as [[<- <-]|[Hjk Hj]].
  - reflexivity.
  - exfalso. cbn [email username] in Hs. destruct Hs as [Hs|Hs].
    + specialize (He j v Hj). apply String.eqb_neq in He. congruence.
    + specialize (Hn j v Hj). apply String.eqb_neq in Hn. congruence.
  - exfalso. cbn [email username] in Hs. destruct Hs as [Hs|Hs].
    + specialize (He i u Hi). apply String.eqb_neq in He. congruence.
    + specialize (Hn i u Hi). apply String.eqb_neq in Hn. congruence.
  - by apply (Hu i j u v).
Qed.

Lemma sample_users_unique : unique_users sample_users.
Proof.
  intros i j u v Hi Hj Hs. unfold sample_users in Hi, Hj.
  apply lookup_insert_Some in Hi as [[<- <-]|[_ Hi]];
    [|apply lookup_insert_Some in Hi as [[<- <-]|[_ Hi]]; [|by rewrite lookup_empty in Hi]];
    (apply lookup_insert_Some in Hj as [[<- <-]|[_ Hj]];
     [|apply lookup_insert_Some in Hj as [[<- <-]|[_ Hj]];
       [|by rewrite lookup_empty in Hj]]);
    try reflexivity; by destruct Hs.
Qed.

Lemma create_user_keeps_unique_witness :
  exists user,
    create_user (fun password => "hash:" +:+ password)
      (UserCreate.mk "bob@example.com" "bob" "Secret12" "Bob" "B")
      sample_users (mkUser 3 EmptyString EmptyString EmptyString None None None
                           USER true None 9)
    = (<[3 := user]> sample_users, Returns user)
    /\ UserEndpoints.id user = 3
    /\ email user = "bob@example.com"
    /\ username user = "bob"
    /\ hashed_password user = "hash:" +:+ "Secret12"
    /\ unique_users (<[3 := user]> sample_users).
Proof.
  apply (create_user_keeps_unique (fun password => "hash:" +:+ password)
           (UserCreate.mk "bob@example.com" "bob" "Secret12" "Bob" "B")
           sample_users
           (mkUser 3 EmptyString EmptyString EmptyString None None None
                   USER true None 9)
           sample_users_unique eq_refl).
  - intros (i & u & Hi & Eu). unfold sample_users in Hi.
    apply lookup_insert_Some in Hi as [[<- <-]|[_ Hi]]; [discriminate|].
    apply lookup_insert_Some in Hi as [[<- <-]|[_ Hi]]; [discriminate|].
    by rewrite lookup_empty in Hi.
  - intros (i & u & Hi & Eu). unfold sample_users in Hi.
    apply lookup_insert_Some in Hi as [[<- <-]|[_ Hi]]; [discriminate|].
    apply lookup_insert_Some in Hi as [[<- <-]|[_ Hi]]; [discriminate|].
    by rewrite lookup_empty in Hi.
Defined.

End UserEndpointsFacts.

(** ** Routing *)

Section Routing.
Import Router.

Lemma segments_stats_is_user_id segments :
  segments_match (prefix ++ [Lit "users"; Lit "stats"]) segments = true ->
  segments_match (prefix ++ [Lit "users"; Param "user_id"]) segments = true.
Proof.
  destruct segments as [|a [|b [|c [|d l]]]];
    cbn [prefix app segments_match]; rewrite ?andb_false_r; try done.
  destruct (String.eqb a "api"); [|done]. destruct (String.eqb b "users"); [|done].
  destruct (String.eqb_spec c "stats") as [->|]; done.
Qed.

Lemma fullmatch_stats_is_user_id request_path :
  fullmatch (prefix ++ [Lit "users"; Lit "stats"]) request_path = true ->
  fullmatch (prefix ++ [Lit "users"; Param "user_id"]) request_path = true.
Proof.
  unfold fullmatch. destruct (Py.split request_path "/") as [|first segments]; [done|].
  destruct (String.eqb first EmptyString); [|done]. cbn [andb].
  apply segments_stats_is_user_id.
Qed.

Lemma full_stats_is_user_id request_method request_path :
  full request_method request_path (mkRoute "GET" [Lit "users"; Lit "stats"] get_user_stats)
  = true ->
  full request_method request_path (mkRoute "GET" [Lit "users"; Param "user_id"] get_user)
  = true.
Proof.
  unfold full, path_regex_match. cbn [path method].
  destruct (String.eqb request_method "GET"); [|by rewrite andb_false_r].
  rewrite !andb_true_r. intros H. apply orb_true_iff in H as [H|H].
  - by rewrite fullmatch_stats_is_user_id.
  - destruct (without_final_newline request_path) as [before|]; [|done].
    rewrite (fullmatch_stats_is_user_id before H). apply orb_true_r.
Qed.

(** X27.  No request reaches [get_user_stats]: [/users/{user_id}] is declared
    before [/users/stats] and takes every path that one matches, so a GET of
    [/api/users/stats] goes to [get_user].  Every other endpoint is reached
    by some request. *)
Theorem get_user_stats_unreachable :
  (forall request_method request_path,
     dispatch request_method request_path <> Handled get_user_stats)
  /\ dispatch "GET" "/api/users/stats" = Handled get_user
  /\ (forall e, e <> get_user_stats ->
        exists request_method request_path,
          dispatch request_method request_path = Handled e).
Proof.
  split; [|split; [reflexivity|]].
  - intros m p. unfold dispatch.
    destruct (find (full m p) routes) as [r|] eqn:E;
      [|destruct (existsb (partial p) routes); discriminate].
    intros [= He]. revert E. unfold routes. cbn [find].
    repeat (match goal with
            | |- context [if full m p ?r then _ else _] =>
                destruct (full m p r) eqn:?;
                [intros [= <-]; try discriminate He|]
            end).
    + pose proof (full_stats_is_user_id m p) as K. rewrite K in *; [discriminate|].
      assumption.
    + discriminate.
  - intros e He. destruct e.
    + by exists "GET", "/api/health".
    + by exists "POST", "/api/users".
    + by exists "GET", "/api/users".
    + by exists "GET", "/api/users/7".
    + by exists "PATCH", "/api/users/7".
    + by exists "DELETE", "/api/users/7".
    + by exists "POST", "/api/users/batch".
    + by exists "POST", "/api/users/7/avatar".
    + by exists "POST", "/api/users/7/activate".
    + by exists "POST", "/api/users/7/deactivate".
    + by destruct He.
Qed.

End Routing.
